(** * libadb/reader.c: the unified byte-stream reader of kernelflinger

    A shallow embedding of [src/libadb/reader.c] and the properties of its
    RAM, partition and dispatcher code.

    Conventions of the embedding.
    - C integers are [Z] values; every store into a fixed-width object is
      written with its wrap-around ([u16], [u32], [u64]).  [UINTN] and
      [EFI_PHYSICAL_ADDRESS] are 64 bits wide (the x86_64 build).
    - The process-wide [static struct ram_priv ram_priv] is the [ram]
      component of a [world]; a context whose [private] is [priv_ram]
      aliases it.
    - Calls into the firmware and into library routines that are not in
      this file ([GetMemoryMap], [ReadDisk], [AllocatePool], ...) answer
      from a [firmware] record of results.
    - Every [FreePool] call is recorded, in order, in the world's
      [pool_log]. *)

From Stdlib Require Import ZArith List Bool String Ascii Lia.
From Stdlib Require Import Sorting.Sorted Sorting.Permutation.
Import ListNotations.
Open Scope Z_scope.

(** ** Machine integers *)

Definition u16 (x : Z) : Z := x mod 2 ^ 16.
Definition u32 (x : Z) : Z := x mod 2 ^ 32.
Definition u64 (x : Z) : Z := x mod 2 ^ 64.

(** The unsigned 64-bit values. *)
Definition is_u64 (x : Z) : Prop := 0 <= x < 2 ^ 64.

(** C truth value of an integer: [if (x)] *)
Definition nonzero (x : Z) : bool := negb (x =? 0).

(** ** EFI status codes *)

Inductive EFI_STATUS : Set :=
| EFI_SUCCESS
| EFI_INVALID_PARAMETER
| EFI_UNSUPPORTED
| EFI_BUFFER_TOO_SMALL
| EFI_OUT_OF_RESOURCES
| EFI_DEVICE_ERROR
| EFI_NOT_FOUND.

Definition EFI_ERROR (ret : EFI_STATUS) : bool :=
  match ret with EFI_SUCCESS => false | _ => true end.

(** [return EFI_ERROR(ret) ? ret : EFI_INVALID_PARAMETER;] *)
Definition error_or_invalid (ret : EFI_STATUS) : EFI_STATUS :=
  if EFI_ERROR ret then ret else EFI_INVALID_PARAMETER.

(** ** Constants of the headers *)

(** Modelled from the spec: the constants of [sparse_format.h] and of the
    EFI headers, which are not among the sources.  The sizes are those of
    the wire-format table of the spec (file header 28 bytes, chunk header
    12 bytes); the page size is 4096, the chunk types 0xCAC1 and 0xCAC3.
    [EFI_PAGE_SIZE] is an [int] constant (the code prints it with [%d]):
    its product with a 64-bit operand is computed in 64 bits, its product
    with the 4-byte [chunk_sz] in 32 bits. *)
Definition EFI_PAGE_SIZE : Z := 4096.
Definition EfiConventionalMemory : Z := 7.
Definition MAX_MEMORY_REGION_NB : Z := 256.
Definition SPARSE_HEADER_MAGIC : Z := 0xed26ff3a.
Definition CHUNK_TYPE_RAW : Z := 0xCAC1.
Definition CHUNK_TYPE_DONT_CARE : Z := 0xCAC3.
Definition sizeof_sparse_header : Z := 28.
Definition sizeof_chunk_header : Z := 12.
Definition PART_READER_BUF_SIZE : Z := 10 * 1024 * 1024.

(** ** Data *)

(** Modelled from the spec: the firmware's memory descriptor (EFI
    headers, not among the sources), with the fields the reader uses:
    type, physical start and number of pages, 64 bits each but for the
    type. *)
Record EFI_MEMORY_DESCRIPTOR : Set := {
  Type_ : Z;
  PhysicalStart : Z;
  NumberOfPages : Z
}.

(** Modelled from the spec: [struct sparse_header] of [sparse_format.h]
    (not among the sources), the fields of the spec's wire-format table;
    [total_blks] and [total_chunks] are 4 bytes wide. *)
Record sparse_header : Set := {
  magic : Z;
  major_version : Z;
  minor_version : Z;
  file_hdr_sz : Z;
  chunk_hdr_sz : Z;
  blk_sz : Z;
  total_blks : Z;
  total_chunks : Z;
  image_checksum : Z
}.

(** Modelled from the spec: [struct chunk_header] of [sparse_format.h]
    (not among the sources), the fields of the spec's wire-format table:
    [chunk_type] is 2 bytes wide, [chunk_sz] and [total_sz] 4 bytes. *)
Record chunk_header : Set := {
  chunk_type : Z;
  reserved1 : Z;
  chunk_sz : Z;
  total_sz : Z
}.

Definition zero_sparse_header : sparse_header :=
  {| magic := 0; major_version := 0; minor_version := 0; file_hdr_sz := 0;
     chunk_hdr_sz := 0; blk_sz := 0; total_blks := 0; total_chunks := 0;
     image_checksum := 0 |}.

Definition zero_chunk : chunk_header :=
  {| chunk_type := 0; reserved1 := 0; chunk_sz := 0; total_sz := 0 |}.

(** [static struct ram_priv]: [chunks] is the embedded array of
    [MAX_MEMORY_REGION_NB] chunk headers, [memmap] the descriptors the
    firmware wrote into the embedded buffer. *)
Record ram_priv : Set := {
  is_in_used : bool;
  memmap : list EFI_MEMORY_DESCRIPTOR;
  start : Z;
  end_ : Z;
  cur : Z;
  cur_end : Z;
  chunk_nb : Z;
  cur_chunk : Z;
  sheader : sparse_header;
  chunks : list chunk_header
}.

(** [memset(priv, 0, sizeof( *priv))] *)
Definition zero_ram_priv : ram_priv :=
  {| is_in_used := false; memmap := []; start := 0; end_ := 0; cur := 0;
     cur_end := 0; chunk_nb := 0; cur_chunk := 0;
     sheader := zero_sparse_header;
     chunks := repeat zero_chunk (Z.to_nat MAX_MEMORY_REGION_NB) |}.

(** Modelled from the spec: the partition descriptor of [gpt.h] (not
    among the sources), as far as [part_open] reads it: the first and the
    last block of the partition and the block size of its device. *)
Record gpt_partition_interface : Set := {
  starting_lba : Z;
  ending_lba : Z;
  BlockSize : Z
}.

Record part_priv : Set := {
  gparti : gpt_partition_interface;
  need_more_data : bool;
  buf_cur : Z;
  buf_len : Z;
  offset : Z
}.

(** What [ctx->private] points to. *)
Inductive private_t : Set :=
| priv_null
| priv_ram                      (* &ram_priv, the static region *)
| priv_part (p : part_priv)     (* a pool allocation owned by the context *)
| priv_table                    (* the resident ACPI table *)
| priv_var.                     (* the buffer get_efi_variable allocated *)

Inductive reader_id : Set := READER_ram | READER_acpi | READER_part | READER_efivar.

(** Modelled from the spec: [reader_ctx_t] of [reader.h] (not among the
    sources): the reader, the cursor [cur], the total [len], both
    [UINTN], and the private state. *)
Record reader_ctx : Set := {
  ctx_reader : option reader_id;
  ctx_cur : Z;
  ctx_len : Z;
  ctx_private : private_t
}.

(** Addresses handed to [FreePool]. *)
Inductive pointer : Set :=
| ptr_NULL
| ptr_ram_chunks                (* priv->chunks of the static region *)
| ptr_part_priv
| ptr_partname
| ptr_varname
| ptr_name                      (* the name buffer of efivar_find *)
| ptr_private.                  (* ctx->private as free_private sees it *)

Record world : Set := {
  ram : ram_priv;
  pool_log : list pointer
}.

(** The buffer a read hands back. *)
Inductive buffer : Set :=
| buf_none
| buf_sheader                   (* &priv->sheader *)
| buf_chunk (idx : Z)           (* &priv->chunks[idx] *)
| buf_phys (addr : Z)           (* the physical address itself *)
| buf_part (off : Z)            (* priv->buf + off *)
| buf_private (off : Z).        (* ctx->private + off *)

(** ** The search of [efivar_find] *)

Module EfiVar.

(** One answer of [GetNextVariableName]: its status, the size it leaves
    in [namesize], and the name and the GUID it leaves in the buffers. *)
Record gnv_reply : Set := {
  gnv_status : EFI_STATUS;
  gnv_namesize : Z;
  gnv_name : string;
  gnv_guid : Z
}.

(** The calls [efivar_find] makes: the answers of
    [GetNextVariableName], in order, and whether the pool allocations
    succeed ([ReallocatePool] by the old and the new size). *)
Record var_services : Set := {
  AllocateZeroPool_ok : bool;
  ReallocatePool_ok : Z -> Z -> bool;
  GetNextVariableName : list gnv_reply
}.

(** How the [for (;;)] loop ends: by [break], with [ret] and [found]
    (holding [found_guid]), or by the [return] inside it. *)
Inductive find_exit : Set :=
| find_break (ret : EFI_STATUS) (found : option Z)
| find_return (ret : EFI_STATUS).

(** The loop of [efivar_find] (lines 466-497), one turn for each answer;
    [None] when the answers run out before the loop ends. *)
Fixpoint efivar_find_loop (realloc_ok : Z -> Z -> bool) (replies : list gnv_reply)
    (varname : string) (bufsize : Z) (found : option Z) : option find_exit :=
  match replies with
  | [] => None
  | r :: rest =>
      match gnv_status r with
      | EFI_NOT_FOUND => Some (find_break EFI_SUCCESS found)
      | EFI_BUFFER_TOO_SMALL =>
          if realloc_ok bufsize (gnv_namesize r)
          then efivar_find_loop realloc_ok rest varname (gnv_namesize r) found
          else Some (find_return EFI_OUT_OF_RESOURCES)
      | EFI_SUCCESS =>
          if String.eqb (gnv_name r) varname then
            match found with
            | Some _ => Some (find_break EFI_UNSUPPORTED found)
            | None =>
                efivar_find_loop realloc_ok rest varname bufsize (Some (gnv_guid r))
            end
          else efivar_find_loop realloc_ok rest varname bufsize found
      | ret => Some (find_break ret found)
      end
  end.

(** [efivar_find]: the status, what was written to [*guid_p], and
    whether [FreePool(name)] ran. *)
Definition efivar_find (fw : var_services) (varname : string)
  : option (EFI_STATUS * option Z * bool) :=
  if negb (AllocateZeroPool_ok fw) then Some (EFI_OUT_OF_RESOURCES, None, false)
  else
    match efivar_find_loop (ReallocatePool_ok fw) (GetNextVariableName fw)
            varname 64 None with
    | None => None
    | Some (find_return ret) => Some (ret, None, false)
    | Some (find_break ret found) =>
        if EFI_ERROR ret then Some (ret, None, true)
        else
          match found with
          | None => Some (EFI_NOT_FOUND, None, true)
          | Some found_guid => Some (EFI_SUCCESS, Some found_guid, true)
          end
    end.

(** An answer that names the variable [varname]. *)
Definition names (varname : string) (r : gnv_reply) : bool :=
  match gnv_status r with
  | EFI_SUCCESS => String.eqb (gnv_name r) varname
  | _ => false
  end.

(** An answer after which the enumeration goes on: a variable, or a
    buffer that was too small. *)
Definition goes_on (r : gnv_reply) : Prop :=
  gnv_status r = EFI_SUCCESS \/ gnv_status r = EFI_BUFFER_TOO_SMALL.

(** An answer that fails the enumeration. *)
Definition fails (r : gnv_reply) : Prop :=
  gnv_status r <> EFI_SUCCESS /\ gnv_status r <> EFI_BUFFER_TOO_SMALL /\
  gnv_status r <> EFI_NOT_FOUND.

(** A variable store with [Boot0001] and two variables named [db]. *)
Definition var (name : string) (guid : Z) : gnv_reply :=
  {| gnv_status := EFI_SUCCESS; gnv_namesize := 0; gnv_name := name;
     gnv_guid := guid |}.
Definition too_small (namesize : Z) : gnv_reply :=
  {| gnv_status := EFI_BUFFER_TOO_SMALL; gnv_namesize := namesize;
     gnv_name := EmptyString; gnv_guid := 0 |}.
Definition answer (ret : EFI_STATUS) : gnv_reply :=
  {| gnv_status := ret; gnv_namesize := 0; gnv_name := EmptyString; gnv_guid := 0 |}.
Definition store : list gnv_reply :=
  [var "db" 1; too_small 128; var "Boot0001" 2; var "db" 3].
Definition services (replies : list gnv_reply) : var_services :=
  {| AllocateZeroPool_ok := true; ReallocatePool_ok := fun _ _ => true;
     GetNextVariableName := replies |}.

End EfiVar.

(** ** The firmware *)

(** Results of the calls that leave this file.  [variable_services]
    holds what [efivar_find] meets: the answers of
    [GetNextVariableName] before the [EFI_NOT_FOUND] that ends the
    enumeration, and whether its pool allocations succeed. *)
Record firmware : Set := {
  GetMemoryMap : EFI_STATUS * (EFI_MEMORY_DESCRIPTOR * list EFI_MEMORY_DESCRIPTOR);
  AllocatePool_ok : bool;
  stra_to_str_ok : bool;
  gpt_get_partition_by_label : EFI_STATUS * gpt_partition_interface;
  ReadDisk : EFI_STATUS;
  get_acpi_table : EFI_STATUS * Z;
  stra_to_guid : EFI_STATUS;
  variable_services : EfiVar.var_services;
  get_efi_variable : EFI_STATUS * Z
}.

(** ** Field updates *)

Definition set_ctx_reader (r : option reader_id) (c : reader_ctx) : reader_ctx :=
  {| ctx_reader := r; ctx_cur := ctx_cur c; ctx_len := ctx_len c;
     ctx_private := ctx_private c |}.
Definition set_ctx_cur (v : Z) (c : reader_ctx) : reader_ctx :=
  {| ctx_reader := ctx_reader c; ctx_cur := v; ctx_len := ctx_len c;
     ctx_private := ctx_private c |}.
Definition set_ctx_len (v : Z) (c : reader_ctx) : reader_ctx :=
  {| ctx_reader := ctx_reader c; ctx_cur := ctx_cur c; ctx_len := v;
     ctx_private := ctx_private c |}.
Definition set_ctx_private (p : private_t) (c : reader_ctx) : reader_ctx :=
  {| ctx_reader := ctx_reader c; ctx_cur := ctx_cur c; ctx_len := ctx_len c;
     ctx_private := p |}.

Definition set_is_in_used (b : bool) (p : ram_priv) : ram_priv :=
  {| is_in_used := b; memmap := memmap p; start := start p; end_ := end_ p;
     cur := cur p; cur_end := cur_end p; chunk_nb := chunk_nb p;
     cur_chunk := cur_chunk p; sheader := sheader p; chunks := chunks p |}.
Definition set_memmap (m : list EFI_MEMORY_DESCRIPTOR) (p : ram_priv) : ram_priv :=
  {| is_in_used := is_in_used p; memmap := m; start := start p; end_ := end_ p;
     cur := cur p; cur_end := cur_end p; chunk_nb := chunk_nb p;
     cur_chunk := cur_chunk p; sheader := sheader p; chunks := chunks p |}.
Definition set_start (v : Z) (p : ram_priv) : ram_priv :=
  {| is_in_used := is_in_used p; memmap := memmap p; start := v; end_ := end_ p;
     cur := cur p; cur_end := cur_end p; chunk_nb := chunk_nb p;
     cur_chunk := cur_chunk p; sheader := sheader p; chunks := chunks p |}.
Definition set_end (v : Z) (p : ram_priv) : ram_priv :=
  {| is_in_used := is_in_used p; memmap := memmap p; start := start p; end_ := v;
     cur := cur p; cur_end := cur_end p; chunk_nb := chunk_nb p;
     cur_chunk := cur_chunk p; sheader := sheader p; chunks := chunks p |}.
Definition set_cur (v : Z) (p : ram_priv) : ram_priv :=
  {| is_in_used := is_in_used p; memmap := memmap p; start := start p;
     end_ := end_ p; cur := v; cur_end := cur_end p; chunk_nb := chunk_nb p;
     cur_chunk := cur_chunk p; sheader := sheader p; chunks := chunks p |}.
Definition set_cur_end (v : Z) (p : ram_priv) : ram_priv :=
  {| is_in_used := is_in_used p; memmap := memmap p; start := start p;
     end_ := end_ p; cur := cur p; cur_end := v; chunk_nb := chunk_nb p;
     cur_chunk := cur_chunk p; sheader := sheader p; chunks := chunks p |}.
Definition set_chunk_nb (v : Z) (p : ram_priv) : ram_priv :=
  {| is_in_used := is_in_used p; memmap := memmap p; start := start p;
     end_ := end_ p; cur := cur p; cur_end := cur_end p; chunk_nb := v;
     cur_chunk := cur_chunk p; sheader := sheader p; chunks := chunks p |}.
Definition set_cur_chunk (v : Z) (p : ram_priv) : ram_priv :=
  {| is_in_used := is_in_used p; memmap := memmap p; start := start p;
     end_ := end_ p; cur := cur p; cur_end := cur_end p; chunk_nb := chunk_nb p;
     cur_chunk := v; sheader := sheader p; chunks := chunks p |}.
Definition set_sheader (h : sparse_header) (p : ram_priv) : ram_priv :=
  {| is_in_used := is_in_used p; memmap := memmap p; start := start p;
     end_ := end_ p; cur := cur p; cur_end := cur_end p; chunk_nb := chunk_nb p;
     cur_chunk := cur_chunk p; sheader := h; chunks := chunks p |}.
Definition set_chunks (l : list chunk_header) (p : ram_priv) : ram_priv :=
  {| is_in_used := is_in_used p; memmap := memmap p; start := start p;
     end_ := end_ p; cur := cur p; cur_end := cur_end p; chunk_nb := chunk_nb p;
     cur_chunk := cur_chunk p; sheader := sheader p; chunks := l |}.

Definition set_ram (p : ram_priv) (w : world) : world :=
  {| ram := p; pool_log := pool_log w |}.

(** [FreePool(p)] *)
Definition FreePool (p : pointer) (w : world) : world :=
  {| ram := ram w; pool_log := pool_log w ++ [p] |}.

(** [a[i] = x] on an array held as a list (nothing is written past its end). *)
Fixpoint array_set {A : Type} (i : nat) (x : A) (a : list A) : list A :=
  match a, i with
  | [], _ => []
  | _ :: t, O => x :: t
  | h :: t, S j => h :: array_set j x t
  end.

Definition array_get (a : list chunk_header) (i : Z) : chunk_header :=
  nth (Z.to_nat i) a zero_chunk.

(** ** The RAM reader *)

(** One run of the inner [for] loop of [sort_memory_map]: [n_cmp] adjacent
    pairs are compared from the front, and a pair out of order is swapped.
    The result carries [swapped]. *)
Fixpoint bubble_pass (n_cmp : nat) (entries : list EFI_MEMORY_DESCRIPTOR)
  : list EFI_MEMORY_DESCRIPTOR * bool :=
  match n_cmp, entries with
  | S k, cur_d :: next_d :: rest =>
      if PhysicalStart cur_d >? PhysicalStart next_d then
        let (r, _) := bubble_pass k (cur_d :: rest) in (next_d :: r, true)
      else
        let (r, swapped) := bubble_pass k (next_d :: rest) in (cur_d :: r, swapped)
  | _, _ => (entries, false)
  end.

(** [sort_memory_map]: the [do ... while (swapped)] loop; a pass over
    [nr_entries] entries makes [nr_entries - 1] comparisons, then
    [nr_entries--].  The map has at least one entry (with none the C loop
    bound [nr_entries - 1] wraps around; the firmware always reports
    entries, and [GetMemoryMap] of [firmware] is typed that way). *)
Fixpoint sort_memory_map (entries : list EFI_MEMORY_DESCRIPTOR) (nr_entries : nat)
  : list EFI_MEMORY_DESCRIPTOR :=
  match nr_entries with
  | O => entries
  | S k =>
      let (entries', swapped) := bubble_pass k entries in
      if swapped then sort_memory_map entries' k else entries'
  end.

(** [ram_add_chunk] *)
Definition ram_add_chunk (ctx : reader_ctx) (priv : ram_priv) (type size : Z)
  : EFI_STATUS * reader_ctx * ram_priv :=
  if nonzero (size mod EFI_PAGE_SIZE) then (EFI_INVALID_PARAMETER, ctx, priv)
  else if chunk_nb priv =? MAX_MEMORY_REGION_NB then (EFI_OUT_OF_RESOURCES, ctx, priv)
  else
    let idx := chunk_nb priv in
    let old := array_get (chunks priv) idx in
    let priv := set_chunk_nb (u64 (idx + 1)) priv in
    let sz := u32 (size / EFI_PAGE_SIZE) in
    let ctx := set_ctx_len (u64 (ctx_len ctx + sizeof_chunk_header)) ctx in
    let raw := type =? CHUNK_TYPE_RAW in
    let tot := if raw then u32 (sizeof_chunk_header + size) else sizeof_chunk_header in
    let ctx := if raw then set_ctx_len (u64 (ctx_len ctx + size)) ctx else ctx in
    let c := {| chunk_type := u16 type; reserved1 := reserved1 old;
                chunk_sz := sz; total_sz := tot |} in
    let priv := set_chunks (array_set (Z.to_nat idx) c (chunks priv)) priv in
    let h := sheader priv in
    let h := {| magic := magic h; major_version := major_version h;
                minor_version := minor_version h; file_hdr_sz := file_hdr_sz h;
                chunk_hdr_sz := chunk_hdr_sz h; blk_sz := blk_sz h;
                total_blks := u32 (total_blks h + sz);
                total_chunks := u32 (total_chunks h + 1);
                image_checksum := image_checksum h |} in
    (EFI_SUCCESS, ctx, set_sheader h priv).

(** How one turn of the [for] loop of [ram_build_chunks] ends. *)
Inductive loop_exit : Set :=
| exit_next                     (* falls to [next:], the loop goes on *)
| exit_break                    (* [break] *)
| exit_err (ret : EFI_STATUS).  (* [goto err] with this [ret] *)

Definition entry_len (entry : EFI_MEMORY_DESCRIPTOR) : Z :=
  u64 (NumberOfPages entry * EFI_PAGE_SIZE).
Definition entry_end (entry : EFI_MEMORY_DESCRIPTOR) : Z :=
  u64 (PhysicalStart entry + entry_len entry).

(** Lines 163-176: the chunk of the descriptor itself. *)
Definition ram_build_descr (entry : EFI_MEMORY_DESCRIPTOR)
    (ctx : reader_ctx) (priv : ram_priv) : loop_exit * reader_ctx * ram_priv :=
  let length := entry_len entry in
  let length :=
    if (start priv >? PhysicalStart entry) && (start priv <? entry_end entry)
    then u64 (length - u64 (start priv - PhysicalStart entry)) else length in
  let length :=
    if nonzero (end_ priv) && (end_ priv <? entry_end entry)
    then u64 (length - u64 (entry_end entry - end_ priv)) else length in
  let type := if Type_ entry =? EfiConventionalMemory
              then CHUNK_TYPE_RAW else CHUNK_TYPE_DONT_CARE in
  let '(ret, ctx, priv) := ram_add_chunk ctx priv type length in
  if EFI_ERROR ret then (exit_err ret, ctx, priv)
  else if nonzero (end_ priv) && (end_ priv <=? entry_end entry)
       then (exit_break, ctx, priv)
       else (exit_next, ctx, priv).

(** Lines 133-179: the body of the loop for one descriptor. *)
Definition ram_build_entry (entry : EFI_MEMORY_DESCRIPTOR) (prev_end : Z)
    (ctx : reader_ctx) (priv : ram_priv) : loop_exit * reader_ctx * ram_priv :=
  if start priv >=? entry_end entry then (exit_next, ctx, priv)
  else if negb (prev_end =? PhysicalStart entry) then
    (* Memory hole between two memory regions *)
    if prev_end >? PhysicalStart entry then (exit_err EFI_SUCCESS, ctx, priv)
    else
      let length := u64 (PhysicalStart entry - prev_end) in
      let length :=
        if (start priv >? prev_end) && (start priv <? PhysicalStart entry)
        then u64 (length - u64 (start priv - prev_end)) else length in
      let length :=
        if nonzero (end_ priv) && (PhysicalStart entry >? end_ priv)
        then u64 (length - u64 (PhysicalStart entry - end_ priv)) else length in
      let '(ret, ctx, priv) := ram_add_chunk ctx priv CHUNK_TYPE_DONT_CARE length in
      if EFI_ERROR ret then (exit_err ret, ctx, priv)
      else if nonzero (end_ priv) && (end_ priv <? PhysicalStart entry)
           then (exit_break, ctx, priv)
           else ram_build_descr entry ctx priv
  else ram_build_descr entry ctx priv.

(** The [for] loop over the entries left to visit; [prev_end] is threaded
    through and comes back with the exit. *)
Fixpoint ram_build_loop (entries : list EFI_MEMORY_DESCRIPTOR) (prev_end : Z)
    (ctx : reader_ctx) (priv : ram_priv) : loop_exit * Z * reader_ctx * ram_priv :=
  match entries with
  | [] => (exit_next, prev_end, ctx, priv)
  | entry :: rest =>
      match ram_build_entry entry prev_end ctx priv with
      | (exit_next, ctx, priv) => ram_build_loop rest (entry_end entry) ctx priv
      | (e, ctx, priv) => (e, prev_end, ctx, priv)
      end
  end.

(** [ram_build_chunks]; the last component lists its [FreePool] calls.
    With exit [exit_next] the loop ran to [i == nr_entries]. *)
Definition ram_build_chunks (ctx : reader_ctx) (priv : ram_priv) (nr_entries : nat)
  : EFI_STATUS * reader_ctx * ram_priv * list pointer :=
  let ctx := set_ctx_cur 0 (set_ctx_len 0 ctx) in
  match ram_build_loop (firstn nr_entries (memmap priv)) 0 ctx priv with
  | (exit_err ret, _, ctx, priv) =>
      (* err: if (priv->chunks) FreePool(priv->chunks); *)
      (error_or_invalid ret, ctx, priv, [ptr_ram_chunks])
  | (e, prev_end, ctx, priv) =>
      if nonzero (end_ priv) && (match e with exit_next => true | _ => false end)
      then (EFI_INVALID_PARAMETER, ctx, priv, [])
      else if negb (nonzero (ctx_len ctx)) then (EFI_INVALID_PARAMETER, ctx, priv, [])
      else
        let priv := if negb (nonzero (end_ priv)) then set_end prev_end priv else priv in
        (EFI_SUCCESS, ctx, priv, [])
  end.

(** [strtoul] with base 16 as a sample routine: hexadecimal digits with no
    prefix, the value and the text left at [endptr].

    Modelled from the spec: the library's [strtoul] is not among the
    sources ("hex arguments are parsed with no prefix requirement; a
    trailing non-hex character is an error").  The functions below take
    the routine as a parameter; this one instantiates it in the examples. *)
Definition hex_digit (c : ascii) : option Z :=
  let n := Z.of_nat (nat_of_ascii c) in
  if (48 <=? n) && (n <=? 57) then Some (n - 48)
  else if (97 <=? n) && (n <=? 102) then Some (n - 87)
  else if (65 <=? n) && (n <=? 70) then Some (n - 55)
  else None.

Fixpoint hex_strtoul_from (acc : Z) (s : string) : Z * string :=
  match s with
  | EmptyString => (acc, EmptyString)
  | String c rest =>
      match hex_digit c with
      | Some d => hex_strtoul_from (u64 (16 * acc + d)) rest
      | None => (acc, s)
      end
  end.

Definition hex_strtoul (s : string) : Z * string := hex_strtoul_from 0 s.

(** [*endptr != '\0'] *)
Definition at_nul (endptr : string) : bool :=
  match endptr with EmptyString => true | _ => false end.

Section Reader.

(** [strtoul(nptr, &endptr, 16)]: the value and what [endptr] is left on. *)
Variable strtoul16 : string -> Z * string.

(** Lines 225-238 of [ram_open]: the window read from [argv], with
    whether both tokens parsed to their end ([false] is [goto err]). *)
Definition ram_parse_argv (argv : list string) (priv : ram_priv) : bool * ram_priv :=
  let argc := Z.of_nat (List.length argv) in
  let '(ok, priv) :=
    if argc >? 0 then
      let (v, endptr) := strtoul16 (nth 0 argv EmptyString) in
      (at_nul endptr, set_start (u64 v) priv)
    else (true, priv) in
  if negb ok then (false, priv)
  else if argc =? 2 then
    let (length, endptr) := strtoul16 (nth 1 argv EmptyString) in
    if at_nul endptr then (true, set_end (u64 (start priv + u64 length)) priv)
    else (false, priv)
  else (true, set_end 0 priv).

(** Lines 245-251 of [ram_open]: initialize the sparse header. *)
Definition ram_init_sheader (priv : ram_priv) : ram_priv :=
  set_sheader
    {| magic := SPARSE_HEADER_MAGIC; major_version := 1; minor_version := 0;
       file_hdr_sz := sizeof_sparse_header; chunk_hdr_sz := sizeof_chunk_header;
       blk_sz := EFI_PAGE_SIZE;
       total_blks := total_blks (sheader priv);
       total_chunks := total_chunks (sheader priv);
       image_checksum := image_checksum (sheader priv) |} priv.

(** The [err:] label of [ram_open]. *)
Definition ram_open_err (ret : EFI_STATUS) (w : world) (ctx : reader_ctx)
    (priv : ram_priv) : EFI_STATUS * world * reader_ctx :=
  (error_or_invalid ret, set_ram (set_is_in_used false priv) w, ctx).

(** [ram_open] *)
Definition ram_open (w : world) (ctx : reader_ctx) (argv : list string)
    (fw : firmware) : EFI_STATUS * world * reader_ctx :=
  let argc := Z.of_nat (List.length argv) in
  if argc >? 2 then (EFI_INVALID_PARAMETER, w, ctx)
  else if is_in_used (ram w) then (EFI_UNSUPPORTED, w, ctx)
  else
    let ctx := set_ctx_private priv_ram ctx in
    let priv := set_is_in_used true zero_ram_priv in
    let (parsed, priv) := ram_parse_argv argv priv in
    if negb parsed then ram_open_err EFI_SUCCESS w ctx priv
    else if nonzero (start priv mod EFI_PAGE_SIZE) || nonzero (end_ priv mod EFI_PAGE_SIZE)
    then ram_open_err EFI_SUCCESS w ctx priv
    else
      let priv := ram_init_sheader priv in
      let '(ret, (d, ds)) := GetMemoryMap fw in
      if EFI_ERROR ret then ram_open_err ret w ctx priv
      else
        let nr_descr := List.length (d :: ds) in
        let priv := set_memmap (sort_memory_map (d :: ds) nr_descr) priv in
        let '(ret, ctx, priv, freed) := ram_build_chunks ctx priv nr_descr in
        (* FreePool(entries), entries == NULL *)
        let w := FreePool ptr_NULL
                   {| ram := ram w; pool_log := pool_log w ++ freed |} in
        if EFI_ERROR ret then ram_open_err ret w ctx priv
        else
          let ctx := set_ctx_len (u64 (ctx_len ctx + sizeof_sparse_header)) ctx in
          (EFI_SUCCESS, set_ram priv w, ctx).

(** What a read returns: the status, the new state, [*buf] and [*len]. *)
Record read_result : Set := {
  rr_status : EFI_STATUS;
  rr_world : world;
  rr_ctx : reader_ctx;
  rr_buf : buffer;
  rr_len : Z
}.

(** [ram_read]; [len] is [*len] on entry. *)
Definition ram_read (w : world) (ctx : reader_ctx) (len : Z) : read_result :=
  let priv := ram w in
  (* First byte, send the sparse header *)
  if ctx_cur ctx =? 0 then
    if len <? sizeof_sparse_header then
      {| rr_status := EFI_INVALID_PARAMETER; rr_world := w; rr_ctx := ctx;
         rr_buf := buf_none; rr_len := len |}
    else
      let priv := set_cur_end (start priv) (set_cur (start priv) priv) in
      {| rr_status := EFI_SUCCESS; rr_world := set_ram priv w; rr_ctx := ctx;
         rr_buf := buf_sheader; rr_len := sizeof_sparse_header |}
  (* Start new chunk *)
  else if cur priv =? cur_end priv then
    if (cur_chunk priv =? chunk_nb priv) || (len <? sizeof_chunk_header) then
      {| rr_status := EFI_INVALID_PARAMETER; rr_world := w; rr_ctx := ctx;
         rr_buf := buf_none; rr_len := len |}
    else
      let idx := cur_chunk priv in
      let chunk := array_get (chunks priv) idx in
      let priv := set_cur_chunk (u64 (idx + 1)) priv in
      (* chunk->chunk_sz * EFI_PAGE_SIZE: a 32-bit product *)
      let priv := set_cur_end
                    (u64 (cur priv + u32 (chunk_sz chunk * EFI_PAGE_SIZE))) priv in
      let priv := if negb (chunk_type chunk =? CHUNK_TYPE_RAW)
                  then set_cur (cur_end priv) priv else priv in
      {| rr_status := EFI_SUCCESS; rr_world := set_ram priv w; rr_ctx := ctx;
         rr_buf := buf_chunk idx; rr_len := sizeof_chunk_header |}
  (* Continue to send the current memory region *)
  else
    let n := Z.min len (u64 (cur_end priv - cur priv)) in
    let priv' := set_cur (u64 (cur priv + n)) priv in
    {| rr_status := EFI_SUCCESS; rr_world := set_ram priv' w; rr_ctx := ctx;
       rr_buf := buf_phys (cur priv); rr_len := n |}.

(** [ram_close]: it works through [ctx->private].  Where that is not
    the static region (it is null after a [ram_open] that was refused)
    the code frees and writes through a pointer that is not a
    [struct ram_priv], with no defined result: [None]. *)
Definition ram_close (w : world) (ctx : reader_ctx) : option world :=
  match ctx_private ctx with
  | priv_ram =>
      let w := FreePool ptr_ram_chunks w in
      Some (set_ram (set_is_in_used false (ram w)) w)
  | _ => None
  end.

(** ** The partition reader *)

(** What [AllocatePool] hands out, before any field is assigned. *)
Definition fresh_part_priv : part_priv :=
  {| gparti := {| starting_lba := 0; ending_lba := 0; BlockSize := 0 |};
     need_more_data := false; buf_cur := 0; buf_len := 0; offset := 0 |}.

Definition set_buf (bc bl : Z) (more : bool) (p : part_priv) : part_priv :=
  {| gparti := gparti p; need_more_data := more; buf_cur := bc; buf_len := bl;
     offset := offset p |}.

(** [part_open].  The pool allocation is [ctx->private]; it is left
    dangling by the [err:] path, which frees it. *)
Definition part_open (w : world) (ctx : reader_ctx) (argv : list string)
    (fw : firmware) : EFI_STATUS * world * reader_ctx :=
  let argc := Z.of_nat (List.length argv) in
  if (argc <? 1) || (argc >? 3) then (EFI_INVALID_PARAMETER, w, ctx)
  else if negb (AllocatePool_ok fw)
  then (EFI_OUT_OF_RESOURCES, w, set_ctx_private priv_null ctx)
  else
    let err (ret : EFI_STATUS) (w : world) (ctx : reader_ctx) :=
      (error_or_invalid ret, FreePool ptr_part_priv w, ctx) in
    let ctx := set_ctx_private (priv_part fresh_part_priv) ctx in
    if negb (stra_to_str_ok fw) then err EFI_SUCCESS w ctx
    else
      let (ret, g) := gpt_get_partition_by_label fw in
      let w := FreePool ptr_partname w in
      if EFI_ERROR ret then err ret w ctx
      else
        let off := u64 (starting_lba g * BlockSize g) in
        let length := u64 (u64 (ending_lba g + 1 - starting_lba g) * BlockSize g) in
        let ctx := set_ctx_len length (set_ctx_cur 0 ctx) in
        let ctx := if argc >? 1
                   then set_ctx_cur (u64 (fst (strtoul16 (nth 1 argv EmptyString)))) ctx
                   else ctx in
        if (argc >? 1) && (ctx_cur ctx >=? length) then err ret w ctx
        else
          let ctx := if argc =? 3
                     then set_ctx_len (u64 (fst (strtoul16 (nth 2 argv EmptyString)))) ctx
                     else ctx in
          if (argc =? 3) &&
             ((ctx_len ctx =? 0) || (ctx_len ctx >? length) ||
              (ctx_cur ctx >=? u64 (length - ctx_len ctx)))
          then err ret w ctx
          else
            let priv := {| gparti := g; need_more_data := true; buf_cur := 0;
                           buf_len := 0; offset := off |} in
            (EFI_SUCCESS, w, set_ctx_private (priv_part priv) ctx).

(** [part_read]; called on a context of the partition reader. *)
Definition part_read (w : world) (ctx : reader_ctx) (len : Z) (fw : firmware)
  : read_result :=
  match ctx_private ctx with
  | priv_part priv =>
      let refill := need_more_data priv in
      let new_len := Z.min PART_READER_BUF_SIZE (u64 (ctx_len ctx - ctx_cur ctx)) in
      if refill && EFI_ERROR (ReadDisk fw) then
        {| rr_status := ReadDisk fw; rr_world := w;
           rr_ctx := set_ctx_private
                       (priv_part (set_buf (buf_cur priv) new_len true priv)) ctx;
           rr_buf := buf_none; rr_len := len |}
      else
        let priv := if refill then set_buf 0 new_len false priv else priv in
        let n := Z.min len (u64 (buf_len priv - buf_cur priv)) in
        let b := buf_part (buf_cur priv) in
        let bc := u64 (buf_cur priv + n) in
        let priv := set_buf bc (buf_len priv)
                      (if bc =? buf_len priv then true else need_more_data priv) priv in
        {| rr_status := EFI_SUCCESS; rr_world := w;
           rr_ctx := set_ctx_private (priv_part priv) ctx;
           rr_buf := b; rr_len := n |}
  | _ =>
      {| rr_status := EFI_INVALID_PARAMETER; rr_world := w; rr_ctx := ctx;
         rr_buf := buf_none; rr_len := len |}
  end.

(** ** The ACPI table and EFI variable readers *)

(** [acpi_open]; [table->length] is a 32-bit field. *)
Definition acpi_open (w : world) (ctx : reader_ctx) (argv : list string)
    (fw : firmware) : EFI_STATUS * world * reader_ctx :=
  let argc := Z.of_nat (List.length argv) in
  if negb (argc =? 1) then (EFI_INVALID_PARAMETER, w, ctx)
  else
    let (ret, table_length) := get_acpi_table fw in
    if EFI_ERROR ret then (ret, w, ctx)
    else (EFI_SUCCESS, w,
          set_ctx_len (u32 table_length) (set_ctx_cur 0 (set_ctx_private priv_table ctx))).

(** The variable services of a firmware, whose enumeration ends: after
    the answers of [vs], [GetNextVariableName] returns [EFI_NOT_FOUND]. *)
Definition ending (vs : EfiVar.var_services) : EfiVar.var_services :=
  {| EfiVar.AllocateZeroPool_ok := EfiVar.AllocateZeroPool_ok vs;
     EfiVar.ReallocatePool_ok := EfiVar.ReallocatePool_ok vs;
     EfiVar.GetNextVariableName :=
       EfiVar.GetNextVariableName vs ++ [EfiVar.answer EFI_NOT_FOUND] |}.

(** The call [efivar_find(varname, &guid)] of [efivar_open]: its status,
    and the world after its [FreePool(name)], if that ran.  The search
    returns, the enumeration being one that ends; the last case does not
    occur. *)
Definition efivar_find_call (w : world) (varname : string) (fw : firmware)
  : EFI_STATUS * world :=
  match EfiVar.efivar_find (ending (variable_services fw)) varname with
  | Some (ret, _, freed) => (ret, if freed then FreePool ptr_name w else w)
  | None => (EFI_NOT_FOUND, w)
  end.

(** [efivar_open]; [varname] is the converted [argv[0]]. *)
Definition efivar_open (w : world) (ctx : reader_ctx) (argv : list string)
    (fw : firmware) : EFI_STATUS * world * reader_ctx :=
  let argc := Z.of_nat (List.length argv) in
  if negb (argc =? 1) && negb (argc =? 2) then (EFI_INVALID_PARAMETER, w, ctx)
  else if (argc =? 2) && EFI_ERROR (stra_to_guid fw) then (stra_to_guid fw, w, ctx)
  else if negb (stra_to_str_ok fw) then (EFI_OUT_OF_RESOURCES, w, ctx)
  else
    let varname := nth 0 argv EmptyString in
    let (ret, w) := if argc =? 1 then efivar_find_call w varname fw
                    else (EFI_SUCCESS, w) in
    if EFI_ERROR ret then (ret, FreePool ptr_varname w, ctx)
    else
      let (ret, size) := get_efi_variable fw in
      if EFI_ERROR ret then (ret, FreePool ptr_varname w, ctx)
      else (ret, FreePool ptr_varname w,
            set_ctx_len (u64 size) (set_ctx_cur 0 (set_ctx_private priv_var ctx))).

(** ** Interface *)

(** [read_from_private] *)
Definition read_from_private (w : world) (ctx : reader_ctx) (len : Z) : read_result :=
  {| rr_status := EFI_SUCCESS; rr_world := w; rr_ctx := ctx;
     rr_buf := buf_private (ctx_cur ctx); rr_len := len |}.

(** [free_private] *)
Definition free_private (w : world) (ctx : reader_ctx) : world :=
  FreePool ptr_private w.

(** The [READERS] table: name, then [open], [read] and [close] below. *)
Definition READERS : list (string * reader_id) :=
  [("ram"%string, READER_ram); ("acpi"%string, READER_acpi);
   ("part"%string, READER_part); ("efivar"%string, READER_efivar)].

Definition reader_open_fn (r : reader_id)
  : world -> reader_ctx -> list string -> firmware -> EFI_STATUS * world * reader_ctx :=
  match r with
  | READER_ram => ram_open
  | READER_acpi => acpi_open
  | READER_part => part_open
  | READER_efivar => efivar_open
  end.

Definition reader_read_fn (r : reader_id) (w : world) (ctx : reader_ctx) (len : Z)
    (fw : firmware) : read_result :=
  match r with
  | READER_ram => ram_read w ctx len
  | READER_acpi | READER_efivar => read_from_private w ctx len
  | READER_part => part_read w ctx len fw
  end.

Definition reader_close_fn (r : reader_id)
  : option (world -> reader_ctx -> option world) :=
  match r with
  | READER_ram => Some ram_close
  | READER_acpi => None
  | READER_part | READER_efivar => Some (fun w ctx => Some (free_private w ctx))
  end.

(** The tokens [strtok_r] cuts [args] into at the delimiter [":"]: the
    maximal runs of other characters. *)
Fixpoint strtok_tokens (pending : string) (args : string) : list string :=
  let flush (l : list string) :=
    match pending with EmptyString => l | _ => pending :: l end in
  match args with
  | EmptyString => flush []
  | String c rest =>
      if Ascii.eqb c ":"%char then flush (strtok_tokens EmptyString rest)
      else strtok_tokens (pending ++ String c EmptyString) rest
  end.

(** [reader_open]: [argv[0]] is the reader's name; at most [MAX_ARGS - 1]
    tokens may follow it.  ([args] and [ctx] are not null here.) *)
Definition reader_open (w : world) (ctx : reader_ctx) (args : string)
    (fw : firmware) : EFI_STATUS * world * reader_ctx :=
  match strtok_tokens EmptyString args with
  | [] => (EFI_INVALID_PARAMETER, w, ctx)
  | name :: argv =>
      if Z.of_nat (List.length argv) >? 7 then (EFI_INVALID_PARAMETER, w, ctx)
      else
        match find (fun e => String.eqb name (fst e)) READERS with
        | None => (EFI_UNSUPPORTED, w, ctx)
        | Some (_, r) => reader_open_fn r w (set_ctx_reader (Some r) ctx) argv fw
        end
  end.

End Reader.

(** [reader_read]; [len] is [*len] on entry ([ctx], [len] and [buf] are
    not null here).  [rr_buf] is [buf_none] while [*buf] was not written. *)
Definition reader_read (w : world) (ctx : reader_ctx) (len : Z) (fw : firmware)
  : read_result :=
  match ctx_reader ctx with
  | None =>
      {| rr_status := EFI_INVALID_PARAMETER; rr_world := w; rr_ctx := ctx;
         rr_buf := buf_none; rr_len := len |}
  | Some r =>
      if len =? 0 then
        {| rr_status := EFI_INVALID_PARAMETER; rr_world := w; rr_ctx := ctx;
           rr_buf := buf_none; rr_len := len |}
      else
        let len := Z.min len (u64 (ctx_len ctx - ctx_cur ctx)) in
        if len =? 0 then
          {| rr_status := EFI_SUCCESS; rr_world := w; rr_ctx := ctx;
             rr_buf := buf_none; rr_len := 0 |}
        else
          let res := reader_read_fn r w ctx len fw in
          if EFI_ERROR (rr_status res) then res
          else
            {| rr_status := EFI_SUCCESS; rr_world := rr_world res;
               rr_ctx := set_ctx_cur (u64 (ctx_cur (rr_ctx res) + rr_len res)) (rr_ctx res);
               rr_buf := rr_buf res; rr_len := rr_len res |}
  end.

(** [reader_close]; [None] where the [close] of the reader is. *)
Definition reader_close (w : world) (ctx : reader_ctx) : option world :=
  match ctx_reader ctx with
  | None => Some w
  | Some r =>
      match reader_close_fn r with
      | Some close => close w ctx
      | None => Some w
      end
  end.

(** ** Sample inputs *)

Definition conventional (pstart pages : Z) : EFI_MEMORY_DESCRIPTOR :=
  {| Type_ := EfiConventionalMemory; PhysicalStart := pstart; NumberOfPages := pages |}.

Definition world0 : world := {| ram := zero_ram_priv; pool_log := [] |}.
Definition ctx0 : reader_ctx :=
  {| ctx_reader := None; ctx_cur := 0; ctx_len := 0; ctx_private := priv_null |}.

Definition gpt0 : gpt_partition_interface :=
  {| starting_lba := 0; ending_lba := 0; BlockSize := 512 |}.

(** A firmware whose memory map is [d :: ds]. *)
Definition firmware_with_map (d : EFI_MEMORY_DESCRIPTOR)
    (ds : list EFI_MEMORY_DESCRIPTOR) : firmware :=
  {| GetMemoryMap := (EFI_SUCCESS, (d, ds)); AllocatePool_ok := true;
     stra_to_str_ok := true;
     gpt_get_partition_by_label := (EFI_NOT_FOUND, gpt0);
     ReadDisk := EFI_SUCCESS; get_acpi_table := (EFI_NOT_FOUND, 0);
     stra_to_guid := EFI_SUCCESS; variable_services := EfiVar.services [];
     get_efi_variable := (EFI_NOT_FOUND, 0) |}.

(** The chunks planned so far, and their totals. *)
Definition planned (priv : ram_priv) : list chunk_header :=
  firstn (Z.to_nat (chunk_nb priv)) (chunks priv).
Definition sum_Z (l : list Z) : Z := fold_right Z.add 0 l.

(** Bytes of physical range the plan stands for, and the bytes its chunk
    headers announce. *)
Definition planned_bytes (priv : ram_priv) : Z :=
  sum_Z (map (fun c => chunk_sz c * EFI_PAGE_SIZE) (planned priv)).
Definition planned_total_sz (priv : ram_priv) : Z :=
  sum_Z (map total_sz (planned priv)).
Definition planned_blocks (priv : ram_priv) : Z :=
  sum_Z (map chunk_sz (planned priv)).

(** Type and block count of each planned chunk. *)
Definition plan_shape (priv : ram_priv) : list (Z * Z) :=
  map (fun c => (chunk_type c, chunk_sz c)) (planned priv).

(** A firmware that resolves the partition label to [g]. *)
Definition firmware_with_partition (g : gpt_partition_interface) : firmware :=
  {| GetMemoryMap := (EFI_SUCCESS, (conventional 0 1, [])); AllocatePool_ok := true;
     stra_to_str_ok := true;
     gpt_get_partition_by_label := (EFI_SUCCESS, g);
     ReadDisk := EFI_SUCCESS; get_acpi_table := (EFI_NOT_FOUND, 0);
     stra_to_guid := EFI_SUCCESS; variable_services := EfiVar.services [];
     get_efi_variable := (EFI_NOT_FOUND, 0) |}.

(** ** Streams over time *)

(** A context is opened once [reader_open] succeeded on it; it stays so
    through its reads, each asking for a [UINTN] number of bytes. *)
Inductive opened (strtoul16 : string -> Z * string) : world -> reader_ctx -> Prop :=
| opened_by_open w ctx args fw w' ctx' :
    reader_open strtoul16 w ctx args fw = (EFI_SUCCESS, w', ctx') ->
    opened strtoul16 w' ctx'
| opened_after_read w ctx len fw :
    opened strtoul16 w ctx ->
    is_u64 len ->
    opened strtoul16 (rr_world (reader_read w ctx len fw))
                     (rr_ctx (reader_read w ctx len fw)).

(** Calls on the RAM reader by a client that keeps the contexts of the
    RAM streams it has open.  A [ram_open] that succeeds opens a stream:
    its context is kept.  The client closes streams it has open:
    [call_close i] is [ram_close] on the kept context of the [i]-th of
    them, which is then dropped (with no such stream nothing is called).
    A step has no result where [ram_close] has none. *)
Inductive ram_call : Set :=
| call_open (ctx : reader_ctx) (argv : list string) (fw : firmware)
| call_close (i : nat).

Fixpoint drop_nth {A : Type} (i : nat) (l : list A) : list A :=
  match l, i with
  | [], _ => []
  | _ :: t, O => t
  | h :: t, S j => h :: drop_nth j t
  end.

Definition ram_step (strtoul16 : string -> Z * string)
    (s : world * list reader_ctx) (c : ram_call) : option (world * list reader_ctx) :=
  match c with
  | call_open ctx argv fw =>
      let '(ret, w, ctx) := ram_open strtoul16 (fst s) ctx argv fw in
      Some (w, if EFI_ERROR ret then snd s else ctx :: snd s)
  | call_close i =>
      match nth_error (snd s) i with
      | None => Some s
      | Some ctx =>
          match ram_close (fst s) ctx with
          | Some w => Some (w, drop_nth i (snd s))
          | None => None
          end
      end
  end.

Fixpoint ram_run (strtoul16 : string -> Z * string) (calls : list ram_call)
    (s : world * list reader_ctx) : option (world * list reader_ctx) :=
  match calls with
  | [] => Some s
  | c :: rest =>
      match ram_step strtoul16 s c with
      | Some s' => ram_run strtoul16 rest s'
      | None => None
      end
  end.

(** The consumer's loop, [fuel] reads of at most [len] bytes: what each
    read returned (status, [*buf], [*len]). *)
Fixpoint reads (fuel : nat) (w : world) (ctx : reader_ctx) (len : Z)
    (fw : firmware) : list (EFI_STATUS * buffer * Z) :=
  match fuel with
  | O => []
  | S k =>
      let r := reader_read w ctx len fw in
      (rr_status r, rr_buf r, rr_len r) :: reads k (rr_world r) (rr_ctx r) len fw
  end.

(** ** Predicates of the proofs *)

(** The fields that [ram_add_chunk] and the walk never write, and the
    context fields they keep. *)
Definition frame (ctx : reader_ctx) (priv : ram_priv)
    (ctx' : reader_ctx) (priv' : ram_priv) : Prop :=
  is_in_used priv' = is_in_used priv /\ start priv' = start priv /\
  end_ priv' = end_ priv /\ cur priv' = cur priv /\
  cur_end priv' = cur_end priv /\ cur_chunk priv' = cur_chunk priv /\
  memmap priv' = memmap priv /\
  ctx_reader ctx' = ctx_reader ctx /\ ctx_private ctx' = ctx_private ctx /\
  ctx_cur ctx' = ctx_cur ctx /\ (is_u64 (ctx_len ctx) -> is_u64 (ctx_len ctx')).

(** At most [k] chunks were added, while [k] more fit. *)
Definition grows (k : Z) (priv priv' : ram_priv) : Prop :=
  0 <= chunk_nb priv -> chunk_nb priv + k <= MAX_MEMORY_REGION_NB ->
  chunk_nb priv <= chunk_nb priv' <= chunk_nb priv + k.

(** The statuses plan building ends a walk with. *)
Definition walk_status (ret : EFI_STATUS) : Prop :=
  ret = EFI_SUCCESS \/ ret = EFI_INVALID_PARAMETER \/ ret = EFI_OUT_OF_RESOURCES.

(** The order [sort_memory_map] sorts by. *)
Definition le_start (a b : EFI_MEMORY_DESCRIPTOR) : Prop :=
  PhysicalStart a <= PhysicalStart b.

(** [prev_end] after the walk went through all of [l]. *)
Definition prev_end_after (l : list EFI_MEMORY_DESCRIPTOR) (prev_end : Z) : Z :=
  fold_left (fun _ entry => entry_end entry) l prev_end.

(** The window's end stops the walk at [entry]. *)
Definition stops_at (end_addr : Z) (entry : EFI_MEMORY_DESCRIPTOR) : Prop :=
  end_addr < PhysicalStart entry \/ end_addr <= entry_end entry.

(** The number of open RAM streams follows the flag: at most one is
    open, the flag is set exactly while one is, and the context of an
    open stream is on the static region. *)
Definition flag_counts (s : world * list reader_ctx) : Prop :=
  (List.length (snd s) <= 1)%nat /\
  (is_in_used (ram (fst s)) = true <-> List.length (snd s) = 1%nat) /\
  Forall (fun ctx => ctx_private ctx = priv_ram) (snd s).

(** What every opened context satisfies: a reader is attached, the
    cursors are 64-bit values, and a partition buffer that needs no
    refill is not drained. *)
Definition stream_ok (w : world) (ctx : reader_ctx) : Prop :=
  ctx_reader ctx <> None /\ is_u64 (ctx_cur ctx) /\ is_u64 (ctx_len ctx) /\
  (ctx_reader ctx = Some READER_ram ->
     is_u64 (start (ram w)) /\ is_u64 (cur (ram w)) /\ is_u64 (cur_end (ram w))) /\
  (ctx_reader ctx = Some READER_part ->
     exists p, ctx_private ctx = priv_part p /\ is_u64 (buf_cur p) /\
               is_u64 (buf_len p) /\
               (need_more_data p = false -> buf_cur p <> buf_len p)).

(** ** Predicates of the plan *)

(** The unsigned 32-bit values. *)
Definition is_u32 (x : Z) : Prop := 0 <= x < 2 ^ 32.

(** A chunk header as the sparse format wants it: nothing in the
    reserved field, a 32-bit block count, and a total size that is the
    header alone for DONT_CARE and the header with the payload of
    [chunk_sz] blocks, in 32 bits, for RAW. *)
Definition chunk_wire_ok (c : chunk_header) : Prop :=
  reserved1 c = 0 /\ is_u32 (chunk_sz c) /\
  ((chunk_type c = CHUNK_TYPE_DONT_CARE /\ total_sz c = sizeof_chunk_header) \/
   (chunk_type c = CHUNK_TYPE_RAW /\
    total_sz c = u32 (sizeof_chunk_header + chunk_sz c * EFI_PAGE_SIZE))).

(** The sparse header's fixed fields as [ram_open] writes them. *)
Definition sheader_fixed (h : sparse_header) : Prop :=
  magic h = SPARSE_HEADER_MAGIC /\ major_version h = 1 /\ minor_version h = 0 /\
  file_hdr_sz h = sizeof_sparse_header /\ chunk_hdr_sz h = sizeof_chunk_header /\
  blk_sz h = EFI_PAGE_SIZE /\ image_checksum h = 0.

(** What plan building keeps true of the plan, the header counters and
    the length of the stream so far. *)
Definition plan_ok (ctx : reader_ctx) (priv : ram_priv) : Prop :=
  List.length (chunks priv) = Z.to_nat MAX_MEMORY_REGION_NB /\
  0 <= chunk_nb priv <= MAX_MEMORY_REGION_NB /\
  Forall (fun c => reserved1 c = 0) (chunks priv) /\
  sheader_fixed (sheader priv) /\
  total_chunks (sheader priv) = chunk_nb priv /\
  total_blks (sheader priv) = u32 (planned_blocks priv) /\
  u32 (ctx_len ctx) = u32 (planned_total_sz priv) /\
  (chunk_nb priv = 0 -> ctx_len ctx = 0) /\
  Forall chunk_wire_ok (planned priv).

(** ** Predicates of the whole-map dump *)

(** A descriptor as a firmware with less than 16 TiB of address space
    reports it: a page-aligned start and a range that ends below 2^44. *)
Definition region_ok (e : EFI_MEMORY_DESCRIPTOR) : Prop :=
  0 <= PhysicalStart e /\ PhysicalStart e mod EFI_PAGE_SIZE = 0 /\
  0 <= NumberOfPages e /\
  PhysicalStart e + NumberOfPages e * EFI_PAGE_SIZE < 2 ^ 44.

(** [b] starts where [a] ends, or later. *)
Definition no_overlap (a b : EFI_MEMORY_DESCRIPTOR) : Prop :=
  entry_end a <= PhysicalStart b.

(** The blocks of the planned RAW chunks, and the pages of conventional
    memory in a map. *)
Definition planned_raw_blocks (priv : ram_priv) : Z :=
  sum_Z (map chunk_sz
           (filter (fun c => chunk_type c =? CHUNK_TYPE_RAW) (planned priv))).
Definition conventional_pages (l : list EFI_MEMORY_DESCRIPTOR) : Z :=
  sum_Z (map NumberOfPages
           (filter (fun e => Type_ e =? EfiConventionalMemory) l)).

(** What the walk keeps true while it dumps the whole map (no [start],
    no [end]) and has arrived at [prev_end]: the plan stands for the
    bytes up to [prev_end], and the stream length is that of the chunk
    headers and of the RAW payloads. *)
Definition whole_map_inv (prev_end : Z) (ctx : reader_ctx) (priv : ram_priv) : Prop :=
  start priv = 0 /\ end_ priv = 0 /\
  List.length (chunks priv) = Z.to_nat MAX_MEMORY_REGION_NB /\
  0 <= chunk_nb priv /\
  0 <= prev_end < 2 ^ 44 /\ prev_end mod EFI_PAGE_SIZE = 0 /\
  planned_bytes priv = prev_end /\
  0 <= planned_raw_blocks priv /\
  EFI_PAGE_SIZE * planned_raw_blocks priv <= prev_end /\
  ctx_len ctx = sizeof_chunk_header * chunk_nb priv
                + EFI_PAGE_SIZE * planned_raw_blocks priv /\
  (0 < prev_end -> 1 <= chunk_nb priv).

(** ** The pool and [part_open] *)

(** [part_open] got as far as its allocation, and as far as the
    converted partition name. *)
Definition part_allocated (argv : list string) (fw : firmware) : bool :=
  negb ((Z.of_nat (List.length argv) <? 1) || (Z.of_nat (List.length argv) >? 3))
  && AllocatePool_ok fw.
Definition part_named (argv : list string) (fw : firmware) : bool :=
  part_allocated argv fw && stra_to_str_ok fw.

(** The plan of the whole map as it should be, descriptor after
    descriptor in ascending order from [prev_end] on: a DONT_CARE chunk
    for the hole before the descriptor, if there is one, then the chunk
    of its pages, RAW for conventional memory; an empty descriptor at
    address 0 gives nothing.  A chunk is its type and its number of
    blocks, as in [plan_shape]. *)
Fixpoint whole_map_plan (l : list EFI_MEMORY_DESCRIPTOR) (prev_end : Z)
  : list (Z * Z) :=
  match l with
  | [] => []
  | e :: rest =>
      (if PhysicalStart e + NumberOfPages e * EFI_PAGE_SIZE <=? 0 then []
       else (if prev_end <? PhysicalStart e
             then [(CHUNK_TYPE_DONT_CARE, (PhysicalStart e - prev_end) / EFI_PAGE_SIZE)]
             else [])
            ++ [(if Type_ e =? EfiConventionalMemory
                 then CHUNK_TYPE_RAW else CHUNK_TYPE_DONT_CARE, NumberOfPages e)])
      ++ whole_map_plan rest (PhysicalStart e + NumberOfPages e * EFI_PAGE_SIZE)
  end.

(** ** Predicates of the RAM stream *)

(** The bytes a chunk takes in the stream, its header and for a RAW
    chunk its blocks, and the address range it stands for. *)
Definition chunk_bytes (c : chunk_header) : Z :=
  sizeof_chunk_header
  + (if chunk_type c =? CHUNK_TYPE_RAW then chunk_sz c * EFI_PAGE_SIZE else 0).
Definition stream_bytes (l : list chunk_header) : Z := sum_Z (map chunk_bytes l).
Definition block_bytes (l : list chunk_header) : Z :=
  sum_Z (map (fun c => chunk_sz c * EFI_PAGE_SIZE) l).

(** The bytes of the current chunk that are still to be sent, and the
    chunks whose header was sent. *)
Definition ram_left (priv : ram_priv) : Z := u64 (cur_end priv - cur priv).
Definition sent_chunks (priv : ram_priv) : list chunk_header :=
  firstn (Z.to_nat (cur_chunk priv)) (planned priv).

(** A RAM stream in good order: every planned chunk is smaller than
    4 GiB (less than 2^20 blocks); the length of the stream is that of the
    file header and of the planned chunks; nothing was read yet, or the
    cursor stands after the chunks whose header was sent, less what is
    left of the current one, and the current chunk ends at [start] plus
    the blocks of those chunks. *)
Definition ram_stream (w : world) (ctx : reader_ctx) : Prop :=
  ctx_reader ctx = Some READER_ram /\
  0 <= cur_chunk (ram w) <= chunk_nb (ram w) /\
  chunk_nb (ram w) <= MAX_MEMORY_REGION_NB /\
  chunk_nb (ram w) <= Z.of_nat (List.length (chunks (ram w))) /\
  Forall (fun c => 0 <= chunk_sz c < 2 ^ 20) (planned (ram w)) /\
  ctx_len ctx = sizeof_sparse_header + stream_bytes (planned (ram w)) /\
  ctx_len ctx < 2 ^ 64 /\
  is_u64 (start (ram w)) /\
  ((ctx_cur ctx = 0 /\ cur_chunk (ram w) = 0) \/
   (is_u64 (cur (ram w)) /\ is_u64 (cur_end (ram w)) /\
    sizeof_sparse_header <= ctx_cur ctx /\
    ctx_cur ctx = sizeof_sparse_header + stream_bytes (sent_chunks (ram w))
                  - ram_left (ram w) /\
    cur_end (ram w) = u64 (start (ram w) + block_bytes (sent_chunks (ram w))) /\
    (ram_left (ram w) <> 0 ->
     1 <= cur_chunk (ram w) /\
     chunk_type (array_get (chunks (ram w)) (cur_chunk (ram w) - 1)) = CHUNK_TYPE_RAW /\
     ram_left (ram w)
     <= chunk_sz (array_get (chunks (ram w)) (cur_chunk (ram w) - 1)) * EFI_PAGE_SIZE))).

(** ** Streams that are a buffer in memory *)

(** The reads of the ACPI table and EFI variable streams as they should
    be, [fuel] of them with room for [len] bytes, from offset [cur] of a
    buffer of [total] bytes: consecutive slices of the buffer, then
    nothing. *)
Fixpoint slices (fuel : nat) (cur total len : Z) : list (EFI_STATUS * buffer * Z) :=
  match fuel with
  | O => []
  | S k =>
      if cur =? total then (EFI_SUCCESS, buf_none, 0) :: slices k cur total len
      else (EFI_SUCCESS, buf_private cur, Z.min len (total - cur))
           :: slices k (cur + Z.min len (total - cur)) total len
  end.

(** [efivar_open] got as far as the converted variable name. *)
Definition efivar_named (argv : list string) (fw : firmware) : bool :=
  negb (negb (Z.of_nat (List.length argv) =? 1)
        && negb (Z.of_nat (List.length argv) =? 2))
  && negb ((Z.of_nat (List.length argv) =? 2) && EFI_ERROR (stra_to_guid fw))
  && stra_to_str_ok fw.

(** ** Concrete streams *)

(** A machine with one page of conventional memory at 0, and the RAM
    stream [ram] opened on it and read to its end by reads of 8192 bytes:
    the header, the chunk header, the page. *)
Definition fw_one_page : firmware := firmware_with_map (conventional 0 1) [].
Definition w_open : world :=
  snd (fst (reader_open hex_strtoul world0 ctx0 "ram"%string fw_one_page)).
Definition ctx_open : reader_ctx :=
  snd (reader_open hex_strtoul world0 ctx0 "ram"%string fw_one_page).
Definition w_read1 : world := rr_world (reader_read w_open ctx_open 8192 fw_one_page).
Definition ctx_read1 : reader_ctx := rr_ctx (reader_read w_open ctx_open 8192 fw_one_page).
Definition w_read2 : world := rr_world (reader_read w_read1 ctx_read1 8192 fw_one_page).
Definition ctx_read2 : reader_ctx := rr_ctx (reader_read w_read1 ctx_read1 8192 fw_one_page).
Definition w_read3 : world := rr_world (reader_read w_read2 ctx_read2 8192 fw_one_page).
Definition ctx_read3 : reader_ctx := rr_ctx (reader_read w_read2 ctx_read2 8192 fw_one_page).

(** A RAM stream is open: the world after [ram_open] succeeded. *)
Definition w_ram_open : world :=
  snd (fst (ram_open hex_strtoul world0 ctx0 [] fw_one_page)).

(** A machine with two regions of four pages, at 0 and at 0x8000, and
    the RAM stream opened on all of it. *)
Definition fw_two_regions : firmware :=
  firmware_with_map (conventional 0 4) [conventional 0x8000 4].
Definition w_two_regions : world :=
  snd (fst (ram_open hex_strtoul world0 ctx0 [] fw_two_regions)).
Definition ctx_two_regions : reader_ctx :=
  snd (ram_open hex_strtoul world0 ctx0 [] fw_two_regions).

(** A partition of 8 blocks of 512 bytes, the stream [part:boot] opened
    on it, and a firmware whose disk reads fail. *)
Definition gpt8 : gpt_partition_interface :=
  {| starting_lba := 8; ending_lba := 15; BlockSize := 512 |}.
Definition w_part : world :=
  snd (fst (reader_open hex_strtoul world0 ctx0 "part:boot"%string
              (firmware_with_partition gpt8))).
Definition ctx_part : reader_ctx :=
  snd (reader_open hex_strtoul world0 ctx0 "part:boot"%string
         (firmware_with_partition gpt8)).
Definition fw_disk_error : firmware :=
  {| GetMemoryMap := (EFI_SUCCESS, (conventional 0 1, [])); AllocatePool_ok := true;
     stra_to_str_ok := true;
     gpt_get_partition_by_label := (EFI_SUCCESS, gpt8);
     ReadDisk := EFI_DEVICE_ERROR; get_acpi_table := (EFI_NOT_FOUND, 0);
     stra_to_guid := EFI_SUCCESS; variable_services := EfiVar.services [];
     get_efi_variable := (EFI_NOT_FOUND, 0) |}.

(** The stream [ram] opened on the two regions through [reader_open]. *)
Definition w_ram_stream : world :=
  snd (fst (reader_open hex_strtoul world0 ctx0 "ram"%string fw_two_regions)).
Definition ctx_ram_stream : reader_ctx :=
  snd (reader_open hex_strtoul world0 ctx0 "ram"%string fw_two_regions).

(** An ACPI table of 100 bytes and the stream [acpi:DSDT] opened on it. *)
Definition fw_acpi : firmware :=
  {| GetMemoryMap := (EFI_SUCCESS, (conventional 0 1, [])); AllocatePool_ok := true;
     stra_to_str_ok := true;
     gpt_get_partition_by_label := (EFI_NOT_FOUND, gpt0);
     ReadDisk := EFI_SUCCESS; get_acpi_table := (EFI_SUCCESS, 100);
     stra_to_guid := EFI_SUCCESS; variable_services := EfiVar.services [];
     get_efi_variable := (EFI_NOT_FOUND, 0) |}.
Definition ctx_acpi : reader_ctx :=
  snd (reader_open hex_strtoul world0 ctx0 "acpi:DSDT"%string fw_acpi).

(** A firmware with the variable store [EfiVar.store], whose variables
    hold 5 bytes. *)
Definition fw_vars : firmware :=
  {| GetMemoryMap := (EFI_SUCCESS, (conventional 0 1, [])); AllocatePool_ok := true;
     stra_to_str_ok := true;
     gpt_get_partition_by_label := (EFI_NOT_FOUND, gpt0);
     ReadDisk := EFI_SUCCESS; get_acpi_table := (EFI_NOT_FOUND, 0);
     stra_to_guid := EFI_SUCCESS; variable_services := EfiVar.services EfiVar.store;
     get_efi_variable := (EFI_SUCCESS, 5) |}.

(** The world after the stream of the two regions was closed. *)
Definition w_ram_closed : world :=
  match reader_close w_ram_stream ctx_ram_stream with
  | Some w => w
  | None => w_ram_stream
  end.

(** ** Runs of [ram_open] on small maps *)

Local Open Scope string_scope.

(** C1 (the code breaks the claim): with the map
    {0x0, 4 pages}, {0x8000, 4 pages} and the window starting at 0x8000
    ([ram:8000]), [ram_open] succeeds and plans the hole [0x4000, 0x8000)
    that lies before the window as a DONT_CARE chunk of 4 blocks, ahead of
    the RAW chunk of 4 blocks: the plan stands for 0x8000 bytes while
    [end - start] is 0x4000.  Read back, the stream takes the payload of
    the RAW chunk from address 0xC000, past the descriptor. *)
Lemma ram_open_plans_hole_before_window :
  let fw := firmware_with_map (conventional 0 4) [conventional 0x8000 4] in
  let r := ram_open hex_strtoul world0 ctx0 ["8000"] fw in
  let priv := ram (snd (fst r)) in
  let o := reader_open hex_strtoul world0 ctx0 "ram:8000" fw in
  fst (fst r) = EFI_SUCCESS /\
  start priv = 0x8000 /\ end_ priv = 0xC000 /\
  plan_shape priv = [(CHUNK_TYPE_DONT_CARE, 4); (CHUNK_TYPE_RAW, 4)] /\
  planned_bytes priv = 0x8000 /\
  end_ priv - start priv = 0x4000 /\
  reads 5 (snd (fst o)) (snd o) 0x10000 fw =
    [(EFI_SUCCESS, buf_sheader, 28); (EFI_SUCCESS, buf_chunk 0, 12);
     (EFI_SUCCESS, buf_chunk 1, 12); (EFI_SUCCESS, buf_phys 0xC000, 0x4000);
     (EFI_SUCCESS, buf_none, 0)].
Proof. vm_compute. repeat split; reflexivity. Qed.

(** C2 (the code breaks the claim): with one conventional descriptor of
    4 GiB (0x100000 pages) at 0x100000000 and no argument, [ram_open]
    succeeds with a DONT_CARE chunk for the hole below it and a RAW chunk
    whose 32-bit [total_sz] wrapped to 12, while [ctx.len] counts the
    whole payload: [ctx.len] is 2^32 + 52 and
    [sizeof(header) + sum total_sz] is 52.  The chunk and block counts of
    the header agree with the plan. *)
Lemma ram_open_total_sz_wraps :
  let fw := firmware_with_map (conventional 0x100000000 0x100000) [] in
  let r := ram_open hex_strtoul world0 ctx0 [] fw in
  let priv := ram (snd (fst r)) in
  fst (fst r) = EFI_SUCCESS /\
  plan_shape priv = [(CHUNK_TYPE_DONT_CARE, 0x100000); (CHUNK_TYPE_RAW, 0x100000)] /\
  map total_sz (planned priv) = [12; 12] /\
  ctx_len (snd r) = 2 ^ 32 + 52 /\
  sizeof_sparse_header + planned_total_sz priv = 52 /\
  total_chunks (sheader priv) = Z.of_nat (List.length (planned priv)) /\
  total_blks (sheader priv) = planned_blocks priv.
Proof. vm_compute. repeat split; reflexivity. Qed.

(** C5 (the code breaks the claim): with the map {0x0, 2 pages},
    {0x3000, 1 page} and the window [0, 0x3000) ([ram:0:3000]), whose end
    is the start of the descriptor after the hole, [ram_open] succeeds
    and its last chunk has no block: RAW 2, DONT_CARE 1, RAW 0. *)
Lemma ram_open_plans_empty_chunk :
  let fw := firmware_with_map (conventional 0 2) [conventional 0x3000 1] in
  let r := ram_open hex_strtoul world0 ctx0 ["0"; "3000"] fw in
  let priv := ram (snd (fst r)) in
  fst (fst r) = EFI_SUCCESS /\
  start priv = 0 /\ end_ priv = 0x3000 /\
  plan_shape priv =
    [(CHUNK_TYPE_RAW, 2); (CHUNK_TYPE_DONT_CARE, 1); (CHUNK_TYPE_RAW, 0)].
Proof. vm_compute. repeat split; reflexivity. Qed.

(** C8 (the code breaks the claim): on a partition of 0x1000 bytes
    (8 blocks of 512), offset 0x800 with length 0x800 satisfies
    [offset < total], [length > 0] and [offset + length <= total], and
    [part_open] rejects it; so it does offset 0 with the whole length. *)
Lemma part_open_rejects_exact_tail :
  let g := {| starting_lba := 8; ending_lba := 15; BlockSize := 512 |} in
  let fw := firmware_with_partition g in
  0x800 < 0x1000 /\ 0 < 0x800 /\ 0x800 + 0x800 <= 0x1000 /\
  fst (fst (part_open hex_strtoul world0 ctx0 ["boot"; "800"; "800"] fw))
    = EFI_INVALID_PARAMETER /\
  fst (fst (part_open hex_strtoul world0 ctx0 ["boot"; "0"; "1000"] fw))
    = EFI_INVALID_PARAMETER /\
  fst (fst (part_open hex_strtoul world0 ctx0 ["boot"; "800"; "7ff"] fw))
    = EFI_SUCCESS.
Proof. vm_compute. repeat split; (reflexivity || discriminate). Qed.

(** C9 (the code breaks the claim): [ram_close], on the context of a RAM
    stream, hands the chunk array of the static region to [FreePool],
    whatever the state, and so does the error path of
    [ram_build_chunks], here on the overlapping map
    {0x0, 4 pages}, {0x2000, 4 pages}. *)
Lemma ram_reader_frees_chunk_plan :
  (forall w ctx,
     ctx_private ctx = priv_ram ->
     option_map pool_log (ram_close w ctx)
     = Some (pool_log w ++ [ptr_ram_chunks])%list) /\
  (let fw := firmware_with_map (conventional 0 4) [conventional 0x2000 4] in
   let r := ram_open hex_strtoul world0 ctx0 [] fw in
   fst (fst r) = EFI_INVALID_PARAMETER /\
   pool_log (snd (fst r)) = [ptr_ram_chunks; ptr_NULL]).
Proof.
  split.
  - intros w ctx Hp. unfold ram_close. rewrite Hp. reflexivity.
  - vm_compute. split; reflexivity.
Qed.

(** C3 (the code breaks the claim): with one conventional descriptor of
    4 GiB (0x100000 pages) at 0, the stream [ram] is planned as one RAW
    chunk of 0x100000 blocks and [ctx.len] counts its payload.  After the
    header, [ram_read] stands at a chunk boundary and returns the header
    of that chunk, but leaves [cur_end] at 0, the 32-bit product
    [chunk_sz * EFI_PAGE_SIZE] being 0, where
    [cur + chunk_sz * EFI_PAGE_SIZE] is 0x100000000.  The next read again
    finds [cur == cur_end], with no chunk left, and fails
    [EFI_INVALID_PARAMETER]: no byte of the payload is returned. *)
Lemma ram_read_chunk_end_wraps :
  let fw := firmware_with_map (conventional 0 0x100000) [] in
  let o := reader_open hex_strtoul world0 ctx0 "ram" fw in
  let r1 := reader_read (snd (fst o)) (snd o) 0x10000 fw in
  let r2 := ram_read (rr_world r1) (rr_ctx r1) 0x10000 in
  let chunk := array_get (chunks (ram (rr_world r1))) (cur_chunk (ram (rr_world r1))) in
  fst (fst o) = EFI_SUCCESS /\
  plan_shape (ram (snd (fst o))) = [(CHUNK_TYPE_RAW, 0x100000)] /\
  ctx_len (snd o) = 28 + 12 + 0x100000 * EFI_PAGE_SIZE /\
  (rr_status r1 = EFI_SUCCESS /\ rr_buf r1 = buf_sheader /\
   ctx_cur (rr_ctx r1) = 28 /\
   cur (ram (rr_world r1)) = 0 /\ cur_end (ram (rr_world r1)) = 0) /\
  (rr_status r2 = EFI_SUCCESS /\ rr_buf r2 = buf_chunk 0 /\ rr_len r2 = 12 /\
   chunk_type chunk = CHUNK_TYPE_RAW /\ chunk_sz chunk = 0x100000 /\
   cur (ram (rr_world r1)) + chunk_sz chunk * EFI_PAGE_SIZE = 0x100000000 /\
   cur_end (ram (rr_world r2)) = 0 /\ cur (ram (rr_world r2)) = 0) /\
  reads 4 (snd (fst o)) (snd o) 0x10000 fw =
    [(EFI_SUCCESS, buf_sheader, 28); (EFI_SUCCESS, buf_chunk 0, 12);
     (EFI_INVALID_PARAMETER, buf_none, 0x10000);
     (EFI_INVALID_PARAMETER, buf_none, 0x10000)].
Proof. vm_compute. repeat split; reflexivity. Qed.

Local Close Scope string_scope.

(** ** The streaming state machine of [ram_read] *)

(** The three states of [ram_read], as the code computes them.  With
    [ctx.cur == 0] it fails [EFI_INVALID_PARAMETER] below
    [sizeof(sparse header)] bytes of room and otherwise returns the
    header, exactly that many bytes.  Past the header, with
    [cur == cur_end], it fails [EFI_INVALID_PARAMETER] below
    [sizeof(chunk header)] bytes of room and when no chunk is left;
    otherwise it returns the next chunk header, moves [cur_end] to [cur]
    plus the 32-bit product [chunk_sz * EFI_PAGE_SIZE] and, for a
    DONT_CARE chunk, [cur] to [cur_end].  In any other state it returns
    [min(len, cur_end - cur)] bytes at the physical address [cur] and
    advances [cur] by that amount. *)
Lemma ram_read_three_states (w : world) (ctx : reader_ctx) (len : Z) :
  let priv := ram w in
  let r := ram_read w ctx len in
  let priv' := ram (rr_world r) in
  (ctx_cur ctx = 0 ->
     (len < sizeof_sparse_header -> rr_status r = EFI_INVALID_PARAMETER) /\
     (sizeof_sparse_header <= len ->
        rr_status r = EFI_SUCCESS /\ rr_buf r = buf_sheader /\
        rr_len r = sizeof_sparse_header /\
        sheader priv' = sheader priv /\
        cur priv' = start priv /\ cur_end priv' = start priv)) /\
  (ctx_cur ctx <> 0 -> cur priv = cur_end priv ->
     (len < sizeof_chunk_header -> rr_status r = EFI_INVALID_PARAMETER) /\
     (cur_chunk priv = chunk_nb priv -> rr_status r = EFI_INVALID_PARAMETER) /\
     (sizeof_chunk_header <= len -> cur_chunk priv <> chunk_nb priv ->
        let chunk := array_get (chunks priv) (cur_chunk priv) in
        rr_status r = EFI_SUCCESS /\ rr_buf r = buf_chunk (cur_chunk priv) /\
        rr_len r = sizeof_chunk_header /\
        chunks priv' = chunks priv /\
        cur_chunk priv' = u64 (cur_chunk priv + 1) /\
        cur_end priv' = u64 (cur priv + u32 (chunk_sz chunk * EFI_PAGE_SIZE)) /\
        (chunk_type chunk = CHUNK_TYPE_DONT_CARE -> cur priv' = cur_end priv') /\
        (chunk_type chunk = CHUNK_TYPE_RAW -> cur priv' = cur priv))) /\
  (ctx_cur ctx <> 0 -> cur priv <> cur_end priv ->
     let n := Z.min len (u64 (cur_end priv - cur priv)) in
     rr_status r = EFI_SUCCESS /\ rr_len r = n /\
     rr_buf r = buf_phys (cur priv) /\
     cur priv' = u64 (cur priv + n) /\ cur_end priv' = cur_end priv /\
     cur_chunk priv' = cur_chunk priv).
Proof.
  cbv zeta. unfold ram_read.
  split; [| split].
  - intros H0. apply Z.eqb_eq in H0. rewrite H0. split.
    + intros Hlt. apply Z.ltb_lt in Hlt. rewrite Hlt. reflexivity.
    + intros Hge. apply Z.ltb_ge in Hge. rewrite Hge. cbn. tauto.
  - intros H0 Heq. apply Z.eqb_neq in H0. apply Z.eqb_eq in Heq.
    rewrite H0, Heq. split; [| split].
    + intros Hlt. apply Z.ltb_lt in Hlt. rewrite Hlt, orb_true_r. reflexivity.
    + intros Hnone. apply Z.eqb_eq in Hnone. rewrite Hnone. reflexivity.
    + intros Hge Hleft. apply Z.ltb_ge in Hge. apply Z.eqb_neq in Hleft.
      rewrite Hge, Hleft. cbn [orb].
      repeat split.
      * destruct (chunk_type _ =? CHUNK_TYPE_RAW); reflexivity.
      * destruct (chunk_type _ =? CHUNK_TYPE_RAW); reflexivity.
      * destruct (chunk_type _ =? CHUNK_TYPE_RAW); reflexivity.
      * intros Hdc. rewrite Hdc. reflexivity.
      * intros Hraw. rewrite Hraw. reflexivity.
  - intros H0 Hne. apply Z.eqb_neq in H0. apply Z.eqb_neq in Hne.
    rewrite H0, Hne. cbn. tauto.
Qed.

(** ** What plan building leaves alone *)

Lemma frame_refl ctx priv : frame ctx priv ctx priv.
Proof. unfold frame. tauto. Qed.

Lemma frame_trans c1 p1 c2 p2 c3 p3 :
  frame c1 p1 c2 p2 -> frame c2 p2 c3 p3 -> frame c1 p1 c3 p3.
Proof. unfold frame. intuition congruence. Qed.

Lemma u64_range x : is_u64 (u64 x).
Proof. unfold is_u64, u64. apply Z.mod_pos_bound. reflexivity. Qed.

Lemma u64_small x : is_u64 x -> u64 x = x.
Proof. unfold is_u64, u64. intros H. apply Z.mod_small. exact H. Qed.

Lemma ram_add_chunk_spec ctx priv type size ret ctx' priv' :
  ram_add_chunk ctx priv type size = (ret, ctx', priv') ->
  frame ctx priv ctx' priv' /\ grows 1 priv priv' /\ walk_status ret /\
  (ret = EFI_OUT_OF_RESOURCES -> chunk_nb priv = MAX_MEMORY_REGION_NB) /\
  (ret <> EFI_SUCCESS -> chunk_nb priv' = chunk_nb priv).
Proof.
  unfold ram_add_chunk, walk_status.
  destruct (nonzero (size mod EFI_PAGE_SIZE)).
  { intros H; inversion H; subst.
    split; [apply frame_refl |].
    split; [unfold grows; lia |].
    split; [tauto |]. split; [discriminate | reflexivity]. }
  destruct (chunk_nb priv =? MAX_MEMORY_REGION_NB) eqn:Hfull.
  { intros H; inversion H; subst. apply Z.eqb_eq in Hfull.
    split; [apply frame_refl |].
    split; [unfold grows; lia |].
    split; [tauto |]. split; [intros _; exact Hfull | reflexivity]. }
  apply Z.eqb_neq in Hfull.
  intros H; inversion H; subst; clear H.
  split; [| split; [| split; [| split]]].
  - unfold frame. cbn.
    destruct (type =? CHUNK_TYPE_RAW); cbn;
      repeat match goal with |- _ /\ _ => split end;
      try reflexivity; intros _; apply u64_range.
  - unfold grows, MAX_MEMORY_REGION_NB in *. cbn. intros H0 H1.
    rewrite u64_small; [lia | unfold is_u64; lia].
  - tauto.
  - discriminate.
  - intros Hne. exfalso. apply Hne. reflexivity.
Qed.

Lemma nonzero_true x : nonzero x = true <-> x <> 0.
Proof.
  unfold nonzero. rewrite negb_true_iff. apply Z.eqb_neq.
Qed.

Lemma nonzero_false x : nonzero x = false <-> x = 0.
Proof.
  unfold nonzero. rewrite negb_false_iff. apply Z.eqb_eq.
Qed.

Lemma EFI_ERROR_false ret : EFI_ERROR ret = false <-> ret = EFI_SUCCESS.
Proof. destruct ret; cbn; split; intros H; (reflexivity || discriminate). Qed.

Lemma error_or_invalid_walk ret :
  walk_status ret ->
  (error_or_invalid ret = EFI_INVALID_PARAMETER /\ ret <> EFI_OUT_OF_RESOURCES) \/
  (error_or_invalid ret = EFI_OUT_OF_RESOURCES /\ ret = EFI_OUT_OF_RESOURCES).
Proof.
  intros [H | [H | H]]; subst; cbn; [left | left | right]; split;
    (reflexivity || discriminate).
Qed.

(** What the descriptor part of a turn does (lines 163-176). *)
Lemma ram_build_descr_spec entry ctx priv e ctx' priv' :
  ram_build_descr entry ctx priv = (e, ctx', priv') ->
  frame ctx priv ctx' priv' /\ grows 1 priv priv' /\
  (forall ret, e = exit_err ret ->
     walk_status ret /\
     (ret = EFI_OUT_OF_RESOURCES -> chunk_nb priv = MAX_MEMORY_REGION_NB)) /\
  (e = exit_break -> end_ priv <> 0 /\ end_ priv <= entry_end entry).
Proof.
  unfold ram_build_descr.
  cbv zeta.
  match goal with |- context [ram_add_chunk ?c ?p ?t ?s] =>
    destruct (ram_add_chunk c p t s) as [[ret c1] p1] eqn:E end.
  cbv beta iota.
  apply ram_add_chunk_spec in E. destruct E as (Hf & Hg & Hw & Ho & Hn).
  assert (Hend : end_ p1 = end_ priv) by (unfold frame in Hf; tauto).
  destruct (EFI_ERROR ret) eqn:Herr.
  - intros H; inversion H; subst; clear H.
    split; [exact Hf |]. split; [exact Hg |].
    split; [| intros H0; discriminate H0].
    intros ret0 H0; inversion H0; subst. split; [exact Hw | exact Ho].
  - rewrite Hend.
    destruct (nonzero (end_ priv) && (end_ priv <=? entry_end entry)) eqn:Hb;
      intros H; inversion H; subst; clear H;
      (split; [exact Hf |]); (split; [exact Hg |]);
      (split; [intros ret0 H0; discriminate H0 |]).
    + intros _. apply andb_true_iff in Hb. destruct Hb as [Hb1 Hb2].
      apply nonzero_true in Hb1. apply Z.leb_le in Hb2. tauto.
    + intros H0; discriminate H0.
Qed.

(** What one turn of the walk does (lines 133-179). *)
Lemma ram_build_entry_spec entry prev_end ctx priv e ctx' priv' :
  ram_build_entry entry prev_end ctx priv = (e, ctx', priv') ->
  frame ctx priv ctx' priv' /\ grows 2 priv priv' /\
  (forall ret, e = exit_err ret ->
     walk_status ret /\
     (ret = EFI_OUT_OF_RESOURCES ->
      0 <= chunk_nb priv -> chunk_nb priv + 2 <= MAX_MEMORY_REGION_NB -> False)) /\
  (e = exit_break ->
     end_ priv <> 0 /\
     (end_ priv < PhysicalStart entry \/ end_ priv <= entry_end entry)).
Proof.
  unfold ram_build_entry.
  destruct (start priv >=? entry_end entry).
  { intros H; inversion H; subst; clear H.
    split; [apply frame_refl |]. split; [unfold grows; lia |].
    split; intros; discriminate. }
  assert (Hdescr : forall c p,
    frame ctx priv c p -> grows 1 priv p ->
    ram_build_descr entry c p = (e, ctx', priv') ->
    frame ctx priv ctx' priv' /\ grows 2 priv priv' /\
    (forall ret, e = exit_err ret ->
       walk_status ret /\
       (ret = EFI_OUT_OF_RESOURCES ->
        0 <= chunk_nb priv -> chunk_nb priv + 2 <= MAX_MEMORY_REGION_NB -> False)) /\
    (e = exit_break ->
       end_ priv <> 0 /\
       (end_ priv < PhysicalStart entry \/ end_ priv <= entry_end entry))).
  { intros c p Hf Hg H. apply ram_build_descr_spec in H.
    destruct H as (Hf' & Hg' & He & Hb).
    assert (Hend : end_ p = end_ priv) by (unfold frame in Hf; tauto).
    split; [eapply frame_trans; eassumption |].
    split; [unfold grows, MAX_MEMORY_REGION_NB in *; lia |].
    split.
    - intros ret Hr. destruct (He ret Hr) as [Hw Ho]. split; [exact Hw |].
      intros Hoor H0 H2. specialize (Ho Hoor).
      unfold grows, MAX_MEMORY_REGION_NB in *. lia.
    - intros Hbr. specialize (Hb Hbr). rewrite Hend in Hb. tauto. }
  destruct (negb (prev_end =? PhysicalStart entry)).
  2:{ apply Hdescr; [apply frame_refl | unfold grows; lia]. }
  destruct (prev_end >? PhysicalStart entry).
  { intros H; inversion H; subst; clear H.
    split; [apply frame_refl |]. split; [unfold grows; lia |].
    split; [| intros; discriminate].
    intros ret H0; inversion H0; subst. split; [left; reflexivity | discriminate]. }
  cbv zeta.
  match goal with |- context [ram_add_chunk ?c ?p ?t ?s] =>
    destruct (ram_add_chunk c p t s) as [[ret c1] p1] eqn:E end.
  cbv beta iota.
  apply ram_add_chunk_spec in E. destruct E as (Hf & Hg & Hw & Ho & Hn).
  assert (Hend : end_ p1 = end_ priv) by (unfold frame in Hf; tauto).
  destruct (EFI_ERROR ret) eqn:Herr.
  { intros H; inversion H; subst; clear H.
    split; [exact Hf |].
    split; [unfold grows, MAX_MEMORY_REGION_NB in *; lia |].
    split; [| intros; discriminate].
    intros ret0 H0; inversion H0; subst. split; [exact Hw |].
    intros Hoor H1 H2. specialize (Ho Hoor). unfold MAX_MEMORY_REGION_NB in *. lia. }
  rewrite Hend.
  destruct (nonzero (end_ priv) && (end_ priv <? PhysicalStart entry)) eqn:Hb.
  { intros H; inversion H; subst; clear H.
    split; [exact Hf |].
    split; [unfold grows, MAX_MEMORY_REGION_NB in *; lia |].
    split; [intros; discriminate |].
    intros _. apply andb_true_iff in Hb. destruct Hb as [Hb1 Hb2].
    apply nonzero_true in Hb1. apply Z.ltb_lt in Hb2. tauto. }
  apply Hdescr; assumption.
Qed.

Lemma ram_build_loop_app l1 l2 prev_end ctx priv :
  ram_build_loop (l1 ++ l2) prev_end ctx priv =
  match ram_build_loop l1 prev_end ctx priv with
  | (exit_next, prev_end', ctx', priv') => ram_build_loop l2 prev_end' ctx' priv'
  | r => r
  end.
Proof.
  revert prev_end ctx priv.
  induction l1 as [| entry l1 IH]; intros prev_end ctx priv; cbn.
  - reflexivity.
  - destruct (ram_build_entry entry prev_end ctx priv) as [[e c] p].
    destruct e; [apply IH | reflexivity | reflexivity].
Qed.

(** What the walk over [l] does. *)
Lemma ram_build_loop_spec l :
  forall prev_end ctx priv e prev_end' ctx' priv',
  ram_build_loop l prev_end ctx priv = (e, prev_end', ctx', priv') ->
  frame ctx priv ctx' priv' /\
  grows (2 * Z.of_nat (List.length l)) priv priv' /\
  (forall ret, e = exit_err ret ->
     walk_status ret /\
     (ret = EFI_OUT_OF_RESOURCES -> 0 <= chunk_nb priv ->
      chunk_nb priv + 2 * Z.of_nat (List.length l) <= MAX_MEMORY_REGION_NB -> False)) /\
  (e = exit_next -> prev_end' = prev_end_after l prev_end) /\
  (e = exit_break -> end_ priv <> 0 /\ Exists (stops_at (end_ priv)) l).
Proof.
  induction l as [| entry rest IH]; intros prev_end ctx priv e prev_end' ctx' priv'.
  - cbn. intros H; inversion H; subst; clear H.
    split; [apply frame_refl |]. split; [unfold grows; lia |].
    split; [intros; discriminate |]. split; [reflexivity | intros; discriminate].
  - cbn [ram_build_loop].
    destruct (ram_build_entry entry prev_end ctx priv) as [[e1 c1] p1] eqn:E.
    apply ram_build_entry_spec in E. destruct E as (Hf & Hg & He & Hb).
    assert (Hlen : Z.of_nat (List.length (entry :: rest))
                   = Z.of_nat (List.length rest) + 1)
      by (cbn [List.length]; lia).
    rewrite Hlen.
    destruct e1.
    + intros H. apply IH in H. destruct H as (Hf' & Hg' & He' & Hn' & Hb').
      assert (Hend : end_ p1 = end_ priv) by (unfold frame in Hf; tauto).
      split; [eapply frame_trans; eassumption |].
      split; [unfold grows, MAX_MEMORY_REGION_NB in *; lia |].
      split; [| split].
      * intros ret Hr. destruct (He' ret Hr) as [Hw Ho]. split; [exact Hw |].
        intros Hoor H0 H2. apply (Ho Hoor);
          unfold grows, MAX_MEMORY_REGION_NB in *; lia.
      * intros Hn. rewrite (Hn' Hn). reflexivity.
      * intros Hbr. destruct (Hb' Hbr) as [H1 H2]. rewrite Hend in *.
        split; [exact H1 | apply Exists_cons_tl; exact H2].
    + intros H; inversion H; subst; clear H.
      split; [exact Hf |].
      split; [unfold grows, MAX_MEMORY_REGION_NB in *; lia |].
      split; [intros; discriminate |]. split; [intros; discriminate |].
      intros _. destruct (Hb eq_refl) as [H1 H2].
      split; [exact H1 | apply Exists_cons_hd; exact H2].
    + intros H; inversion H; subst; clear H.
      split; [exact Hf |].
      split; [unfold grows, MAX_MEMORY_REGION_NB in *; lia |].
      split; [| split; intros; discriminate].
      intros ret0 Hr; inversion Hr; subst. destruct (He ret0 eq_refl) as [Hw Ho].
      split; [exact Hw |].
      intros Hoor H0 H2. apply (Ho Hoor); unfold MAX_MEMORY_REGION_NB in *; lia.
Qed.

Lemma prev_end_after_snoc l entry prev_end :
  prev_end_after (l ++ [entry]) prev_end = entry_end entry.
Proof.
  unfold prev_end_after. rewrite fold_left_app. reflexivity.
Qed.

(** The sort keeps the number of entries. *)
Lemma bubble_pass_length n_cmp :
  forall entries, List.length (fst (bubble_pass n_cmp entries)) = List.length entries.
Proof.
  induction n_cmp as [| k IH]; intros entries.
  - destruct entries; reflexivity.
  - destruct entries as [| cur_d [| next_d rest]]; try reflexivity.
    cbn [bubble_pass].
    destruct (PhysicalStart cur_d >? PhysicalStart next_d).
    + specialize (IH (cur_d :: rest)).
      destruct (bubble_pass k (cur_d :: rest)) as [r sw]. cbn in *. lia.
    + specialize (IH (next_d :: rest)).
      destruct (bubble_pass k (next_d :: rest)) as [r sw]. cbn in *. lia.
Qed.

Lemma sort_memory_map_length nr_entries :
  forall entries,
  List.length (sort_memory_map entries nr_entries) = List.length entries.
Proof.
  induction nr_entries as [| k IH]; intros entries.
  - reflexivity.
  - cbn [sort_memory_map].
    pose proof (bubble_pass_length k entries) as Hp.
    destruct (bubble_pass k entries) as [entries' swapped]. cbn in Hp.
    destruct swapped; [rewrite IH |]; exact Hp.
Qed.

(** A pass over [x :: p] (followed by [s], out of its reach) moves the
    greatest entry to the end of [x :: p], permutes the rest, and reports
    no swap only when [x :: p] was sorted and is left as it was. *)
Lemma bubble_pass_spec k :
  forall x p s, List.length p = k ->
  exists p' m,
    fst (bubble_pass k (x :: p ++ s)) = p' ++ m :: s /\
    Permutation (x :: p) (p' ++ [m]) /\
    Forall (fun y => le_start y m) (p' ++ [m]) /\
    List.length p' = k /\
    (snd (bubble_pass k (x :: p ++ s)) = false ->
     p' ++ [m] = x :: p /\ StronglySorted le_start (x :: p)).
Proof.
  induction k as [| k IH]; intros x p s Hlen.
  - destruct p; [| discriminate]. exists [], x. cbn.
    split; [reflexivity |]. split; [apply Permutation_refl |].
    split; [constructor; [unfold le_start; lia | constructor] |].
    split; [reflexivity |]. intros _.
    split; [reflexivity | repeat constructor].
  - destruct p as [| y p0]; [discriminate |]. cbn in Hlen.
    assert (Hlen0 : List.length p0 = k) by lia.
    cbn [bubble_pass app].
    destruct (PhysicalStart x >? PhysicalStart y) eqn:Hcmp.
    + destruct (IH x p0 s Hlen0) as (p' & m & Hr & Hperm & Hmax & Hl & _).
      destruct (bubble_pass k (x :: p0 ++ s)) as [r sw]. cbn [fst snd] in *.
      subst r. exists (y :: p'), m.
      assert (Hxm : le_start x m).
      { rewrite Forall_forall in Hmax. apply Hmax.
        eapply Permutation_in; [exact Hperm | left; reflexivity]. }
      split; [reflexivity |].
      split; [cbn; rewrite perm_swap; apply perm_skip; exact Hperm |].
      split.
      * cbn. constructor; [| exact Hmax].
        unfold le_start in *. rewrite Z.gtb_ltb in Hcmp.
        apply Z.ltb_lt in Hcmp. lia.
      * split; [cbn; lia | discriminate].
    + destruct (IH y p0 s Hlen0) as (p' & m & Hr & Hperm & Hmax & Hl & Hsw).
      destruct (bubble_pass k (y :: p0 ++ s)) as [r sw]. cbn [fst snd] in *.
      subst r. exists (x :: p'), m.
      assert (Hxy : le_start x y).
      { unfold le_start. rewrite Z.gtb_ltb in Hcmp. apply Z.ltb_ge in Hcmp. lia. }
      assert (Hym : le_start y m).
      { rewrite Forall_forall in Hmax. apply Hmax.
        eapply Permutation_in; [exact Hperm | left; reflexivity]. }
      split; [reflexivity |].
      split; [cbn; apply perm_skip; exact Hperm |].
      split; [cbn; constructor; [unfold le_start in *; lia | exact Hmax] |].
      split; [cbn; lia |].
      intros Hfalse. destruct (Hsw Hfalse) as [Heq Hsorted].
      split; [cbn; rewrite Heq; reflexivity |].
      constructor; [exact Hsorted |].
      constructor; [exact Hxy |].
      apply StronglySorted_inv in Hsorted. destruct Hsorted as [_ Hall].
      rewrite Forall_forall in *. intros z Hz. specialize (Hall z Hz).
      unfold le_start in *. lia.
Qed.

Lemma StronglySorted_le_start_app l1 l2 :
  StronglySorted le_start l1 -> StronglySorted le_start l2 ->
  Forall (fun x => Forall (le_start x) l2) l1 ->
  StronglySorted le_start (l1 ++ l2).
Proof.
  induction l1 as [| a l1 IH]; intros H1 H2 Hcross; cbn.
  - exact H2.
  - apply StronglySorted_inv in H1. destruct H1 as [H1 Ha].
    inversion Hcross as [| ? ? Hal2 Hcross']; subst.
    constructor; [apply IH; assumption |].
    apply Forall_app. split; assumption.
Qed.

(** The passes sort: with the entries past the first [n] sorted and no
    smaller than those, the result is sorted, and a permutation. *)
Lemma sort_memory_map_spec n :
  forall p s, List.length p = n ->
  StronglySorted le_start s ->
  Forall (fun x => Forall (le_start x) s) p ->
  StronglySorted le_start (sort_memory_map (p ++ s) n) /\
  Permutation (p ++ s) (sort_memory_map (p ++ s) n).
Proof.
  induction n as [| k IH]; intros p s Hlen Hs Hcross.
  - destruct p; [| discriminate]. cbn. split; [exact Hs | apply Permutation_refl].
  - destruct p as [| x p0]; [discriminate |]. cbn in Hlen.
    assert (Hlen0 : List.length p0 = k) by lia.
    destruct (bubble_pass_spec k x p0 s Hlen0) as (p' & m & Hr & Hperm & Hmax & Hl & Hsw).
    cbn [sort_memory_map app].
    destruct (bubble_pass k (x :: p0 ++ s)) as [entries' swapped].
    cbn [fst snd] in *. subst entries'.
    assert (Hin : forall y, In y (p' ++ [m]) -> Forall (le_start y) s).
    { intros y Hy. rewrite Forall_forall in Hcross. apply Hcross.
      eapply Permutation_in; [apply Permutation_sym; exact Hperm | exact Hy]. }
    assert (Hwhole : Permutation (x :: p0 ++ s) (p' ++ m :: s)).
    { change (x :: p0 ++ s) with ((x :: p0) ++ s).
      replace (p' ++ m :: s) with ((p' ++ [m]) ++ s)
        by (rewrite <- app_assoc; reflexivity).
      apply Permutation_app_tail. exact Hperm. }
    destruct swapped.
    + assert (Hms : StronglySorted le_start (m :: s)).
      { constructor; [exact Hs |]. apply Hin. apply in_or_app. right. left. reflexivity. }
      assert (Hcross' : Forall (fun y => Forall (le_start y) (m :: s)) p').
      { rewrite Forall_forall. intros y Hy. constructor.
        - rewrite Forall_forall in Hmax. apply Hmax. apply in_or_app. left. exact Hy.
        - apply Hin. apply in_or_app. left. exact Hy. }
      destruct (IH p' (m :: s) Hl Hms Hcross') as [Hsorted Hp].
      split; [exact Hsorted |].
      eapply Permutation_trans; [exact Hwhole | exact Hp].
    + destruct (Hsw eq_refl) as [Heq Hsorted].
      replace (p' ++ m :: s) with ((x :: p0) ++ s)
        by (rewrite <- Heq, <- app_assoc; reflexivity).
      split; [| apply Permutation_refl].
      apply StronglySorted_le_start_app; assumption.
Qed.

(** [sort_memory_map] sorts the map by [PhysicalStart], ascending, and
    keeps its descriptors. *)
Lemma sort_memory_map_sorts entries :
  StronglySorted le_start (sort_memory_map entries (List.length entries)) /\
  Permutation entries (sort_memory_map entries (List.length entries)).
Proof.
  pose proof (sort_memory_map_spec (List.length entries) entries [] eq_refl) as H.
  rewrite app_nil_r in H. apply H.
  - constructor.
  - rewrite Forall_forall. intros x _. constructor.
Qed.

Lemma ram_build_chunks_spec ctx priv nr_entries ret ctx' priv' freed :
  ram_build_chunks ctx priv nr_entries = (ret, ctx', priv', freed) ->
  is_in_used priv' = is_in_used priv /\ start priv' = start priv /\
  cur priv' = cur priv /\ cur_end priv' = cur_end priv /\
  ctx_reader ctx' = ctx_reader ctx /\ ctx_private ctx' = ctx_private ctx /\
  ctx_cur ctx' = 0 /\ is_u64 (ctx_len ctx').
Proof.
  unfold ram_build_chunks.
  destruct (ram_build_loop (firstn nr_entries (memmap priv)) 0
              (set_ctx_cur 0 (set_ctx_len 0 ctx)) priv)
    as [[[e pe] c] p] eqn:E.
  apply ram_build_loop_spec in E. destruct E as (Hf & _).
  unfold frame in Hf. cbn in Hf.
  assert (Hu : is_u64 (ctx_len c)) by (apply Hf; unfold is_u64; lia).
  assert (Hgoal : forall p2, is_in_used p2 = is_in_used p -> start p2 = start p ->
            cur p2 = cur p -> cur_end p2 = cur_end p ->
            is_in_used p2 = is_in_used priv /\ start p2 = start priv /\
            cur p2 = cur priv /\ cur_end p2 = cur_end priv /\
            ctx_reader c = ctx_reader ctx /\ ctx_private c = ctx_private ctx /\
            ctx_cur c = 0 /\ is_u64 (ctx_len c)).
  { intros p2 H1 H2 H3 H4. intuition congruence. }
  destruct e.
  - destruct (nonzero (end_ p) && true);
      [| destruct (negb (nonzero (ctx_len c)));
         [| destruct (negb (nonzero (end_ p)))]];
      intros H; inversion H; subst; apply Hgoal; reflexivity.
  - destruct (nonzero (end_ p) && false);
      [| destruct (negb (nonzero (ctx_len c)));
         [| destruct (negb (nonzero (end_ p)))]];
      intros H; inversion H; subst; apply Hgoal; reflexivity.
  - intros H; inversion H; subst; apply Hgoal; reflexivity.
Qed.

Section ReaderFacts.

Variable strtoul16 : string -> Z * string.

(** The window parse writes [start] and [end] only. *)
Lemma ram_parse_argv_frame argv p ok q :
  ram_parse_argv strtoul16 argv p = (ok, q) ->
  is_in_used q = is_in_used p /\ chunk_nb q = chunk_nb p /\ cur q = cur p /\
  cur_end q = cur_end p /\ (is_u64 (start p) -> is_u64 (start q)).
Proof.
  pose proof u64_range as Hu.
  unfold ram_parse_argv.
  destruct (Z.of_nat (List.length argv) >? 0).
  - destruct (strtoul16 (nth 0 argv EmptyString)) as [v endptr].
    destruct (at_nul endptr); cbn [negb].
    + destruct (Z.of_nat (List.length argv) =? 2).
      * destruct (strtoul16 (nth 1 argv EmptyString)) as [v2 endptr2].
        destruct (at_nul endptr2); intros H; inversion H; subst; cbn; auto 10.
      * intros H; inversion H; subst; cbn; auto 10.
    + intros H; inversion H; subst; cbn; auto 10.
  - cbn [negb]. destruct (Z.of_nat (List.length argv) =? 2).
    + destruct (strtoul16 (nth 1 argv EmptyString)) as [v2 endptr2].
      destruct (at_nul endptr2); intros H; inversion H; subst; cbn; auto 10.
    + intros H; inversion H; subst; cbn; auto 10.
Qed.

Lemma EFI_ERROR_error_or_invalid ret : EFI_ERROR (error_or_invalid ret) = true.
Proof. destruct ret; reflexivity. Qed.

(** [ram_open] past its checks: with the flag clear, at most two
    arguments, a window that parses and is page-aligned and a memory map
    from the firmware, the outcome is that of [ram_build_chunks] on the
    sorted map. *)
Lemma ram_open_builds w ctx argv fw priv d ds :
  is_in_used (ram w) = false ->
  (List.length argv <= 2)%nat ->
  ram_parse_argv strtoul16 argv (set_is_in_used true zero_ram_priv) = (true, priv) ->
  start priv mod EFI_PAGE_SIZE = 0 -> end_ priv mod EFI_PAGE_SIZE = 0 ->
  GetMemoryMap fw = (EFI_SUCCESS, (d, ds)) ->
  exists priv1,
    memmap priv1 = sort_memory_map (d :: ds) (List.length (d :: ds)) /\
    start priv1 = start priv /\ end_ priv1 = end_ priv /\
    chunk_nb priv1 = 0 /\ is_in_used priv1 = true /\
    cur priv1 = 0 /\ cur_end priv1 = 0 /\
    fst (fst (ram_open strtoul16 w ctx argv fw)) =
      (let ret := fst (fst (fst (ram_build_chunks (set_ctx_private priv_ram ctx)
                                   priv1 (List.length (d :: ds))))) in
       if EFI_ERROR ret then error_or_invalid ret else EFI_SUCCESS).
Proof.
  intros Hfree Hargc Hparse Hs He Hmap.
  pose proof (ram_parse_argv_frame _ _ _ _ Hparse) as (Hp1 & Hp2 & Hp3 & Hp4 & Hp5).
  cbn in Hp1, Hp2, Hp3, Hp4.
  exists (set_memmap (sort_memory_map (d :: ds) (List.length (d :: ds)))
            (ram_init_sheader priv)).
  split; [reflexivity |]. split; [reflexivity |]. split; [reflexivity |].
  split; [exact Hp2 |]. split; [exact Hp1 |].
  split; [exact Hp3 |]. split; [exact Hp4 |].
  unfold ram_open.
  replace (Z.of_nat (List.length argv) >? 2) with false
    by (symmetry; rewrite Z.gtb_ltb; apply Z.ltb_ge; lia).
  rewrite Hfree, Hparse. cbn [negb].
  apply nonzero_false in Hs. apply nonzero_false in He. rewrite Hs, He. cbn [orb].
  rewrite Hmap. cbn [EFI_ERROR].
  match goal with |- context [ram_build_chunks ?c ?p ?n] =>
    destruct (ram_build_chunks c p n) as [[[ret c1] p1] freed] end.
  cbn [fst]. destruct (EFI_ERROR ret); reflexivity.
Qed.

(** The walk meets an overlap: [b] follows [a] in the entries, starts
    before [a] ends and is not skipped, and the window's end stops the walk
    at none of the entries up to [a]. *)
Lemma ram_build_chunks_overlap ctx priv nr_entries l1 a b l2 :
  firstn nr_entries (memmap priv) = l1 ++ a :: b :: l2 ->
  chunk_nb priv = 0 ->
  PhysicalStart b < entry_end a ->
  start priv < entry_end b ->
  (end_ priv = 0 \/ Forall (fun e => ~ stops_at (end_ priv) e) (l1 ++ [a])) ->
  let ret := fst (fst (fst (ram_build_chunks ctx priv nr_entries))) in
  (ret = EFI_INVALID_PARAMETER \/ ret = EFI_OUT_OF_RESOURCES) /\
  ((List.length l1 < 128)%nat -> ret = EFI_INVALID_PARAMETER).
Proof.
  intros Hmap Hnb Hover Hskip Hreach. cbv zeta.
  unfold ram_build_chunks. rewrite Hmap.
  replace (l1 ++ a :: b :: l2) with ((l1 ++ [a]) ++ b :: l2)
    by (rewrite <- app_assoc; reflexivity).
  rewrite ram_build_loop_app.
  destruct (ram_build_loop (l1 ++ [a]) 0 (set_ctx_cur 0 (set_ctx_len 0 ctx)) priv)
    as [[[e pe] c] p] eqn:E.
  apply ram_build_loop_spec in E. destruct E as (Hf & Hg & He & Hn & Hb).
  destruct e.
  - (* the walk arrives at [b] *)
    rewrite (Hn eq_refl), prev_end_after_snoc.
    cbn [ram_build_loop]. unfold ram_build_entry.
    assert (Hst : start p = start priv) by (unfold frame in Hf; tauto).
    rewrite Hst.
    replace (start priv >=? entry_end b) with false
      by (symmetry; rewrite Z.geb_leb; apply Z.leb_gt; lia).
    replace (entry_end a =? PhysicalStart b) with false
      by (symmetry; apply Z.eqb_neq; lia).
    replace (entry_end a >? PhysicalStart b) with true
      by (symmetry; rewrite Z.gtb_ltb; apply Z.ltb_lt; lia).
    cbn. split; [left; reflexivity | intros _; reflexivity].
  - (* the window's end cannot have stopped the walk *)
    exfalso. destruct (Hb eq_refl) as [Hne Hex].
    destruct Hreach as [H0 | Hall]; [contradiction |].
    apply Forall_Exists_neg in Hall. contradiction.
  - destruct (He ret eq_refl) as [Hw Ho]. cbn [fst].
    destruct (error_or_invalid_walk ret Hw) as [[H1 H2] | [H1 H2]].
    + split; [left; exact H1 | intros _; exact H1].
    + split; [right; exact H1 |].
      intros Hlen. exfalso. apply (Ho H2); [lia |].
      rewrite Hnb, length_app. unfold MAX_MEMORY_REGION_NB. cbn [List.length]. lia.
Qed.

(** C7 (as amended): a map in which, once sorted, a descriptor [b] starts
    before the end of the descriptor [a] just before it makes [ram_open]
    fail when the walk meets [b]: [b] ends after the window's start, and
    the window has no end or its end stops the walk at no descriptor up
    to [a].  The failure is [EFI_INVALID_PARAMETER], or
    [EFI_OUT_OF_RESOURCES] when the chunk array filled up first, which
    takes 128 descriptors or more ahead of [a]. *)
Theorem ram_open_overlap_on_walk w ctx argv fw priv d ds l1 a b l2 :
  is_in_used (ram w) = false ->
  (List.length argv <= 2)%nat ->
  ram_parse_argv strtoul16 argv (set_is_in_used true zero_ram_priv) = (true, priv) ->
  start priv mod EFI_PAGE_SIZE = 0 -> end_ priv mod EFI_PAGE_SIZE = 0 ->
  GetMemoryMap fw = (EFI_SUCCESS, (d, ds)) ->
  sort_memory_map (d :: ds) (List.length (d :: ds)) = l1 ++ a :: b :: l2 ->
  PhysicalStart b < entry_end a ->
  start priv < entry_end b ->
  (end_ priv = 0 \/ Forall (fun e => ~ stops_at (end_ priv) e) (l1 ++ [a])) ->
  let ret := fst (fst (ram_open strtoul16 w ctx argv fw)) in
  (ret = EFI_INVALID_PARAMETER \/ ret = EFI_OUT_OF_RESOURCES) /\
  ((List.length l1 < 128)%nat -> ret = EFI_INVALID_PARAMETER).
Proof.
  intros Hfree Hargc Hparse Hs He Hmap Hsort Hover Hskip Hreach. cbv zeta.
  destruct (ram_open_builds w ctx argv fw priv d ds Hfree Hargc Hparse Hs He Hmap)
    as (priv1 & Hm & Hs1 & He1 & Hnb & _ & _ & _ & Hret).
  rewrite Hret. cbv zeta.
  assert (Hfirst : firstn (List.length (d :: ds)) (memmap priv1) = l1 ++ a :: b :: l2).
  { rewrite Hm, <- Hsort. apply firstn_all2.
    rewrite sort_memory_map_length. apply le_n. }
  rewrite <- Hs1 in Hskip. rewrite <- He1 in Hreach.
  destruct (ram_build_chunks_overlap (set_ctx_private priv_ram ctx) priv1
              (List.length (d :: ds)) l1 a b l2 Hfirst Hnb Hover Hskip Hreach)
    as [Hor Hin].
  cbv zeta in Hor, Hin.
  destruct Hor as [H | H].
  - rewrite H. cbn. split; [left; reflexivity | intros _; reflexivity].
  - split.
    + rewrite H. cbn. right; reflexivity.
    + intros Hlen. rewrite (Hin Hlen). reflexivity.
Qed.

(** C6 (as amended): [ram_open] fails with [EFI_INVALID_PARAMETER], and
    releases the in-use flag, whenever the window it parsed has a [start]
    or an [end] that is not a multiple of the page size.  A window with
    [start == end] is not refused for being empty: [start == end == 0] is
    the window "to the end of the map", and [ram_open] on the arguments
    [0] and [0] does what it does without arguments. *)
Theorem ram_open_rejects_misaligned (w : world) (ctx : reader_ctx) (fw : firmware) :
  (forall argv priv,
     is_in_used (ram w) = false ->
     (List.length argv <= 2)%nat ->
     ram_parse_argv strtoul16 argv (set_is_in_used true zero_ram_priv) = (true, priv) ->
     start priv mod EFI_PAGE_SIZE <> 0 \/ end_ priv mod EFI_PAGE_SIZE <> 0 ->
     let r := ram_open strtoul16 w ctx argv fw in
     fst (fst r) = EFI_INVALID_PARAMETER /\ is_in_used (ram (snd (fst r))) = false) /\
  (forall a b,
     strtoul16 a = (0, EmptyString) -> strtoul16 b = (0, EmptyString) ->
     ram_open strtoul16 w ctx [a; b] fw = ram_open strtoul16 w ctx [] fw).
Proof.
  split.
  - intros argv priv Hfree Hargc Hparse Hmis. cbv zeta. unfold ram_open.
    replace (Z.of_nat (List.length argv) >? 2) with false
      by (symmetry; rewrite Z.gtb_ltb; apply Z.ltb_ge; lia).
    rewrite Hfree, Hparse. cbn [negb].
    replace (nonzero (start priv mod EFI_PAGE_SIZE)
             || nonzero (end_ priv mod EFI_PAGE_SIZE)) with true.
    + cbn. split; reflexivity.
    + symmetry. apply orb_true_iff.
      destruct Hmis as [H | H]; [left | right]; apply nonzero_true; exact H.
  - intros a b Ha Hb. unfold ram_open, ram_parse_argv. cbn [List.length nth].
    rewrite Ha, Hb. reflexivity.
Qed.

(** [ram_open] called with the flag clear leaves it set exactly when it
    succeeds. *)
Lemma ram_open_flag w ctx argv fw :
  is_in_used (ram w) = false ->
  is_in_used (ram (snd (fst (ram_open strtoul16 w ctx argv fw))))
  = negb (EFI_ERROR (fst (fst (ram_open strtoul16 w ctx argv fw)))).
Proof.
  intros Hfree. unfold ram_open.
  destruct (Z.of_nat (List.length argv) >? 2); [cbn; exact Hfree |].
  rewrite Hfree.
  destruct (ram_parse_argv strtoul16 argv (set_is_in_used true zero_ram_priv))
    as [parsed priv] eqn:Hparse.
  destruct parsed; [| reflexivity]. cbn [negb].
  apply ram_parse_argv_frame in Hparse. destruct Hparse as (Hp1 & _).
  destruct (nonzero (start priv mod EFI_PAGE_SIZE)
            || nonzero (end_ priv mod EFI_PAGE_SIZE)); [reflexivity |].
  destruct (GetMemoryMap fw) as [ret [d ds]].
  destruct (EFI_ERROR ret) eqn:Herr.
  { cbn. rewrite EFI_ERROR_error_or_invalid. reflexivity. }
  match goal with |- context [ram_build_chunks ?c ?p ?n] =>
    destruct (ram_build_chunks c p n) as [[[ret2 c2] p2] freed] eqn:E end.
  apply ram_build_chunks_spec in E. destruct E as (Hflag & _).
  cbn in Hflag. rewrite Hp1 in Hflag.
  destruct (EFI_ERROR ret2) eqn:Herr2.
  - cbn. rewrite EFI_ERROR_error_or_invalid. reflexivity.
  - cbn. exact Hflag.
Qed.

(** [ram_open] called with the flag set changes nothing. *)
Lemma ram_open_in_use w ctx argv fw :
  is_in_used (ram w) = true ->
  ram_open strtoul16 w ctx argv fw =
  (if Z.of_nat (List.length argv) >? 2
   then EFI_INVALID_PARAMETER else EFI_UNSUPPORTED, w, ctx).
Proof.
  intros Hused. unfold ram_open. rewrite Hused.
  destruct (Z.of_nat (List.length argv) >? 2); reflexivity.
Qed.

(** A [ram_open] that succeeds leaves the context on the static region. *)
Lemma ram_open_private w ctx argv fw :
  fst (fst (ram_open strtoul16 w ctx argv fw)) = EFI_SUCCESS ->
  ctx_private (snd (ram_open strtoul16 w ctx argv fw)) = priv_ram.
Proof.
  assert (Herr : forall ret, error_or_invalid ret = EFI_SUCCESS -> False).
  { intros ret H. pose proof (EFI_ERROR_error_or_invalid ret) as He.
    rewrite H in He. discriminate He. }
  unfold ram_open.
  destruct (Z.of_nat (List.length argv) >? 2); [discriminate |].
  destruct (is_in_used (ram w)); [discriminate |].
  destruct (ram_parse_argv strtoul16 argv (set_is_in_used true zero_ram_priv))
    as [parsed priv].
  destruct parsed; cbn [negb]; [| intros H; exfalso; exact (Herr _ H)].
  destruct (nonzero (start priv mod EFI_PAGE_SIZE)
            || nonzero (end_ priv mod EFI_PAGE_SIZE));
    [intros H; exfalso; exact (Herr _ H) |].
  destruct (GetMemoryMap fw) as [ret [d ds]].
  destruct (EFI_ERROR ret); [intros H; exfalso; exact (Herr _ H) |].
  match goal with |- context [ram_build_chunks ?c ?p ?n] =>
    destruct (ram_build_chunks c p n) as [[[ret2 c2] p2] freed] eqn:E end.
  apply ram_build_chunks_spec in E. destruct E as (_ & _ & _ & _ & _ & Hp & _).
  destruct (EFI_ERROR ret2); [intros H; exfalso; exact (Herr _ H) |].
  intros _. cbn. exact Hp.
Qed.

(** A call of the client keeps the count of open streams on the flag. *)
Lemma ram_step_flag_counts s c :
  flag_counts s ->
  exists s', ram_step strtoul16 s c = Some s' /\ flag_counts s'.
Proof.
  destruct s as [w l]. unfold flag_counts. cbn [fst snd].
  intros (Hle & Hiff & Hall). destruct c as [ctx argv fw | i].
  - cbn [ram_step fst snd].
    destruct (is_in_used (ram w)) eqn:Hflag.
    + rewrite (ram_open_in_use w ctx argv fw Hflag).
      exists (w, l). cbn [fst snd].
      split; [destruct (Z.of_nat (List.length argv) >? 2); reflexivity |].
      rewrite Hflag. tauto.
    + pose proof (ram_open_flag w ctx argv fw Hflag) as Hafter.
      pose proof (ram_open_private w ctx argv fw) as Hpriv.
      destruct (ram_open strtoul16 w ctx argv fw) as [[ret w'] ctx'].
      cbn [fst snd] in *.
      assert (Hnil : l = []).
      { destruct l as [| c1 [| c2 l]]; [reflexivity | | cbn in Hle; lia].
        destruct Hiff as [_ H]. specialize (H eq_refl). discriminate. }
      subst l. eexists. split; [reflexivity |]. cbn [fst snd]. rewrite Hafter.
      destruct (EFI_ERROR ret) eqn:Herr; cbn.
      * split; [lia |]. split; [split; intros H; discriminate | constructor].
      * split; [lia |]. split; [tauto |].
        constructor; [| constructor]. apply Hpriv.
        apply EFI_ERROR_false. exact Herr.
  - cbn [ram_step fst snd].
    destruct (nth_error l i) as [ctx |] eqn:Hnth.
    + assert (Hp : ctx_private ctx = priv_ram).
      { rewrite Forall_forall in Hall. apply Hall.
        eapply nth_error_In. exact Hnth. }
      unfold ram_close. rewrite Hp.
      eexists. split; [reflexivity |]. cbn [fst snd].
      destruct l as [| c1 [| c2 l]]; [destruct i; discriminate | | cbn in Hle; lia].
      destruct i as [| i]; [| destruct i; discriminate].
      cbn. split; [lia |]. split; [split; intros H; discriminate | constructor].
    + exists (w, l). cbn [fst snd]. tauto.
Qed.

(** C10 (as amended): the RAM reader is a singleton behind the in-use
    flag.  While the flag is set [ram_open] fails and changes nothing; it
    fails [EFI_UNSUPPORTED] when given at most two arguments, and
    [EFI_INVALID_PARAMETER] with more, the count being checked first.
    Called with the flag clear, [ram_open] leaves it set when it succeeds,
    with the context on the static region, and clear on every failing
    path; [ram_close] on a context that is on the static region clears
    it.  So over any sequence of [ram_open] calls and of [ram_close]
    calls on the contexts of streams that are open, every call has a
    result, at most one RAM stream is open, and the flag is set exactly
    while one is. *)
Theorem ram_singleton :
  (forall w ctx argv fw,
     is_in_used (ram w) = true ->
     ram_open strtoul16 w ctx argv fw =
     (if Z.of_nat (List.length argv) >? 2
      then EFI_INVALID_PARAMETER else EFI_UNSUPPORTED, w, ctx)) /\
  (forall w ctx argv fw,
     is_in_used (ram w) = false ->
     is_in_used (ram (snd (fst (ram_open strtoul16 w ctx argv fw))))
     = negb (EFI_ERROR (fst (fst (ram_open strtoul16 w ctx argv fw))))) /\
  (forall w ctx argv fw,
     fst (fst (ram_open strtoul16 w ctx argv fw)) = EFI_SUCCESS ->
     ctx_private (snd (ram_open strtoul16 w ctx argv fw)) = priv_ram) /\
  (forall w ctx,
     ctx_private ctx = priv_ram ->
     exists w', ram_close w ctx = Some w' /\ is_in_used (ram w') = false) /\
  (forall calls w,
     is_in_used (ram w) = false ->
     exists s, ram_run strtoul16 calls (w, []) = Some s /\ flag_counts s).
Proof.
  split; [exact ram_open_in_use |]. split; [exact ram_open_flag |].
  split; [exact ram_open_private |].
  split.
  { intros w ctx Hp. unfold ram_close. rewrite Hp.
    eexists. split; reflexivity. }
  intros calls w Hfree.
  assert (Hstart : flag_counts (w, @nil reader_ctx)).
  { unfold flag_counts. cbn. rewrite Hfree. split; [lia |].
    split; [split; intros H; discriminate | constructor]. }
  revert Hstart. generalize (w, @nil reader_ctx).
  induction calls as [| c calls IH]; intros s Hs; cbn [ram_run].
  - exists s. split; [reflexivity | exact Hs].
  - destruct (ram_step_flag_counts s c Hs) as (s' & Hstep & Hs').
    rewrite Hstep. apply IH. exact Hs'.
Qed.

(** ** The window check of [part_open] *)

(** X8: with the partition resolved, [part_open] accepts an offset and a
    length exactly when [offset < total], [length > 0] and
    [offset + length < total], [total] being the size of the partition in
    bytes: a range that ends where the partition ends is refused. *)
Lemma part_open_window_check w ctx label a b fw g off len ra rb :
  AllocatePool_ok fw = true -> stra_to_str_ok fw = true ->
  gpt_get_partition_by_label fw = (EFI_SUCCESS, g) ->
  strtoul16 a = (off, ra) -> strtoul16 b = (len, rb) ->
  is_u64 off -> is_u64 len ->
  let total := u64 (u64 (ending_lba g + 1 - starting_lba g) * BlockSize g) in
  fst (fst (part_open strtoul16 w ctx [label; a; b] fw)) = EFI_SUCCESS <->
  off < total /\ 0 < len /\ off + len < total.
Proof.
  intros Halloc Hstr Hgpt Ha Hb Hoff Hlen total.
  pose proof (u64_range (u64 (ending_lba g + 1 - starting_lba g) * BlockSize g)) as Ht.
  fold total in Ht.
  unfold part_open. cbn [List.length nth].
  change (Z.of_nat 3 <? 1) with false. change (Z.of_nat 3 >? 3) with false.
  change (Z.of_nat 3 >? 1) with true. change (Z.of_nat 3 =? 3) with true.
  cbn [orb andb]. rewrite Halloc, Hstr, Hgpt, Ha, Hb. cbn [negb EFI_ERROR fst].
  fold total. cbn [set_ctx_len set_ctx_cur set_ctx_private ctx_cur ctx_len].
  rewrite (u64_small off Hoff), (u64_small len Hlen).
  destruct (off >=? total) eqn:H1.
  { cbn. rewrite Z.geb_leb in H1. apply Z.leb_le in H1.
    split; [discriminate | lia]. }
  rewrite Z.geb_leb in H1. apply Z.leb_gt in H1.
  destruct (len =? 0) eqn:H2.
  { cbn. apply Z.eqb_eq in H2. split; [discriminate | lia]. }
  apply Z.eqb_neq in H2.
  destruct (len >? total) eqn:H3.
  { cbn. rewrite Z.gtb_ltb in H3. apply Z.ltb_lt in H3.
    unfold is_u64 in *. split; [discriminate | lia]. }
  rewrite Z.gtb_ltb in H3. apply Z.ltb_ge in H3.
  assert (Hsub : u64 (total - len) = total - len)
    by (apply u64_small; unfold is_u64 in *; lia).
  rewrite Hsub. cbn [orb].
  destruct (off >=? total - len) eqn:H4.
  - cbn. rewrite Z.geb_leb in H4. apply Z.leb_le in H4.
    split; [discriminate | lia].
  - cbn. rewrite Z.geb_leb in H4. apply Z.leb_gt in H4.
    unfold is_u64 in *. split; [intros _; lia | reflexivity].
Qed.

(** ** Reads through the dispatcher *)

Lemma is_u64_0 : is_u64 0.
Proof. unfold is_u64. lia. Qed.

Lemma u32_is_u64 x : is_u64 (u32 x).
Proof.
  unfold is_u64, u32. pose proof (Z.mod_pos_bound x (2 ^ 32) eq_refl). lia.
Qed.

Lemma u64_sub_zero a b : is_u64 a -> is_u64 b -> (u64 (b - a) = 0 <-> a = b).
Proof.
  unfold is_u64, u64. change (2 ^ 64) with 18446744073709551616.
  intros Ha Hb. split.
  - intros H. apply Z.mod_divide in H; [| lia]. destruct H as [q Hq]. lia.
  - intros H. subst. rewrite Z.sub_diag. reflexivity.
Qed.

Lemma ram_open_success w ctx argv fw w' ctx' :
  ram_open strtoul16 w ctx argv fw = (EFI_SUCCESS, w', ctx') ->
  ctx_reader ctx' = ctx_reader ctx /\ ctx_cur ctx' = 0 /\ is_u64 (ctx_len ctx') /\
  is_u64 (start (ram w')) /\ cur (ram w') = 0 /\ cur_end (ram w') = 0.
Proof.
  unfold ram_open.
  destruct (Z.of_nat (List.length argv) >? 2); [discriminate |].
  destruct (is_in_used (ram w)); [discriminate |].
  destruct (ram_parse_argv strtoul16 argv (set_is_in_used true zero_ram_priv))
    as [parsed priv] eqn:Hparse.
  destruct parsed; [| discriminate]. cbn [negb].
  apply ram_parse_argv_frame in Hparse. destruct Hparse as (_ & _ & Hc & Hce & Hst).
  specialize (Hst is_u64_0). cbn in Hc, Hce.
  destruct (nonzero (start priv mod EFI_PAGE_SIZE)
            || nonzero (end_ priv mod EFI_PAGE_SIZE)); [discriminate |].
  destruct (GetMemoryMap fw) as [ret [d ds]].
  destruct (EFI_ERROR ret); [cbn; destruct ret; discriminate |].
  match goal with |- context [ram_build_chunks ?c ?p ?n] =>
    destruct (ram_build_chunks c p n) as [[[ret2 c2] p2] freed] eqn:E end.
  apply ram_build_chunks_spec in E.
  destruct E as (_ & Hs2 & Hc2 & Hce2 & Hr2 & _ & Hcur2 & Hlen2).
  cbn in Hs2, Hc2, Hce2, Hr2.
  destruct (EFI_ERROR ret2); [cbn; destruct ret2; discriminate |].
  intros H; inversion H; subst; clear H. cbn.
  split; [exact Hr2 |]. split; [exact Hcur2 |]. split; [apply u64_range |].
  split; [rewrite Hs2; exact Hst |]. split; congruence.
Qed.

Lemma reader_open_ok w ctx args fw w' ctx' :
  reader_open strtoul16 w ctx args fw = (EFI_SUCCESS, w', ctx') ->
  stream_ok w' ctx'.
Proof.
  unfold reader_open.
  destruct (strtok_tokens EmptyString args) as [| name argv]; [discriminate |].
  destruct (Z.of_nat (List.length argv) >? 7); [discriminate |].
  destruct (find (fun e => String.eqb name (fst e)) READERS) as [[nm r] |];
    [| discriminate].
  destruct r; cbn [reader_open_fn].
  - (* ram *)
    intros H. apply ram_open_success in H.
    destruct H as (Hr & Hcur & Hlen & Hst & Hc & Hce). cbn in Hr.
    unfold stream_ok. rewrite Hr, Hcur, Hc, Hce.
    split; [discriminate |]. split; [apply is_u64_0 |]. split; [exact Hlen |].
    split; [intros _; auto using is_u64_0 | discriminate].
  - (* acpi *)
    unfold acpi_open.
    destruct (negb (Z.of_nat (List.length argv) =? 1)); [discriminate |].
    destruct (get_acpi_table fw) as [ret table_length].
    destruct (EFI_ERROR ret) eqn:Herr; [destruct ret; discriminate |].
    intros H; inversion H; subst; clear H. unfold stream_ok. cbn.
    split; [discriminate |]. split; [apply is_u64_0 |].
    split; [apply u32_is_u64 |]. split; discriminate.
  - (* part *)
    unfold part_open.
    destruct ((Z.of_nat (List.length argv) <? 1) || (Z.of_nat (List.length argv) >? 3));
      [discriminate |].
    destruct (negb (AllocatePool_ok fw)); [discriminate |].
    destruct (negb (stra_to_str_ok fw)); [discriminate |].
    destruct (gpt_get_partition_by_label fw) as [ret g].
    destruct (EFI_ERROR ret) eqn:Herr; [cbn; destruct ret; discriminate |].
    apply EFI_ERROR_false in Herr. subst ret.
    match goal with |- context [if ?c then (error_or_invalid _, _, _) else _] =>
      destruct c; [discriminate |] end.
    match goal with |- context [if ?c then (error_or_invalid _, _, _) else _] =>
      destruct c; [discriminate |] end.
    intros H; inversion H; subst; clear H. unfold stream_ok.
    split; [cbn; destruct (Z.of_nat (List.length argv) =? 3);
            destruct (Z.of_nat (List.length argv) >? 1); discriminate |].
    split; [destruct (Z.of_nat (List.length argv) =? 3);
            destruct (Z.of_nat (List.length argv) >? 1); cbn;
            auto using is_u64_0, u64_range |].
    split; [destruct (Z.of_nat (List.length argv) =? 3);
            destruct (Z.of_nat (List.length argv) >? 1); cbn;
            auto using is_u64_0, u64_range |].
    split.
    + destruct (Z.of_nat (List.length argv) =? 3);
        destruct (Z.of_nat (List.length argv) >? 1); cbn; discriminate.
    + intros _. eexists. split; [reflexivity |]. cbn.
      split; [apply is_u64_0 |]. split; [apply is_u64_0 | discriminate].
  - (* efivar *)
    unfold efivar_open.
    destruct (negb (Z.of_nat (List.length argv) =? 1)
              && negb (Z.of_nat (List.length argv) =? 2)); [discriminate |].
    destruct ((Z.of_nat (List.length argv) =? 2) && EFI_ERROR (stra_to_guid fw)) eqn:Hg.
    { apply andb_true_iff in Hg. destruct Hg as [_ Hg].
      destruct (stra_to_guid fw); discriminate. }
    destruct (negb (stra_to_str_ok fw)); [discriminate |].
    cbv zeta.
    match goal with |- context [if ?c then efivar_find_call ?a ?b ?d else ?e] =>
      destruct (if c then efivar_find_call a b d else e) as [ret0 w0] end.
    destruct (EFI_ERROR ret0) eqn:Herr0; [destruct ret0; discriminate |].
    destruct (get_efi_variable fw) as [ret size].
    destruct (EFI_ERROR ret) eqn:Herr; [destruct ret; discriminate |].
    intros H; inversion H; subst; clear H. unfold stream_ok. cbn.
    split; [discriminate |]. split; [apply is_u64_0 |].
    split; [apply u64_range |]. split; discriminate.
Qed.

(** After [reader_open] the cursor is not past the length, but on a
    partition stream opened with an offset and a length. *)
Lemma reader_open_cursor w ctx args fw w' ctx' :
  reader_open strtoul16 w ctx args fw = (EFI_SUCCESS, w', ctx') ->
  ctx_cur ctx' <= ctx_len ctx' \/
  (ctx_reader ctx' = Some READER_part /\
   List.length (strtok_tokens EmptyString args) = 4%nat).
Proof.
  unfold reader_open.
  destruct (strtok_tokens EmptyString args) as [| name argv]; [discriminate |].
  destruct (Z.of_nat (List.length argv) >? 7); [discriminate |].
  destruct (find (fun e => String.eqb name (fst e)) READERS) as [[nm r] |];
    [| discriminate].
  destruct r; cbn [reader_open_fn].
  - (* ram *)
    intros H. apply ram_open_success in H. destruct H as (_ & Hcur & Hlen & _).
    left. rewrite Hcur. unfold is_u64 in Hlen. lia.
  - (* acpi *)
    unfold acpi_open.
    destruct (negb (Z.of_nat (List.length argv) =? 1)); [discriminate |].
    destruct (get_acpi_table fw) as [ret table_length].
    destruct (EFI_ERROR ret) eqn:Herr; [destruct ret; discriminate |].
    intros H; inversion H; subst; clear H. left. cbn.
    pose proof (u32_is_u64 table_length) as Hu. unfold is_u64 in Hu. lia.
  - (* part *)
    unfold part_open.
    destruct ((Z.of_nat (List.length argv) <? 1) || (Z.of_nat (List.length argv) >? 3));
      [discriminate |].
    destruct (negb (AllocatePool_ok fw)); [discriminate |].
    destruct (negb (stra_to_str_ok fw)); [discriminate |].
    destruct (gpt_get_partition_by_label fw) as [ret g].
    destruct (EFI_ERROR ret) eqn:Herr; [cbn; destruct ret; discriminate |].
    cbv zeta.
    destruct (Z.of_nat (List.length argv) =? 3) eqn:H3;
      destruct (Z.of_nat (List.length argv) >? 1) eqn:H1;
      cbn [andb set_ctx_len set_ctx_cur set_ctx_private set_ctx_reader
           ctx_cur ctx_len ctx_reader ctx_private].
    + match goal with |- context [if ?c then (error_or_invalid _, _, _) else _] =>
        destruct c; [cbn; destruct ret; discriminate |] end.
      match goal with |- context [if ?c then (error_or_invalid _, _, _) else _] =>
        destruct c; [cbn; destruct ret; discriminate |] end.
      intros H; inversion H; subst; clear H. right. cbn.
      split; [reflexivity |]. apply Z.eqb_eq in H3. lia.
    + match goal with |- context [if ?c then (error_or_invalid _, _, _) else _] =>
        destruct c; [cbn; destruct ret; discriminate |] end.
      intros H; inversion H; subst; clear H. right. cbn.
      split; [reflexivity |]. apply Z.eqb_eq in H3. lia.
    + match goal with |- context [if ?c then (error_or_invalid _, _, _) else _] =>
        destruct c eqn:Hc; [cbn; destruct ret; discriminate |] end.
      intros H; inversion H; subst; clear H. left. cbn.
      rewrite Z.geb_leb in Hc. apply Z.leb_gt in Hc. lia.
    + intros H; inversion H; subst; clear H. left. cbn.
      pose proof (u64_range (u64 (ending_lba g + 1 - starting_lba g) * BlockSize g)) as Hu.
      unfold is_u64 in Hu. lia.
  - (* efivar *)
    unfold efivar_open.
    destruct (negb (Z.of_nat (List.length argv) =? 1)
              && negb (Z.of_nat (List.length argv) =? 2)); [discriminate |].
    destruct ((Z.of_nat (List.length argv) =? 2) && EFI_ERROR (stra_to_guid fw)) eqn:Hg.
    { apply andb_true_iff in Hg. destruct Hg as [_ Hg].
      destruct (stra_to_guid fw); discriminate. }
    destruct (negb (stra_to_str_ok fw)); [discriminate |].
    cbv zeta.
    match goal with |- context [if ?c then efivar_find_call ?a ?b ?d else ?e] =>
      destruct (if c then efivar_find_call a b d else e) as [ret0 w0] end.
    destruct (EFI_ERROR ret0) eqn:Herr0; [destruct ret0; discriminate |].
    destruct (get_efi_variable fw) as [ret size].
    destruct (EFI_ERROR ret) eqn:Herr; [destruct ret; discriminate |].
    intros H; inversion H; subst; clear H. left. cbn.
    pose proof (u64_range size) as Hu. unfold is_u64 in Hu. lia.
Qed.

Lemma stream_ok_set_cur w ctx v :
  stream_ok w ctx -> is_u64 v -> stream_ok w (set_ctx_cur v ctx).
Proof.
  unfold stream_ok. cbn. tauto.
Qed.

Lemma min_is_u64 a b : is_u64 a -> is_u64 b -> is_u64 (Z.min a b).
Proof. unfold is_u64. lia. Qed.

(** What the [read] of a reader does to an opened context when asked
    for [len >= 1] bytes, no more than the stream has left. *)
Lemma reader_read_fn_spec r w ctx len fw :
  stream_ok w ctx -> ctx_reader ctx = Some r ->
  0 < len <= u64 (ctx_len ctx - ctx_cur ctx) ->
  let res := reader_read_fn r w ctx len fw in
  stream_ok (rr_world res) (rr_ctx res) /\
  ctx_cur (rr_ctx res) = ctx_cur ctx /\ ctx_len (rr_ctx res) = ctx_len ctx /\
  (rr_status res = EFI_SUCCESS -> 1 <= rr_len res <= len).
Proof.
  intros Hok Hr Hlen. cbv zeta.
  pose proof Hok as (Hnone & Hcur & Hl & Hram & Hpart).
  destruct r; cbn [reader_read_fn].
  - (* ram_read *)
    destruct (Hram Hr) as (Hst & Hc & Hce). unfold ram_read.
    destruct (ctx_cur ctx =? 0).
    { destruct (len <? sizeof_sparse_header) eqn:Hroom; cbn.
      - split; [exact Hok |]. split; [reflexivity |]. split; [reflexivity | discriminate].
      - apply Z.ltb_ge in Hroom. unfold sizeof_sparse_header in *.
        split; [| split; [reflexivity | split; [reflexivity | lia]]].
        unfold stream_ok. cbn. tauto. }
    destruct (cur (ram w) =? cur_end (ram w)) eqn:Hbound.
    { destruct ((cur_chunk (ram w) =? chunk_nb (ram w)) || (len <? sizeof_chunk_header))
        eqn:Hroom; cbn.
      - split; [exact Hok |]. split; [reflexivity |]. split; [reflexivity | discriminate].
      - apply orb_false_iff in Hroom. destruct Hroom as [_ Hroom].
        apply Z.ltb_ge in Hroom. unfold sizeof_chunk_header in *.
        split; [| split; [reflexivity | split; [reflexivity | lia]]].
        unfold stream_ok. cbn.
        split; [exact Hnone |]. split; [exact Hcur |]. split; [exact Hl |].
        split; [| exact Hpart].
        intros _.
        destruct (negb (chunk_type (array_get (chunks (ram w)) (cur_chunk (ram w)))
                        =? CHUNK_TYPE_RAW)); cbn; auto using u64_range. }
    apply Z.eqb_neq in Hbound. cbn.
    assert (Hpos : u64 (cur_end (ram w) - cur (ram w)) <> 0).
    { intros H0. apply (proj1 (u64_sub_zero _ _ Hc Hce)) in H0. contradiction. }
    pose proof (u64_range (cur_end (ram w) - cur (ram w))) as Hrg. unfold is_u64 in Hrg.
    split; [| split; [reflexivity | split; [reflexivity | lia]]].
    unfold stream_ok. cbn.
    split; [exact Hnone |]. split; [exact Hcur |]. split; [exact Hl |].
    split; [| exact Hpart]. intros _. auto using u64_range.
  - (* read_from_private *)
    cbn. split; [exact Hok |]. split; [reflexivity |]. split; [reflexivity | lia].
  - (* part_read *)
    destruct (Hpart Hr) as (p & Hp & Hbc & Hbl & Hdrain).
    unfold part_read. rewrite Hp.
    assert (Hnew : is_u64 (Z.min PART_READER_BUF_SIZE (u64 (ctx_len ctx - ctx_cur ctx)))).
    { apply min_is_u64; [unfold is_u64, PART_READER_BUF_SIZE; lia | apply u64_range]. }
    destruct (need_more_data p && EFI_ERROR (ReadDisk fw)) eqn:Hio.
    { cbn. split; [| split; [reflexivity | split; [reflexivity |]]].
      - unfold stream_ok. cbn.
        split; [exact Hnone |]. split; [exact Hcur |]. split; [exact Hl |].
        split; [exact Hram |]. intros _. eexists. split; [reflexivity |]. cbn.
        split; [exact Hbc |]. split; [exact Hnew | discriminate].
      - intros Hs. apply andb_true_iff in Hio. destruct Hio as [_ Hio].
        rewrite Hs in Hio. discriminate. }
    cbn [rr_status rr_world rr_ctx rr_len].
    set (q := if need_more_data p
              then set_buf 0 (Z.min PART_READER_BUF_SIZE (u64 (ctx_len ctx - ctx_cur ctx)))
                     false p
              else p).
    assert (Hq : is_u64 (buf_cur q) /\ is_u64 (buf_len q) /\
                 u64 (buf_len q - buf_cur q) <> 0 /\
                 (need_more_data q = false)).
    { subst q. destruct (need_more_data p) eqn:Hmore; cbn.
      - split; [apply is_u64_0 |]. split; [exact Hnew |]. split; [| reflexivity].
        rewrite Z.sub_0_r, u64_small by exact Hnew.
        pose proof (u64_range (ctx_len ctx - ctx_cur ctx)) as Hrg.
        unfold is_u64, PART_READER_BUF_SIZE in *. lia.
      - split; [exact Hbc |]. split; [exact Hbl |]. split; [| exact Hmore].
        intros H0. apply (proj1 (u64_sub_zero _ _ Hbc Hbl)) in H0.
        apply (Hdrain eq_refl). exact H0. }
    destruct Hq as (Hq1 & Hq2 & Hq3 & Hq4).
    pose proof (u64_range (buf_len q - buf_cur q)) as Hrg. unfold is_u64 in Hrg.
    split; [| split; [reflexivity | split; [reflexivity | intros _; lia]]].
    unfold stream_ok. cbn.
    split; [exact Hnone |]. split; [exact Hcur |]. split; [exact Hl |].
    split; [exact Hram |]. intros _. eexists. split; [reflexivity |]. cbn.
    split; [apply u64_range |]. split; [exact Hq2 |].
    destruct (u64 (buf_cur q + Z.min len (u64 (buf_len q - buf_cur q))) =? buf_len q)
      eqn:Hfull; [discriminate |].
    intros _. apply Z.eqb_neq. exact Hfull.
  - cbn. split; [exact Hok |]. split; [reflexivity |]. split; [reflexivity | lia].
Qed.

(** What [reader_read] does to an opened context. *)
Lemma reader_read_spec w ctx len fw :
  stream_ok w ctx -> is_u64 len ->
  let r := reader_read w ctx len fw in
  let avail := u64 (ctx_len ctx - ctx_cur ctx) in
  stream_ok (rr_world r) (rr_ctx r) /\
  (rr_status r = EFI_SUCCESS ->
     0 <= rr_len r <= Z.min len avail /\
     ctx_cur (rr_ctx r) = u64 (ctx_cur ctx + rr_len r) /\
     ctx_len (rr_ctx r) = ctx_len ctx /\
     (rr_len r = 0 <-> ctx_cur ctx = ctx_len ctx)) /\
  (ctx_cur ctx = ctx_len ctx -> len <> 0 ->
     rr_status r = EFI_SUCCESS /\ rr_len r = 0 /\ rr_ctx r = ctx /\ rr_world r = w) /\
  (len = 0 -> rr_status r = EFI_INVALID_PARAMETER) /\
  (rr_status r <> EFI_SUCCESS ->
     ctx_cur (rr_ctx r) = ctx_cur ctx /\ ctx_len (rr_ctx r) = ctx_len ctx).
Proof.
  intros Hok Hlen. cbv zeta.
  pose proof Hok as (Hnone & Hcur & Hl & _).
  pose proof (u64_range (ctx_len ctx - ctx_cur ctx)) as Hav.
  pose proof (u64_sub_zero _ _ Hcur Hl) as Hex.
  unfold reader_read.
  destruct (ctx_reader ctx) as [r |] eqn:Hr; [| contradiction].
  destruct (len =? 0) eqn:Hz.
  { apply Z.eqb_eq in Hz. cbn.
    split; [exact Hok |]. split; [discriminate |].
    split; [intros _ H; contradiction |].
    split; [reflexivity | intros _; split; reflexivity]. }
  apply Z.eqb_neq in Hz.
  destruct (Z.min len (u64 (ctx_len ctx - ctx_cur ctx)) =? 0) eqn:Hm.
  { apply Z.eqb_eq in Hm. cbn.
    assert (Hdone : u64 (ctx_len ctx - ctx_cur ctx) = 0)
      by (unfold is_u64 in *; lia).
    split; [exact Hok |]. split; [| split].
    - intros _. rewrite Hdone. rewrite Z.add_0_r, u64_small by exact Hcur.
      split; [unfold is_u64 in *; lia |]. split; [reflexivity |].
      split; [reflexivity |]. split; [intros _; apply Hex; exact Hdone | reflexivity].
    - intros _ _. tauto.
    - split; [intros H; contradiction | intros H; exfalso; apply H; reflexivity]. }
  apply Z.eqb_neq in Hm.
  assert (Hclip : 0 < Z.min len (u64 (ctx_len ctx - ctx_cur ctx))
                  <= u64 (ctx_len ctx - ctx_cur ctx))
    by (unfold is_u64 in *; lia).
  pose proof (reader_read_fn_spec r w ctx _ fw Hok Hr Hclip) as Hfn.
  cbv zeta in Hfn. destruct Hfn as (Hok' & Hc' & Hl' & Hn').
  destruct (EFI_ERROR (rr_status (reader_read_fn r w ctx
              (Z.min len (u64 (ctx_len ctx - ctx_cur ctx))) fw))) eqn:Herr.
  { split; [exact Hok' |]. split; [| split].
    - intros Hs. rewrite Hs in Herr. discriminate.
    - intros Hdone _. exfalso. apply Hex in Hdone. unfold is_u64 in *. lia.
    - split; [intros H; contradiction | intros _; split; [exact Hc' | exact Hl']]. }
  apply EFI_ERROR_false in Herr. specialize (Hn' Herr).
  cbn [rr_status rr_world rr_ctx rr_len].
  split; [apply stream_ok_set_cur; [exact Hok' | apply u64_range] |].
  split; [| split].
  - intros _. cbn. rewrite Hc'.
    split; [lia |]. split; [reflexivity |]. split; [exact Hl' |].
    split; [lia |]. intros Hdone. apply Hex in Hdone. unfold is_u64 in *. lia.
  - intros Hdone _. exfalso. apply Hex in Hdone. unfold is_u64 in *. lia.
  - split; [intros H; contradiction | intros H; exfalso; apply H; reflexivity].
Qed.

Lemma opened_stream_ok w ctx : opened strtoul16 w ctx -> stream_ok w ctx.
Proof.
  induction 1 as [w ctx args fw w' ctx' Hopen | w ctx len fw Hop IH Hlen].
  - eapply reader_open_ok. exact Hopen.
  - pose proof (reader_read_spec w ctx len fw IH Hlen) as Hspec.
    cbv zeta in Hspec. apply Hspec.
Qed.

(** C4 (as amended): on an opened context whose cursor is not past its
    length ([ctx.cur <= ctx.len]), a [reader_read] that succeeds returns
    [n] bytes with [n <= min(len, ctx.len - ctx.cur)] and advances
    [ctx.cur] by exactly [n], leaving [ctx.len] alone; [n == 0] exactly
    when the stream is exhausted ([ctx.cur == ctx.len]).  After
    exhaustion a read that offers room ([len != 0]) returns 0 bytes with
    [EFI_SUCCESS] and changes nothing; a read that offers none
    ([len == 0]) fails with [EFI_INVALID_PARAMETER], exhausted or not.
    Whatever its status, the read leaves the cursor not past the
    length. *)
Theorem reader_read_contract w ctx len fw :
  opened strtoul16 w ctx -> is_u64 len -> ctx_cur ctx <= ctx_len ctx ->
  let r := reader_read w ctx len fw in
  (rr_status r = EFI_SUCCESS ->
     0 <= rr_len r <= Z.min len (ctx_len ctx - ctx_cur ctx) /\
     ctx_cur (rr_ctx r) = ctx_cur ctx + rr_len r /\
     ctx_len (rr_ctx r) = ctx_len ctx /\
     (rr_len r = 0 <-> ctx_cur ctx = ctx_len ctx)) /\
  (ctx_cur ctx = ctx_len ctx -> len <> 0 ->
     rr_status r = EFI_SUCCESS /\ rr_len r = 0 /\ rr_ctx r = ctx /\ rr_world r = w) /\
  (len = 0 -> rr_status r = EFI_INVALID_PARAMETER) /\
  ctx_cur (rr_ctx r) <= ctx_len (rr_ctx r).
Proof.
  intros Hop Hlen Hle. cbv zeta.
  pose proof (opened_stream_ok w ctx Hop) as Hok.
  pose proof (reader_read_spec w ctx len fw Hok Hlen) as Hspec.
  cbv zeta in Hspec. destruct Hspec as (_ & Hsucc & Hdone & Hzero & Hfail).
  destruct Hok as (_ & Hc & Hl' & _).
  assert (Hav : u64 (ctx_len ctx - ctx_cur ctx) = ctx_len ctx - ctx_cur ctx)
    by (apply u64_small; unfold is_u64 in *; lia).
  rewrite Hav in Hsucc.
  assert (Hplain : rr_status (reader_read w ctx len fw) = EFI_SUCCESS ->
            0 <= rr_len (reader_read w ctx len fw)
              <= Z.min len (ctx_len ctx - ctx_cur ctx) /\
            ctx_cur (rr_ctx (reader_read w ctx len fw))
            = ctx_cur ctx + rr_len (reader_read w ctx len fw) /\
            ctx_len (rr_ctx (reader_read w ctx len fw)) = ctx_len ctx /\
            (rr_len (reader_read w ctx len fw) = 0 <-> ctx_cur ctx = ctx_len ctx)).
  { intros Hs. destruct (Hsucc Hs) as (Hn & Hcur & Hl & Hiff).
    split; [exact Hn |]. split; [| split; [exact Hl | exact Hiff]].
    rewrite Hcur. apply u64_small. unfold is_u64 in *. lia. }
  split; [exact Hplain |]. split; [exact Hdone |]. split; [exact Hzero |].
  destruct (rr_status (reader_read w ctx len fw)) eqn:Hs;
    try (destruct Hfail as [Hfc Hfl]; [discriminate | rewrite Hfc, Hfl; exact Hle]).
  destruct (Hplain eq_refl) as (Hn & Hcur & Hl & _). rewrite Hcur, Hl. lia.
Qed.

End ReaderFacts.

(** ** Runs of the streams *)

Local Open Scope string_scope.

Lemma is_u64_8192 : is_u64 8192.
Proof. unfold is_u64. lia. Defined.

Lemma opened_ctx_open : opened hex_strtoul w_open ctx_open.
Proof.
  apply (opened_by_open hex_strtoul world0 ctx0 "ram" fw_one_page).
  vm_compute. reflexivity.
Defined.

Lemma opened_ctx_read1 : opened hex_strtoul w_read1 ctx_read1.
Proof.
  apply opened_after_read; [| exact is_u64_8192].
  exact opened_ctx_open.
Defined.

Lemma opened_ctx_read3 : opened hex_strtoul w_read3 ctx_read3.
Proof.
  repeat (apply opened_after_read; [| exact is_u64_8192]).
  exact opened_ctx_open.
Defined.

(** The three states on the stream above: the first read returns the 28
    bytes of the header, the second the 12 bytes of chunk 0 and sets
    [cur_end = 0 + 1 * 4096], the third the 4096 bytes at address 0. *)
Lemma ram_read_three_states_run :
  (rr_status (ram_read w_open ctx_open 8192) = EFI_SUCCESS /\
   rr_buf (ram_read w_open ctx_open 8192) = buf_sheader /\
   rr_len (ram_read w_open ctx_open 8192) = 28) /\
  (rr_status (ram_read w_read1 ctx_read1 8192) = EFI_SUCCESS /\
   rr_buf (ram_read w_read1 ctx_read1 8192) = buf_chunk 0 /\
   rr_len (ram_read w_read1 ctx_read1 8192) = 12 /\
   cur_end (ram (rr_world (ram_read w_read1 ctx_read1 8192))) = 4096) /\
  (rr_status (ram_read w_read2 ctx_read2 8192) = EFI_SUCCESS /\
   rr_len (ram_read w_read2 ctx_read2 8192) = 4096 /\
   rr_buf (ram_read w_read2 ctx_read2 8192) = buf_phys 0 /\
   cur (ram (rr_world (ram_read w_read2 ctx_read2 8192))) = 4096).
Proof.
  split; [| split].
  - pose proof (proj1 (ram_read_three_states w_open ctx_open 8192)) as H.
    cbv zeta in H.
    destruct (proj2 (H eq_refl) ltac:(vm_compute; discriminate))
      as (H1 & H2 & H3 & _).
    exact (conj H1 (conj H2 H3)).
  - pose proof (proj1 (proj2 (ram_read_three_states w_read1 ctx_read1 8192))) as H.
    cbv zeta in H.
    destruct (proj2 (proj2 (H ltac:(vm_compute; discriminate) eq_refl))
                ltac:(vm_compute; discriminate) ltac:(vm_compute; discriminate))
      as (H1 & H2 & H3 & _ & _ & H6 & _).
    exact (conj H1 (conj H2 (conj H3 H6))).
  - pose proof (proj2 (proj2 (ram_read_three_states w_read2 ctx_read2 8192))) as H.
    cbv zeta in H.
    destruct (H ltac:(vm_compute; discriminate) ltac:(vm_compute; discriminate))
      as (H1 & H2 & H3 & H4 & _).
    exact (conj H1 (conj H2 (conj H3 H4))).
Defined.

(** C4, the claim as stated fails.  The stream above is exhausted after
    its three reads, and a [reader_read] on it with [len == 0] returns
    [EFI_INVALID_PARAMETER], not 0 bytes with success.  And the stream
    [part:boot:800:400], on a partition of 8 blocks of 512 bytes, is
    opened with [ctx.cur] 0x800 past [ctx.len] 0x400: its first read,
    with room for 4096 bytes, succeeds with 4096 bytes, more than
    [min(len, ctx.len - ctx.cur)], and moves [ctx.cur] further past
    [ctx.len]. *)
Lemma reader_read_contract_as_stated_fails :
  (opened hex_strtoul w_read3 ctx_read3 /\
   ctx_cur ctx_read3 = ctx_len ctx_read3 /\
   rr_status (reader_read w_read3 ctx_read3 0 fw_one_page) = EFI_INVALID_PARAMETER) /\
  (let fw := firmware_with_partition gpt8 in
   let o := reader_open hex_strtoul world0 ctx0 "part:boot:800:400" fw in
   let r := reader_read (snd (fst o)) (snd o) 4096 fw in
   fst (fst o) = EFI_SUCCESS /\
   opened hex_strtoul (snd (fst o)) (snd o) /\
   ctx_cur (snd o) = 0x800 /\ ctx_len (snd o) = 0x400 /\
   rr_status r = EFI_SUCCESS /\ rr_len r = 4096 /\
   Z.min 4096 (ctx_len (snd o) - ctx_cur (snd o)) = - 0x400 /\
   ctx_cur (rr_ctx r) = 0x1800 /\ ctx_len (rr_ctx r) = 0x400).
Proof.
  split.
  - split; [exact opened_ctx_read3 |]. vm_compute. split; reflexivity.
  - cbv zeta. split; [vm_compute; reflexivity |].
    split.
    { apply (opened_by_open hex_strtoul world0 ctx0 "part:boot:800:400"
               (firmware_with_partition gpt8)).
      vm_compute. reflexivity. }
    vm_compute. repeat split; reflexivity.
Qed.

(** C4, on the stream above: its second read, with room for 8192 bytes,
    returns the 12 bytes of the chunk header and moves [ctx.cur] from 28
    to 40; exhausted, the stream answers a read of 8192 bytes with 0
    bytes and [EFI_SUCCESS]. *)
Lemma reader_read_contract_run :
  (rr_status (reader_read w_read1 ctx_read1 8192 fw_one_page) = EFI_SUCCESS /\
   rr_len (reader_read w_read1 ctx_read1 8192 fw_one_page) = 12 /\
   ctx_cur ctx_read1 = 28 /\
   ctx_cur (rr_ctx (reader_read w_read1 ctx_read1 8192 fw_one_page))
   = ctx_cur ctx_read1 + rr_len (reader_read w_read1 ctx_read1 8192 fw_one_page)) /\
  (rr_status (reader_read w_read3 ctx_read3 8192 fw_one_page) = EFI_SUCCESS /\
   rr_len (reader_read w_read3 ctx_read3 8192 fw_one_page) = 0 /\
   rr_ctx (reader_read w_read3 ctx_read3 8192 fw_one_page) = ctx_read3 /\
   rr_world (reader_read w_read3 ctx_read3 8192 fw_one_page) = w_read3).
Proof.
  split.
  - pose proof (proj1 (reader_read_contract hex_strtoul w_read1 ctx_read1 8192
                         fw_one_page opened_ctx_read1 is_u64_8192
                         ltac:(vm_compute; discriminate))
                  ltac:(vm_compute; reflexivity)) as (_ & Hcur & _).
    split; [vm_compute; reflexivity |]. split; [vm_compute; reflexivity |].
    split; [vm_compute; reflexivity | exact Hcur].
  - refine (proj1 (proj2 (reader_read_contract hex_strtoul w_read3 ctx_read3 8192
                            fw_one_page opened_ctx_read3 is_u64_8192 _)) _ _).
    + vm_compute. discriminate.
    + vm_compute. reflexivity.
    + discriminate.
Defined.

(** C6, the claim as stated fails: the window given by the arguments [0]
    and [0] has [start == end] (both 0), and [ram_open] succeeds on it,
    with the plan of the whole map; so it does on the window
    [start == end == 0x1000] inside a descriptor, with one empty chunk. *)
Lemma ram_open_accepts_empty_window :
  let fw := firmware_with_map (conventional 0 4) [] in
  (let r := ram_open hex_strtoul world0 ctx0 ["0"; "0"] fw in
   ram_parse_argv hex_strtoul ["0"; "0"] (set_is_in_used true zero_ram_priv)
     = (true, set_is_in_used true zero_ram_priv) /\
   start (set_is_in_used true zero_ram_priv) = end_ (set_is_in_used true zero_ram_priv) /\
   fst (fst r) = EFI_SUCCESS /\
   plan_shape (ram (snd (fst r))) = [(CHUNK_TYPE_RAW, 4)]) /\
  (let r := ram_open hex_strtoul world0 ctx0 ["1000"; "0"] fw in
   fst (fst r) = EFI_SUCCESS /\
   start (ram (snd (fst r))) = 0x1000 /\ end_ (ram (snd (fst r))) = 0x1000 /\
   plan_shape (ram (snd (fst r))) = [(CHUNK_TYPE_RAW, 0)]).
Proof. vm_compute. repeat split; reflexivity. Qed.

(** C6, on a run: the window starting at 0x1001 is refused with
    [EFI_INVALID_PARAMETER] and the flag is left clear. *)
Lemma ram_open_rejects_misaligned_run :
  let r := ram_open hex_strtoul world0 ctx0 ["1001"]
             (firmware_with_map (conventional 0 4) []) in
  fst (fst r) = EFI_INVALID_PARAMETER /\ is_in_used (ram (snd (fst r))) = false.
Proof.
  refine (proj1 (ram_open_rejects_misaligned hex_strtoul world0 ctx0
                   (firmware_with_map (conventional 0 4) []))
            ["1001"] (set_end 0 (set_start 0x1001 (set_is_in_used true zero_ram_priv)))
            _ _ _ _).
  - reflexivity.
  - cbn. lia.
  - vm_compute. reflexivity.
  - left. vm_compute. discriminate.
Defined.

(** C7, the claim as stated fails: in the map {0x0, 2 pages},
    {0x3000, 2 pages}, {0x4000, 2 pages} the last descriptor starts before
    the one before it ends, and [ram_open] on the window [0, 0x1000)
    succeeds: the walk stops at the first descriptor. *)
Lemma ram_open_overlap_past_window :
  let d := conventional 0 2 in
  let ds := [conventional 0x3000 2; conventional 0x4000 2] in
  let r := ram_open hex_strtoul world0 ctx0 ["0"; "1000"] (firmware_with_map d ds) in
  sort_memory_map (d :: ds) 3 = d :: ds /\
  PhysicalStart (conventional 0x4000 2) < entry_end (conventional 0x3000 2) /\
  fst (fst r) = EFI_SUCCESS /\
  plan_shape (ram (snd (fst r))) = [(CHUNK_TYPE_RAW, 1)].
Proof. vm_compute. repeat split; reflexivity. Qed.

(** C7, on a run: the firmware lists {0x2000, 4 pages} before
    {0x0, 4 pages}; sorted, the second starts at 0x2000 before the first
    ends at 0x4000, and [ram_open] without arguments fails with
    [EFI_INVALID_PARAMETER]. *)
Lemma ram_open_overlap_on_walk_run :
  fst (fst (ram_open hex_strtoul world0 ctx0 []
              (firmware_with_map (conventional 0x2000 4) [conventional 0 4])))
  = EFI_INVALID_PARAMETER.
Proof.
  refine (proj2 (ram_open_overlap_on_walk hex_strtoul world0 ctx0 []
                   (firmware_with_map (conventional 0x2000 4) [conventional 0 4])
                   (set_end 0 (set_is_in_used true zero_ram_priv))
                   (conventional 0x2000 4) [conventional 0 4]
                   [] (conventional 0 4) (conventional 0x2000 4) []
                   _ _ _ _ _ _ _ _ _ _) _).
  - reflexivity.
  - cbn. lia.
  - reflexivity.
  - reflexivity.
  - reflexivity.
  - reflexivity.
  - vm_compute. reflexivity.
  - vm_compute. reflexivity.
  - vm_compute. reflexivity.
  - left. reflexivity.
  - cbn. lia.
Defined.

(** C10, the claim as stated fails.  While a RAM stream is open, a
    second [ram_open] with three arguments fails with
    [EFI_INVALID_PARAMETER], not [EFI_UNSUPPORTED].  And a [ram_close] on
    a context that is not the one of the open stream lets a second
    stream in: [ram_open] on the window starting at 0x1001 fails and
    leaves its context on the static region; a stream is then opened;
    [ram_close] on the context of the failed call clears the flag, and a
    further [ram_open] succeeds while the stream opened before it was
    not closed. *)
Lemma ram_singleton_as_stated_fails :
  (fst (fst (ram_open hex_strtoul world0 ctx0 [] fw_one_page)) = EFI_SUCCESS /\
   is_in_used (ram w_ram_open) = true /\
   fst (fst (ram_open hex_strtoul w_ram_open ctx0 ["0"; "1000"; "2000"] fw_one_page))
   = EFI_INVALID_PARAMETER) /\
  (let failed := ram_open hex_strtoul world0 ctx0 ["1001"] fw_one_page in
   let first := ram_open hex_strtoul (snd (fst failed)) ctx0 [] fw_one_page in
   fst (fst failed) = EFI_INVALID_PARAMETER /\
   ctx_private (snd failed) = priv_ram /\
   fst (fst first) = EFI_SUCCESS /\
   is_in_used (ram (snd (fst first))) = true /\
   exists w,
     ram_close (snd (fst first)) (snd failed) = Some w /\
     is_in_used (ram w) = false /\
     fst (fst (ram_open hex_strtoul w ctx0 [] fw_one_page)) = EFI_SUCCESS).
Proof.
  split.
  - vm_compute. repeat split; reflexivity.
  - cbv zeta.
    split; [vm_compute; reflexivity |]. split; [vm_compute; reflexivity |].
    split; [vm_compute; reflexivity |]. split; [vm_compute; reflexivity |].
    eexists. split; [vm_compute; reflexivity |].
    split; vm_compute; reflexivity.
Qed.

(** C10, on a run: while the stream is open a second [ram_open] with
    one argument fails with [EFI_UNSUPPORTED] and changes nothing; the
    stream is closed by [ram_close] on its context; and the calls open,
    open, close of the open stream, open, from a clear flag, all have a
    result and leave one stream open. *)
Lemma ram_singleton_run :
  ram_open hex_strtoul w_ram_open ctx0 ["0"] fw_one_page
    = (EFI_UNSUPPORTED, w_ram_open, ctx0) /\
  (exists w',
     ram_close w_ram_open (snd (ram_open hex_strtoul world0 ctx0 [] fw_one_page))
     = Some w' /\ is_in_used (ram w') = false) /\
  (exists s,
     ram_run hex_strtoul
       [call_open ctx0 [] fw_one_page; call_open ctx0 ["0"] fw_one_page;
        call_close 0; call_open ctx0 [] fw_one_page] (world0, [])
     = Some s /\ flag_counts s).
Proof.
  split; [| split].
  - exact (proj1 (ram_singleton hex_strtoul) w_ram_open ctx0 ["0"] fw_one_page eq_refl).
  - exact (proj1 (proj2 (proj2 (proj2 (ram_singleton hex_strtoul)))) w_ram_open _
             (proj1 (proj2 (proj2 (ram_singleton hex_strtoul)))
                world0 ctx0 [] fw_one_page eq_refl)).
  - exact (proj2 (proj2 (proj2 (proj2 (ram_singleton hex_strtoul)))) _ world0 eq_refl).
Defined.

Local Close Scope string_scope.

(** ** The plan and the sparse header *)

Lemma u32_range x : is_u32 (u32 x).
Proof. unfold is_u32, u32. apply Z.mod_pos_bound. reflexivity. Qed.

Lemma u32_small x : is_u32 x -> u32 x = x.
Proof. unfold is_u32, u32. intros H. apply Z.mod_small. exact H. Qed.

Lemma u32_u64 x : u32 (u64 x) = u32 x.
Proof.
  unfold u32, u64. change (2 ^ 64) with (2 ^ 32 * 2 ^ 32).
  rewrite Z.rem_mul_r by lia.
  rewrite (Z.mul_comm (2 ^ 32) ((x / 2 ^ 32) mod 2 ^ 32)).
  rewrite Z.mod_add by lia.
  apply Z.mod_mod. lia.
Qed.

Lemma u32_add x y : u32 (x + y) = u32 (u32 x + u32 y).
Proof. unfold u32. apply Z.add_mod. lia. Qed.

Lemma u32_add_l x y : u32 (u32 x + y) = u32 (x + y).
Proof. unfold u32. apply Z.add_mod_idemp_l. lia. Qed.

Lemma u32_add_r x y : u32 (x + u32 y) = u32 (x + y).
Proof. unfold u32. apply Z.add_mod_idemp_r. lia. Qed.

Lemma u32_mul_l x y : u32 (u32 x * y) = u32 (x * y).
Proof. unfold u32. apply Z.mul_mod_idemp_l. lia. Qed.

Lemma sum_Z_snoc {A : Type} (f : A -> Z) l c :
  sum_Z (map f (l ++ [c])) = sum_Z (map f l) + f c.
Proof.
  unfold sum_Z. induction l as [| a l IH]; cbn.
  - lia.
  - fold (sum_Z (map f (l ++ [c]))) in *. fold (sum_Z (map f l)) in *.
    unfold sum_Z in *. rewrite IH. lia.
Qed.

Lemma array_set_length {A : Type} (i : nat) (x : A) :
  forall a, List.length (array_set i x a) = List.length a.
Proof.
  induction i as [| j IH]; intros [| h t]; cbn; try reflexivity.
  rewrite IH. reflexivity.
Qed.

(** Writing entry [i] extends the first [i] entries by the one written. *)
Lemma firstn_array_set {A : Type} (i : nat) (x : A) :
  forall a, (i < List.length a)%nat ->
  firstn (S i) (array_set i x a) = firstn i a ++ [x].
Proof.
  induction i as [| j IH]; intros [| h t] Hlt; cbn in Hlt; try lia.
  - reflexivity.
  - cbn [array_set]. change (firstn (S (S j)) (h :: array_set j x t))
      with (h :: firstn (S j) (array_set j x t)).
    rewrite IH by lia. reflexivity.
Qed.

Lemma array_set_Forall {A : Type} (P : A -> Prop) (i : nat) (x : A) :
  forall a, P x -> Forall P a -> Forall P (array_set i x a).
Proof.
  induction i as [| j IH]; intros [| h t] Hx Ha; cbn; try constructor;
    inversion Ha; subst; auto.
Qed.

Lemma array_get_Forall (P : chunk_header -> Prop) a i :
  P zero_chunk -> Forall P a -> P (array_get a i).
Proof.
  intros Hz Ha. unfold array_get.
  destruct (nth_in_or_default (Z.to_nat i) a zero_chunk) as [Hin | Hd].
  - rewrite Forall_forall in Ha. apply Ha. exact Hin.
  - rewrite Hd. exact Hz.
Qed.

Lemma planned_blocks_snoc priv c l :
  planned priv = l ++ [c] ->
  planned_blocks priv = sum_Z (map chunk_sz l) + chunk_sz c.
Proof. unfold planned_blocks. intros H. rewrite H. apply sum_Z_snoc. Qed.

Lemma planned_total_sz_snoc priv c l :
  planned priv = l ++ [c] ->
  planned_total_sz priv = sum_Z (map total_sz l) + total_sz c.
Proof. unfold planned_total_sz. intros H. rewrite H. apply sum_Z_snoc. Qed.

(** The total size [ram_add_chunk] stores for a RAW chunk of [size]
    bytes, a page multiple, is the one of its block count. *)
Lemma raw_total_sz size :
  size mod EFI_PAGE_SIZE = 0 ->
  u32 (sizeof_chunk_header + size)
  = u32 (sizeof_chunk_header + u32 (size / EFI_PAGE_SIZE) * EFI_PAGE_SIZE).
Proof.
  intros Hmod.
  assert (Hsize : size = size / EFI_PAGE_SIZE * EFI_PAGE_SIZE).
  { pose proof (Z.div_mod size EFI_PAGE_SIZE) as H. unfold EFI_PAGE_SIZE in *. lia. }
  rewrite <- (u32_add_r _ (u32 (size / EFI_PAGE_SIZE) * EFI_PAGE_SIZE)).
  rewrite u32_mul_l, <- Hsize, u32_add_r. reflexivity.
Qed.

(** [ram_add_chunk] keeps the plan well formed. *)
Lemma ram_add_chunk_plan ctx priv type size ret ctx' priv' :
  ram_add_chunk ctx priv type size = (ret, ctx', priv') ->
  type = CHUNK_TYPE_RAW \/ type = CHUNK_TYPE_DONT_CARE ->
  plan_ok ctx priv -> plan_ok ctx' priv'.
Proof.
  unfold ram_add_chunk.
  destruct (nonzero (size mod EFI_PAGE_SIZE)) eqn:Hmod.
  { intros H _ Hok; inversion H; subst; exact Hok. }
  apply nonzero_false in Hmod.
  destruct (chunk_nb priv =? MAX_MEMORY_REGION_NB) eqn:Hfull.
  { intros H _ Hok; inversion H; subst; exact Hok. }
  apply Z.eqb_neq in Hfull.
  cbv zeta.
  remember (chunk_nb priv) as idx eqn:Hidx_def.
  remember (u32 (size / EFI_PAGE_SIZE)) as sz eqn:Hsz.
  remember (if type =? CHUNK_TYPE_RAW
            then u32 (sizeof_chunk_header + size) else sizeof_chunk_header)
    as tot eqn:Htot.
  remember {| chunk_type := u16 type;
              reserved1 := reserved1 (array_get (chunks priv) idx);
              chunk_sz := sz; total_sz := tot |} as c eqn:Hc_def.
  intros H Htype (Hlen & Hnb & Hres & Hfix & Htc & Htb & Hcl & _ & Hwire).
  injection H as Hret Hctx Hpriv. subst ret ctx' priv'.
  rewrite <- Hidx_def in *.
  assert (Hidx : 0 <= idx < MAX_MEMORY_REGION_NB) by lia.
  assert (Hnext : u64 (idx + 1) = idx + 1)
    by (apply u64_small; unfold is_u64, MAX_MEMORY_REGION_NB in *; lia).
  assert (Hres0 : reserved1 (array_get (chunks priv) idx) = 0)
    by (apply (array_get_Forall (fun c => reserved1 c = 0)); [reflexivity | exact Hres]).
  assert (Hplanned :
    firstn (Z.to_nat (idx + 1)) (array_set (Z.to_nat idx) c (chunks priv))
    = planned priv ++ [c]).
  { replace (Z.to_nat (idx + 1)) with (S (Z.to_nat idx)) by lia.
    unfold planned. rewrite <- Hidx_def.
    apply firstn_array_set. rewrite Hlen. unfold MAX_MEMORY_REGION_NB in *. lia. }
  assert (Hcsz : chunk_sz c = sz) by (rewrite Hc_def; reflexivity).
  assert (Hctot : total_sz c = tot) by (rewrite Hc_def; reflexivity).
  assert (Hcres : reserved1 c = 0) by (rewrite Hc_def; exact Hres0).
  assert (Hc : chunk_wire_ok c).
  { unfold chunk_wire_ok. rewrite Hcsz, Hctot, Hc_def. cbn [chunk_type].
    split; [exact Hres0 |]. split; [rewrite Hsz; apply u32_range |].
    destruct Htype as [Ht | Ht]; subst type.
    - right. split; [reflexivity |]. rewrite Htot, Hsz.
      change (CHUNK_TYPE_RAW =? CHUNK_TYPE_RAW) with true.
      cbv iota. apply raw_total_sz. exact Hmod.
    - left. split; [reflexivity |]. rewrite Htot. reflexivity. }
  unfold plan_ok.
  cbn [chunks chunk_nb sheader set_sheader set_chunks set_chunk_nb
       total_chunks total_blks magic major_version minor_version file_hdr_sz
       chunk_hdr_sz blk_sz image_checksum].
  assert (Hpl : forall h, planned (set_sheader h
                  (set_chunks (array_set (Z.to_nat idx) c (chunks priv))
                     (set_chunk_nb (u64 (idx + 1)) priv))) = planned priv ++ [c]).
  { intros h. unfold planned at 1.
    cbn [chunks chunk_nb set_sheader set_chunks set_chunk_nb].
    rewrite Hnext. exact Hplanned. }
  split; [rewrite array_set_length; exact Hlen |].
  split; [rewrite Hnext; lia |].
  split; [apply array_set_Forall; [exact Hcres | exact Hres] |].
  split; [exact Hfix |].
  split; [rewrite Hnext, Htc; apply u32_small;
          unfold is_u32, MAX_MEMORY_REGION_NB in *; lia |].
  split.
  { rewrite (planned_blocks_snoc _ c (planned priv) (Hpl _)).
    fold (planned_blocks priv). rewrite Htb, Hcsz. apply u32_add_l. }
  split.
  { rewrite (planned_total_sz_snoc _ c (planned priv) (Hpl _)).
    fold (planned_total_sz priv). rewrite Hctot, Htot.
    destruct (type =? CHUNK_TYPE_RAW); cbn [ctx_len set_ctx_len].
    - rewrite u32_u64, (u32_add (u64 _)), u32_u64, <- u32_add.
      rewrite u32_add_r.
      rewrite (u32_add (planned_total_sz priv)), <- Hcl, <- u32_add.
      f_equal. lia.
    - rewrite u32_u64, (u32_add (ctx_len ctx)), Hcl, <- u32_add. reflexivity. }
  split; [rewrite Hnext; intros H0; lia |].
  rewrite Hpl.
  apply Forall_app. split; [exact Hwire | constructor; [exact Hc | constructor]].
Qed.

Lemma ram_build_descr_plan entry ctx priv e ctx' priv' :
  ram_build_descr entry ctx priv = (e, ctx', priv') ->
  plan_ok ctx priv -> plan_ok ctx' priv'.
Proof.
  unfold ram_build_descr. cbv zeta.
  match goal with |- context [ram_add_chunk ?c ?p ?t ?s] =>
    destruct (ram_add_chunk c p t s) as [[ret c1] p1] eqn:E end.
  cbv beta iota. intros H Hok.
  assert (Hok1 : plan_ok c1 p1).
  { eapply ram_add_chunk_plan; [exact E | | exact Hok].
    destruct (Type_ entry =? EfiConventionalMemory); [left | right]; reflexivity. }
  destruct (EFI_ERROR ret);
    [| destruct (nonzero (end_ p1) && (end_ p1 <=? entry_end entry))];
    injection H as _ Hc Hp; subst; exact Hok1.
Qed.

Lemma ram_build_entry_plan entry prev_end ctx priv e ctx' priv' :
  ram_build_entry entry prev_end ctx priv = (e, ctx', priv') ->
  plan_ok ctx priv -> plan_ok ctx' priv'.
Proof.
  unfold ram_build_entry.
  destruct (start priv >=? entry_end entry).
  { intros H Hok. injection H as _ Hc Hp; subst; exact Hok. }
  destruct (negb (prev_end =? PhysicalStart entry));
    [| apply ram_build_descr_plan].
  destruct (prev_end >? PhysicalStart entry).
  { intros H Hok. injection H as _ Hc Hp; subst; exact Hok. }
  cbv zeta.
  match goal with |- context [ram_add_chunk ?c ?p ?t ?s] =>
    destruct (ram_add_chunk c p t s) as [[ret c1] p1] eqn:E end.
  cbv beta iota. intros H Hok.
  assert (Hok1 : plan_ok c1 p1).
  { eapply ram_add_chunk_plan; [exact E | right; reflexivity | exact Hok]. }
  destruct (EFI_ERROR ret).
  { injection H as _ Hc Hp; subst; exact Hok1. }
  destruct (nonzero (end_ p1) && (end_ p1 <? PhysicalStart entry)).
  { injection H as _ Hc Hp; subst; exact Hok1. }
  eapply ram_build_descr_plan; eassumption.
Qed.

Lemma ram_build_loop_plan l :
  forall prev_end ctx priv e prev_end' ctx' priv',
  ram_build_loop l prev_end ctx priv = (e, prev_end', ctx', priv') ->
  plan_ok ctx priv -> plan_ok ctx' priv'.
Proof.
  induction l as [| entry rest IH]; intros prev_end ctx priv e prev_end' ctx' priv'.
  - cbn. intros H Hok. injection H as _ _ Hc Hp; subst; exact Hok.
  - cbn [ram_build_loop].
    destruct (ram_build_entry entry prev_end ctx priv) as [[e1 c1] p1] eqn:E.
    intros H Hok.
    pose proof (ram_build_entry_plan _ _ _ _ _ _ _ E Hok) as Hok1.
    destruct e1.
    + eapply IH; eassumption.
    + injection H as _ _ Hc Hp; subst; exact Hok1.
    + injection H as _ _ Hc Hp; subst; exact Hok1.
Qed.

Lemma plan_ok_set_end ctx priv v : plan_ok ctx priv -> plan_ok ctx (set_end v priv).
Proof. intros H. exact H. Qed.

Lemma ram_build_chunks_plan ctx priv nr_entries ret ctx' priv' freed :
  ram_build_chunks ctx priv nr_entries = (ret, ctx', priv', freed) ->
  plan_ok (set_ctx_cur 0 (set_ctx_len 0 ctx)) priv ->
  plan_ok ctx' priv' /\ (ret = EFI_SUCCESS -> ctx_len ctx' <> 0).
Proof.
  unfold ram_build_chunks.
  destruct (ram_build_loop (firstn nr_entries (memmap priv)) 0
              (set_ctx_cur 0 (set_ctx_len 0 ctx)) priv)
    as [[[e pe] c] p] eqn:E.
  intros H Hok.
  pose proof (ram_build_loop_plan _ _ _ _ _ _ _ _ E Hok) as Hok1.
  assert (Hrest :
    (if nonzero (end_ p) && match e with exit_next => true | _ => false end
     then (EFI_INVALID_PARAMETER, c, p, @nil pointer)
     else if negb (nonzero (ctx_len c)) then (EFI_INVALID_PARAMETER, c, p, [])
     else (EFI_SUCCESS, c,
           if negb (nonzero (end_ p)) then set_end pe p else p, []))
    = (ret, ctx', priv', freed) ->
    plan_ok ctx' priv' /\ (ret = EFI_SUCCESS -> ctx_len ctx' <> 0)).
  { clear H. destruct (nonzero (end_ p) && _).
    - intros H. injection H as Hr Hc Hp _. subst. split; [exact Hok1 | discriminate].
    - destruct (nonzero (ctx_len c)) eqn:Hnz; cbn [negb].
      + apply nonzero_true in Hnz. intros H. injection H as Hr Hc Hp _. subst.
        split; [| intros _; exact Hnz].
        destruct (negb (nonzero (end_ p))); [apply plan_ok_set_end |]; exact Hok1.
      + intros H. injection H as Hr Hc Hp _. subst. split; [exact Hok1 | discriminate]. }
  destruct e; try (apply Hrest; exact H).
  injection H as Hr Hc Hp _. subst. split; [exact Hok1 |].
  intros Hs. destruct ret0; discriminate.
Qed.

Section PlanFacts.

Variable strtoul16 : string -> Z * string.

(** The window parse leaves the plan and the header alone. *)
Lemma ram_parse_argv_keeps argv p ok q :
  ram_parse_argv strtoul16 argv p = (ok, q) ->
  chunks q = chunks p /\ chunk_nb q = chunk_nb p /\ sheader q = sheader p.
Proof.
  unfold ram_parse_argv.
  destruct (Z.of_nat (List.length argv) >? 0).
  - destruct (strtoul16 (nth 0 argv EmptyString)) as [v endptr].
    destruct (at_nul endptr); cbn [negb].
    + destruct (Z.of_nat (List.length argv) =? 2).
      * destruct (strtoul16 (nth 1 argv EmptyString)) as [v2 endptr2].
        destruct (at_nul endptr2); intros H; inversion H; subst; cbn; auto.
      * intros H; inversion H; subst; cbn; auto.
    + intros H; inversion H; subst; cbn; auto.
  - cbn [negb]. destruct (Z.of_nat (List.length argv) =? 2).
    + destruct (strtoul16 (nth 1 argv EmptyString)) as [v2 endptr2].
      destruct (at_nul endptr2); intros H; inversion H; subst; cbn; auto.
    + intros H; inversion H; subst; cbn; auto.
Qed.

(** After a successful [ram_open] the plan is well formed, with the
    stream length before the file header was counted. *)
Lemma ram_open_plan_ok w ctx argv fw w' ctx' :
  ram_open strtoul16 w ctx argv fw = (EFI_SUCCESS, w', ctx') ->
  exists c, plan_ok c (ram w') /\ ctx_len c <> 0 /\
            ctx_len ctx' = u64 (ctx_len c + sizeof_sparse_header).
Proof.
  unfold ram_open.
  destruct (Z.of_nat (List.length argv) >? 2); [discriminate |].
  destruct (is_in_used (ram w)); [discriminate |].
  destruct (ram_parse_argv strtoul16 argv (set_is_in_used true zero_ram_priv))
    as [parsed priv] eqn:Hparse.
  destruct parsed; [| discriminate]. cbn [negb].
  apply ram_parse_argv_keeps in Hparse. destruct Hparse as (Hch & Hnb & Hsh).
  cbn in Hch, Hnb, Hsh.
  destruct (nonzero (start priv mod EFI_PAGE_SIZE)
            || nonzero (end_ priv mod EFI_PAGE_SIZE)); [discriminate |].
  destruct (GetMemoryMap fw) as [ret [d ds]].
  destruct (EFI_ERROR ret); [cbn; destruct ret; discriminate |].
  match goal with |- context [ram_build_chunks ?c ?p ?n] =>
    destruct (ram_build_chunks c p n) as [[[ret2 c2] p2] freed] eqn:E end.
  apply ram_build_chunks_plan in E.
  - destruct E as [Hok Hnz].
    destruct (EFI_ERROR ret2) eqn:Herr; [cbn; destruct ret2; discriminate |].
    apply EFI_ERROR_false in Herr.
    intros H. injection H as Hw Hc. subst w' ctx'.
    exists c2. split; [exact Hok |]. split; [exact (Hnz Herr) | reflexivity].
  - unfold plan_ok, planned_blocks, planned_total_sz, planned.
    cbn [chunks chunk_nb sheader set_memmap ram_init_sheader set_sheader
         total_chunks total_blks ctx_len set_ctx_cur set_ctx_len].
    rewrite Hch, Hnb, Hsh. cbn [Z.to_nat firstn map sum_Z fold_right].
    split; [apply repeat_length |].
    split; [unfold MAX_MEMORY_REGION_NB; lia |].
    split; [apply Forall_forall; intros c Hc; apply repeat_spec in Hc; subst c;
            reflexivity |].
    split; [unfold sheader_fixed; cbn; tauto |].
    split; [reflexivity |]. split; [reflexivity |]. split; [reflexivity |].
    split; [reflexivity | constructor].
Qed.

(** X1: after every successful [ram_open] the sparse header is the one of
    the plan: its fixed fields are the magic, version 1.0, 28 and 12
    byte header sizes, 4096-byte blocks and checksum 0; [total_chunks]
    is the number of planned chunks, between 1 and 256; [total_blks] is
    the sum of the chunks' block counts in 32 bits; and [ctx.len] agrees
    with the header size plus the chunks' [total_sz] in its low 32
    bits. *)
Theorem ram_open_sparse_header w ctx argv fw w' ctx' :
  ram_open strtoul16 w ctx argv fw = (EFI_SUCCESS, w', ctx') ->
  let priv := ram w' in
  sheader_fixed (sheader priv) /\
  1 <= chunk_nb priv <= MAX_MEMORY_REGION_NB /\
  total_chunks (sheader priv) = Z.of_nat (List.length (planned priv)) /\
  total_blks (sheader priv) = u32 (planned_blocks priv) /\
  u32 (ctx_len ctx') = u32 (sizeof_sparse_header + planned_total_sz priv).
Proof.
  intros Hopen. cbv zeta.
  destruct (ram_open_plan_ok _ _ _ _ _ _ Hopen)
    as (c & (Hlen & Hnb & _ & Hfix & Htc & Htb & Hcl & Hzero & _) & Hnz & Hfinal).
  split; [exact Hfix |].
  split; [split; [| tauto];
          destruct (Z.eq_dec (chunk_nb (ram w')) 0) as [H0 | H0];
          [exfalso; apply Hnz, Hzero, H0 | lia] |].
  split.
  { rewrite Htc. unfold planned. rewrite firstn_length_le; [lia |].
    rewrite Hlen. lia. }
  split; [exact Htb |].
  rewrite Hfinal, u32_u64, (u32_add (ctx_len c)), Hcl, <- u32_add.
  f_equal. lia.
Qed.

(** X2: after every successful [ram_open] every planned chunk header is
    well formed for the sparse format: reserved field 0, a type that is
    RAW or DONT_CARE, [total_sz] 12 for DONT_CARE and 12 plus
    [chunk_sz] blocks of 4096 bytes, in 32 bits, for RAW. *)
Theorem ram_open_chunks_wire w ctx argv fw w' ctx' :
  ram_open strtoul16 w ctx argv fw = (EFI_SUCCESS, w', ctx') ->
  Forall chunk_wire_ok (planned (ram w')).
Proof.
  intros Hopen.
  destruct (ram_open_plan_ok _ _ _ _ _ _ Hopen) as (c & Hok & _).
  apply Hok.
Qed.

End PlanFacts.

(** X1, on a run: the stream of the two regions of four pages at 0 and
    at 0x8000. *)
Lemma ram_open_sparse_header_run :
  sheader_fixed (sheader (ram w_two_regions)) /\
  1 <= chunk_nb (ram w_two_regions) <= MAX_MEMORY_REGION_NB /\
  total_chunks (sheader (ram w_two_regions))
    = Z.of_nat (List.length (planned (ram w_two_regions))) /\
  total_blks (sheader (ram w_two_regions)) = u32 (planned_blocks (ram w_two_regions)) /\
  u32 (ctx_len ctx_two_regions)
    = u32 (sizeof_sparse_header + planned_total_sz (ram w_two_regions)).
Proof.
  apply (ram_open_sparse_header hex_strtoul world0 ctx0 [] fw_two_regions
           w_two_regions ctx_two_regions).
  vm_compute. reflexivity.
Defined.

(** X2, on a run: the three chunks of the same stream. *)
Lemma ram_open_chunks_wire_run : Forall chunk_wire_ok (planned (ram w_two_regions)).
Proof.
  apply (ram_open_chunks_wire hex_strtoul world0 ctx0 [] fw_two_regions
           w_two_regions ctx_two_regions).
  vm_compute. reflexivity.
Defined.

(** ** The sort of the memory map *)

(** X3: [sort_memory_map] called on all the entries of a map leaves
    them sorted by [PhysicalStart], ascending, and keeps its descriptors:
    the result is a permutation of the map. *)
Theorem sort_memory_map_sorted_permutation entries :
  StronglySorted le_start (sort_memory_map entries (List.length entries)) /\
  Permutation entries (sort_memory_map entries (List.length entries)).
Proof.
  pose proof (sort_memory_map_spec (List.length entries) entries [] eq_refl) as H.
  rewrite app_nil_r in H. apply H.
  - constructor.
  - rewrite Forall_forall. intros x _. constructor.
Qed.

(** ** The statuses of [ram_open] and the windows it refuses *)

(** A walk over descriptors that all end at or before [start] skips every
    one of them. *)
Lemma ram_build_loop_skips l :
  forall prev_end ctx priv,
  Forall (fun e => entry_end e <= start priv) l ->
  ram_build_loop l prev_end ctx priv = (exit_next, prev_end_after l prev_end, ctx, priv).
Proof.
  induction l as [| entry rest IH]; intros prev_end ctx priv Hall.
  - reflexivity.
  - inversion Hall as [| x xs Hx Hxs]; subst.
    cbn [ram_build_loop]. unfold ram_build_entry.
    replace (start priv >=? entry_end entry) with true
      by (symmetry; rewrite Z.geb_leb; apply Z.leb_le; exact Hx).
    rewrite (IH _ _ _ Hxs). reflexivity.
Qed.

(** The statuses of [ram_build_chunks]; the chunk array fills up only
    when more than half as many descriptors are walked as it has room. *)
Lemma ram_build_chunks_status ctx priv nr_entries :
  walk_status (fst (fst (fst (ram_build_chunks ctx priv nr_entries)))) /\
  (fst (fst (fst (ram_build_chunks ctx priv nr_entries))) = EFI_OUT_OF_RESOURCES ->
   0 <= chunk_nb priv ->
   chunk_nb priv + 2 * Z.of_nat (List.length (firstn nr_entries (memmap priv)))
     <= MAX_MEMORY_REGION_NB -> False).
Proof.
  unfold ram_build_chunks.
  destruct (ram_build_loop (firstn nr_entries (memmap priv)) 0
              (set_ctx_cur 0 (set_ctx_len 0 ctx)) priv)
    as [[[e pe] c] p] eqn:E.
  apply ram_build_loop_spec in E. destruct E as (_ & _ & He & _ & _).
  assert (Hrest :
    walk_status (fst (fst (fst
      (if nonzero (end_ p) && match e with exit_next => true | _ => false end
       then (EFI_INVALID_PARAMETER, c, p, @nil pointer)
       else if negb (nonzero (ctx_len c)) then (EFI_INVALID_PARAMETER, c, p, [])
       else (EFI_SUCCESS, c,
             if negb (nonzero (end_ p)) then set_end pe p else p, []))))) /\
    (fst (fst (fst
      (if nonzero (end_ p) && match e with exit_next => true | _ => false end
       then (EFI_INVALID_PARAMETER, c, p, @nil pointer)
       else if negb (nonzero (ctx_len c)) then (EFI_INVALID_PARAMETER, c, p, [])
       else (EFI_SUCCESS, c,
             if negb (nonzero (end_ p)) then set_end pe p else p, []))))
     = EFI_OUT_OF_RESOURCES -> False)).
  { unfold walk_status.
    destruct (nonzero (end_ p) && _); [cbn; split; [tauto | discriminate] |].
    destruct (negb (nonzero (ctx_len c))); cbn; split; (tauto || discriminate). }
  destruct e.
  - split; [apply Hrest | intros H; exfalso; apply (proj2 Hrest H)].
  - split; [apply Hrest | intros H; exfalso; apply (proj2 Hrest H)].
  - cbn [fst]. destruct (He ret eq_refl) as [Hw Ho].
    destruct (error_or_invalid_walk ret Hw) as [[H1 H2] | [H1 H2]]; rewrite H1.
    + split; [right; left; reflexivity | discriminate].
    + split; [right; right; reflexivity |]. intros _. exact (Ho H2).
Qed.

Section OpenFacts.

Variable strtoul16 : string -> Z * string.

(** X4: [ram_open] returns [EFI_SUCCESS], [EFI_INVALID_PARAMETER],
    [EFI_UNSUPPORTED], [EFI_OUT_OF_RESOURCES] or the error of
    [GetMemoryMap], and nothing else.  It returns [EFI_UNSUPPORTED] only
    while the RAM reader is in use, unless [GetMemoryMap] failed so; and
    [EFI_OUT_OF_RESOURCES] only on a memory map of more than 128
    descriptors, unless [GetMemoryMap] failed so: the 256 chunks of the
    array are enough for every map of up to 128 descriptors. *)
Theorem ram_open_statuses w ctx argv fw :
  (fst (fst (ram_open strtoul16 w ctx argv fw)) = EFI_SUCCESS \/
   fst (fst (ram_open strtoul16 w ctx argv fw)) = EFI_INVALID_PARAMETER \/
   fst (fst (ram_open strtoul16 w ctx argv fw)) = EFI_UNSUPPORTED \/
   fst (fst (ram_open strtoul16 w ctx argv fw)) = EFI_OUT_OF_RESOURCES \/
   (fst (fst (ram_open strtoul16 w ctx argv fw)) = fst (GetMemoryMap fw) /\
    EFI_ERROR (fst (GetMemoryMap fw)) = true)) /\
  (fst (fst (ram_open strtoul16 w ctx argv fw)) = EFI_UNSUPPORTED ->
   is_in_used (ram w) = true \/ fst (GetMemoryMap fw) = EFI_UNSUPPORTED) /\
  (fst (fst (ram_open strtoul16 w ctx argv fw)) = EFI_OUT_OF_RESOURCES ->
   fst (GetMemoryMap fw) = EFI_OUT_OF_RESOURCES \/
   (128 < List.length (fst (snd (GetMemoryMap fw)) :: snd (snd (GetMemoryMap fw))))%nat).
Proof.
  unfold ram_open.
  destruct (Z.of_nat (List.length argv) >? 2).
  { cbn. split; [tauto |]. split; discriminate. }
  destruct (is_in_used (ram w)) eqn:Hflag.
  { cbn. split; [tauto |]. split; [tauto | discriminate]. }
  destruct (ram_parse_argv strtoul16 argv (set_is_in_used true zero_ram_priv))
    as [parsed priv] eqn:Hparse.
  destruct parsed; cbn [negb].
  2: { cbn. split; [tauto |]. split; discriminate. }
  apply ram_parse_argv_frame in Hparse. destruct Hparse as (_ & Hnb & _).
  cbn in Hnb.
  destruct (nonzero (start priv mod EFI_PAGE_SIZE)
            || nonzero (end_ priv mod EFI_PAGE_SIZE)).
  { cbn. split; [tauto |]. split; discriminate. }
  destruct (GetMemoryMap fw) as [ret [d ds]]. cbn [fst snd].
  destruct (EFI_ERROR ret) eqn:Herr.
  { unfold ram_open_err, error_or_invalid. rewrite Herr. cbn [fst].
    split; [tauto |]. split; intros H; [right | left]; exact H. }
  match goal with |- context [ram_build_chunks ?c ?p ?n] =>
    pose proof (ram_build_chunks_status c p n) as Hst;
    destruct (ram_build_chunks c p n) as [[[ret2 c2] p2] freed] end.
  cbn [fst] in Hst. destruct Hst as [Hw Ho].
  cbn [chunk_nb set_memmap ram_init_sheader set_sheader memmap] in Ho.
  rewrite Hnb in Ho.
  rewrite firstn_all2 in Ho by (rewrite sort_memory_map_length; apply le_n).
  rewrite sort_memory_map_length in Ho.
  destruct Hw as [H | [H | H]]; subst ret2; cbn.
  - split; [tauto |]. split; discriminate.
  - split; [tauto |]. split; discriminate.
  - split; [tauto |]. split; [discriminate |]. intros _. right.
    destruct (Nat.le_gt_cases (S (List.length ds)) 128) as [Hle | Hgt]; [| exact Hgt].
    exfalso. apply Ho; [reflexivity | lia |].
    unfold MAX_MEMORY_REGION_NB. cbn [List.length]. lia.
Qed.

(** X5: a window that starts at or after the end of every descriptor of
    the memory map is refused: [ram_open] fails with
    [EFI_INVALID_PARAMETER] and leaves the in-use flag clear. *)
Theorem ram_open_start_unreachable w ctx argv fw ok priv d ds :
  is_in_used (ram w) = false ->
  ram_parse_argv strtoul16 argv (set_is_in_used true zero_ram_priv) = (ok, priv) ->
  GetMemoryMap fw = (EFI_SUCCESS, (d, ds)) ->
  Forall (fun e => entry_end e <= start priv) (d :: ds) ->
  fst (fst (ram_open strtoul16 w ctx argv fw)) = EFI_INVALID_PARAMETER /\
  is_in_used (ram (snd (fst (ram_open strtoul16 w ctx argv fw)))) = false.
Proof.
  intros Hflag Hparse Hmap Hall. unfold ram_open.
  destruct (Z.of_nat (List.length argv) >? 2); [cbn; tauto |].
  rewrite Hflag, Hparse.
  destruct ok; cbn [negb]; [| cbn; tauto].
  destruct (nonzero (start priv mod EFI_PAGE_SIZE)
            || nonzero (end_ priv mod EFI_PAGE_SIZE)); [cbn; tauto |].
  rewrite Hmap. cbn [EFI_ERROR].
  unfold ram_build_chunks.
  cbn [memmap set_memmap].
  rewrite firstn_all2 by (rewrite sort_memory_map_length; apply le_n).
  rewrite ram_build_loop_skips.
  - cbn [ctx_len set_ctx_cur set_ctx_len end_ set_memmap ram_init_sheader set_sheader].
    destruct (nonzero (end_ priv) && true); cbn; tauto.
  - cbn [start set_memmap ram_init_sheader set_sheader].
    eapply Permutation_Forall; [| exact Hall].
    apply sort_memory_map_sorts.
Qed.

(** X6: a window whose end lies past the memory map is refused: when the
    parsed end is not 0 and is neither before the start of a descriptor
    nor at or before the end of one, [ram_open] fails, with
    [EFI_INVALID_PARAMETER] on a map of up to 128 descriptors (and with
    that or [EFI_OUT_OF_RESOURCES] on a larger one), and leaves the
    in-use flag clear. *)
Theorem ram_open_end_unreachable w ctx argv fw ok priv d ds :
  is_in_used (ram w) = false ->
  ram_parse_argv strtoul16 argv (set_is_in_used true zero_ram_priv) = (ok, priv) ->
  GetMemoryMap fw = (EFI_SUCCESS, (d, ds)) ->
  end_ priv <> 0 ->
  Forall (fun e => ~ stops_at (end_ priv) e) (d :: ds) ->
  (fst (fst (ram_open strtoul16 w ctx argv fw)) = EFI_INVALID_PARAMETER \/
   fst (fst (ram_open strtoul16 w ctx argv fw)) = EFI_OUT_OF_RESOURCES) /\
  ((List.length (d :: ds) <= 128)%nat ->
   fst (fst (ram_open strtoul16 w ctx argv fw)) = EFI_INVALID_PARAMETER) /\
  is_in_used (ram (snd (fst (ram_open strtoul16 w ctx argv fw)))) = false.
Proof.
  intros Hflag Hparse Hmap Hend Hall. unfold ram_open.
  destruct (Z.of_nat (List.length argv) >? 2); [cbn; tauto |].
  rewrite Hflag, Hparse.
  destruct ok; cbn [negb]; [| cbn; tauto].
  pose proof (ram_parse_argv_frame _ _ _ _ _ Hparse) as (_ & Hnb & _).
  cbn in Hnb.
  destruct (nonzero (start priv mod EFI_PAGE_SIZE)
            || nonzero (end_ priv mod EFI_PAGE_SIZE)); [cbn; tauto |].
  rewrite Hmap. cbn [EFI_ERROR].
  unfold ram_build_chunks.
  cbn [memmap set_memmap].
  rewrite firstn_all2 by (rewrite sort_memory_map_length; apply le_n).
  match goal with |- context [ram_build_loop ?l ?pe ?c ?p] =>
    destruct (ram_build_loop l pe c p) as [[[e pe'] c'] p'] eqn:E end.
  apply ram_build_loop_spec in E. destruct E as (Hf & _ & He & _ & Hb).
  assert (Hend' : end_ p' = end_ priv) by (unfold frame in Hf; cbn in Hf; tauto).
  cbn [end_ set_memmap ram_init_sheader set_sheader chunk_nb] in He, Hb.
  rewrite Hnb, sort_memory_map_length in He.
  destruct e.
  - rewrite Hend'. rewrite (proj2 (nonzero_true _) Hend). cbn. tauto.
  - exfalso. destruct (Hb eq_refl) as [_ Hex].
    assert (Hall' : Forall (fun e => ~ stops_at (end_ priv) e)
                      (sort_memory_map (d :: ds) (List.length (d :: ds)))).
    { eapply Permutation_Forall; [| exact Hall]. apply sort_memory_map_sorts. }
    apply Forall_Exists_neg in Hall'. contradiction.
  - destruct (He ret eq_refl) as [Hw Ho].
    destruct (error_or_invalid_walk ret Hw) as [[H1 H2] | [H1 H2]].
    + cbn. rewrite EFI_ERROR_error_or_invalid.
      unfold ram_open_err. cbn. unfold error_or_invalid at 1.
      rewrite EFI_ERROR_error_or_invalid. rewrite H1. tauto.
    + cbn. rewrite EFI_ERROR_error_or_invalid.
      unfold ram_open_err. cbn. unfold error_or_invalid at 1.
      rewrite EFI_ERROR_error_or_invalid. rewrite H1.
      split; [tauto |]. split; [| reflexivity].
      intros Hlen. exfalso. apply (Ho H2); [lia |].
      unfold MAX_MEMORY_REGION_NB. cbn [List.length] in *. lia.
Qed.

End OpenFacts.

(** X5, on a run: with four pages at 0 the window starting at 0x10000 is
    refused. *)
Lemma ram_open_start_unreachable_run :
  fst (fst (ram_open hex_strtoul world0 ctx0 ["10000"%string]
              (firmware_with_map (conventional 0 4) []))) = EFI_INVALID_PARAMETER /\
  is_in_used (ram (snd (fst (ram_open hex_strtoul world0 ctx0 ["10000"%string]
                               (firmware_with_map (conventional 0 4) []))))) = false.
Proof.
  apply (ram_open_start_unreachable hex_strtoul world0 ctx0 ["10000"%string]
           (firmware_with_map (conventional 0 4) []) true
           (set_end 0 (set_start 0x10000 (set_is_in_used true zero_ram_priv)))
           (conventional 0 4) []).
  - reflexivity.
  - vm_compute. reflexivity.
  - reflexivity.
  - constructor; [| constructor]. vm_compute. intros H; discriminate H.
Defined.

(** X6, on a run: with four pages at 0 the window [0, 0x10000) is
    refused. *)
Lemma ram_open_end_unreachable_run :
  (fst (fst (ram_open hex_strtoul world0 ctx0 ["0"%string; "10000"%string]
               (firmware_with_map (conventional 0 4) []))) = EFI_INVALID_PARAMETER \/
   fst (fst (ram_open hex_strtoul world0 ctx0 ["0"%string; "10000"%string]
               (firmware_with_map (conventional 0 4) []))) = EFI_OUT_OF_RESOURCES) /\
  ((List.length [conventional 0 4] <= 128)%nat ->
   fst (fst (ram_open hex_strtoul world0 ctx0 ["0"%string; "10000"%string]
               (firmware_with_map (conventional 0 4) []))) = EFI_INVALID_PARAMETER) /\
  is_in_used (ram (snd (fst (ram_open hex_strtoul world0 ctx0
                               ["0"%string; "10000"%string]
                               (firmware_with_map (conventional 0 4) []))))) = false.
Proof.
  apply (ram_open_end_unreachable hex_strtoul world0 ctx0 ["0"%string; "10000"%string]
           (firmware_with_map (conventional 0 4) []) true
           (set_end 0x10000 (set_start 0 (set_is_in_used true zero_ram_priv)))
           (conventional 0 4) []).
  - reflexivity.
  - vm_compute. reflexivity.
  - reflexivity.
  - cbn. lia.
  - constructor; [| constructor].
    intros [H | H]; vm_compute in H; [discriminate H | apply H; reflexivity].
Defined.

(** ** The dump of the whole map *)

(** [ram_add_chunk] with room in the array and a page multiple: the
    chunk it appends. *)
Lemma ram_add_chunk_ok ctx priv type size :
  size mod EFI_PAGE_SIZE = 0 ->
  0 <= chunk_nb priv < MAX_MEMORY_REGION_NB ->
  List.length (chunks priv) = Z.to_nat MAX_MEMORY_REGION_NB ->
  exists ctx' priv' r,
    ram_add_chunk ctx priv type size = (EFI_SUCCESS, ctx', priv') /\
    frame ctx priv ctx' priv' /\
    chunk_nb priv' = chunk_nb priv + 1 /\
    List.length (chunks priv') = List.length (chunks priv) /\
    planned priv' = planned priv ++
      [{| chunk_type := u16 type; reserved1 := r;
          chunk_sz := u32 (size / EFI_PAGE_SIZE);
          total_sz := if type =? CHUNK_TYPE_RAW
                      then u32 (sizeof_chunk_header + size)
                      else sizeof_chunk_header |}] /\
    ctx_len ctx' = (if type =? CHUNK_TYPE_RAW
                    then u64 (u64 (ctx_len ctx + sizeof_chunk_header) + size)
                    else u64 (ctx_len ctx + sizeof_chunk_header)).
Proof.
  intros Hmod Hnb Hlen.
  destruct (ram_add_chunk ctx priv type size) as [[ret ctx'] priv'] eqn:E.
  pose proof (ram_add_chunk_spec _ _ _ _ _ _ _ E) as (Hf & _).
  revert E. unfold ram_add_chunk.
  rewrite (proj2 (nonzero_false _) Hmod).
  replace (chunk_nb priv =? MAX_MEMORY_REGION_NB) with false
    by (symmetry; apply Z.eqb_neq; lia).
  cbv zeta. intros E. injection E as Hret Hctx Hpriv.
  exists ctx', priv', (reserved1 (array_get (chunks priv) (chunk_nb priv))).
  assert (Hnext : u64 (chunk_nb priv + 1) = chunk_nb priv + 1)
    by (apply u64_small; unfold is_u64, MAX_MEMORY_REGION_NB in *; lia).
  split; [rewrite <- Hret; reflexivity |].
  split; [exact Hf |].
  subst priv' ctx'.
  split; [cbn [chunk_nb set_sheader set_chunks set_chunk_nb]; exact Hnext |].
  split; [cbn [chunks set_sheader set_chunks set_chunk_nb]; apply array_set_length |].
  split.
  - unfold planned at 1. cbn [chunks chunk_nb set_sheader set_chunks set_chunk_nb].
    rewrite Hnext.
    replace (Z.to_nat (chunk_nb priv + 1)) with (S (Z.to_nat (chunk_nb priv))) by lia.
    unfold planned. apply firstn_array_set.
    rewrite Hlen. unfold MAX_MEMORY_REGION_NB in *. lia.
  - destruct (type =? CHUNK_TYPE_RAW); reflexivity.
Qed.

Lemma raw_blocks_snoc l c :
  sum_Z (map chunk_sz (filter (fun c => chunk_type c =? CHUNK_TYPE_RAW) (l ++ [c])))
  = sum_Z (map chunk_sz (filter (fun c => chunk_type c =? CHUNK_TYPE_RAW) l))
    + (if chunk_type c =? CHUNK_TYPE_RAW then chunk_sz c else 0).
Proof.
  rewrite filter_app. cbn [filter].
  destruct (chunk_type c =? CHUNK_TYPE_RAW).
  - apply sum_Z_snoc.
  - rewrite app_nil_r. lia.
Qed.

(** One more chunk of the whole-map dump: [size] bytes from
    [prev_end] on. *)
Lemma ram_add_chunk_whole ctx priv type size prev_end :
  whole_map_inv prev_end ctx priv ->
  chunk_nb priv < MAX_MEMORY_REGION_NB ->
  type = CHUNK_TYPE_RAW \/ type = CHUNK_TYPE_DONT_CARE ->
  0 <= size -> size mod EFI_PAGE_SIZE = 0 -> prev_end + size < 2 ^ 44 ->
  exists ctx' priv',
    ram_add_chunk ctx priv type size = (EFI_SUCCESS, ctx', priv') /\
    whole_map_inv (prev_end + size) ctx' priv' /\
    chunk_nb priv' = chunk_nb priv + 1 /\
    cur_chunk priv' = cur_chunk priv /\
    planned_raw_blocks priv'
    = planned_raw_blocks priv
      + (if type =? CHUNK_TYPE_RAW then size / EFI_PAGE_SIZE else 0) /\
    plan_shape priv' = plan_shape priv ++ [(type, size / EFI_PAGE_SIZE)].
Proof.
  intros (Hs & He & Hlen & Hnb0 & Hpe & Hpem & Hbytes & Hraw0 & Hraw & Hcl & Hone)
         Hroom Htype Hsize Hmod Hbound.
  destruct (ram_add_chunk_ok ctx priv type size Hmod (conj Hnb0 Hroom) Hlen)
    as (ctx' & priv' & r & Heq & Hf & Hnb' & Hlen' & Hpl & Hcl').
  exists ctx', priv'. split; [exact Heq |].
  assert (Hq : size = EFI_PAGE_SIZE * (size / EFI_PAGE_SIZE))
    by (apply Z.div_exact; [unfold EFI_PAGE_SIZE; lia | exact Hmod]).
  remember (size / EFI_PAGE_SIZE) as q eqn:Hqdef.
  assert (Hqr : 0 <= q < 2 ^ 32) by (unfold EFI_PAGE_SIZE in *; lia).
  assert (Hu32 : u32 q = q) by (apply u32_small; exact Hqr).
  assert (Hty : u16 type = type) by (destruct Htype; subst type; reflexivity).
  assert (Hrawb : planned_raw_blocks priv'
                  = planned_raw_blocks priv
                    + (if type =? CHUNK_TYPE_RAW then q else 0)).
  { unfold planned_raw_blocks. rewrite Hpl, raw_blocks_snoc.
    cbn [chunk_type chunk_sz]. rewrite Hty, Hu32. reflexivity. }
  assert (Hbytes' : planned_bytes priv' = prev_end + size).
  { unfold planned_bytes. rewrite Hpl, sum_Z_snoc. cbn [chunk_sz].
    fold (planned_bytes priv). rewrite Hbytes, Hu32. lia. }
  assert (Hshape : plan_shape priv' = plan_shape priv ++ [(type, q)]).
  { unfold plan_shape. rewrite Hpl, map_app. cbn [map chunk_type chunk_sz].
    rewrite Hty, Hu32. reflexivity. }
  unfold frame in Hf. destruct Hf as (_ & Hs' & He' & _ & _ & Hcc & _).
  split; [| split; [exact Hnb' | split; [exact Hcc | split; [exact Hrawb | exact Hshape]]]].
  unfold whole_map_inv.
  split; [congruence |]. split; [congruence |]. split; [congruence |].
  split; [lia |]. split; [lia |].
  split; [rewrite Hq, (Z.mul_comm EFI_PAGE_SIZE q), Z.mod_add;
          [exact Hpem | unfold EFI_PAGE_SIZE; lia] |].
  split; [exact Hbytes' |].
  rewrite Hrawb, Hnb', Hcl', Hcl.
  unfold sizeof_chunk_header, EFI_PAGE_SIZE, MAX_MEMORY_REGION_NB in *.
  destruct (type =? CHUNK_TYPE_RAW).
  - split; [lia |]. split; [lia |]. split; [| lia].
    rewrite (u64_small (_ + 12)) by (unfold is_u64; lia).
    rewrite u64_small by (unfold is_u64; lia). lia.
  - split; [lia |]. split; [lia |]. split; [| lia].
    rewrite u64_small by (unfold is_u64; lia). lia.
Qed.

Lemma region_ok_end e :
  region_ok e ->
  entry_len e = NumberOfPages e * EFI_PAGE_SIZE /\
  entry_end e = PhysicalStart e + NumberOfPages e * EFI_PAGE_SIZE.
Proof.
  intros (Hps & _ & Hnp & Hb). unfold entry_end, entry_len.
  unfold EFI_PAGE_SIZE in *.
  rewrite (u64_small (NumberOfPages e * 4096)) by (unfold is_u64; lia).
  rewrite u64_small by (unfold is_u64; lia). split; reflexivity.
Qed.

(** With no [start] and no [end] the descriptor part of a turn adds the
    whole descriptor. *)
Lemma ram_build_descr_whole_eq e ctx priv :
  start priv = 0 -> end_ priv = 0 -> 0 <= PhysicalStart e ->
  ram_build_descr e ctx priv =
  (let '(ret, ctx, priv) :=
     ram_add_chunk ctx priv
       (if Type_ e =? EfiConventionalMemory then CHUNK_TYPE_RAW else CHUNK_TYPE_DONT_CARE)
       (entry_len e) in
   if EFI_ERROR ret then (exit_err ret, ctx, priv)
   else if nonzero (end_ priv) && (end_ priv <=? entry_end e)
        then (exit_break, ctx, priv)
        else (exit_next, ctx, priv)).
Proof.
  intros Hs He Hps. unfold ram_build_descr. rewrite Hs, He.
  replace (0 >? PhysicalStart e) with false
    by (symmetry; rewrite Z.gtb_ltb; apply Z.ltb_ge; exact Hps).
  reflexivity.
Qed.

Lemma ram_build_descr_whole e ctx priv :
  whole_map_inv (PhysicalStart e) ctx priv -> region_ok e ->
  chunk_nb priv < MAX_MEMORY_REGION_NB ->
  exists ctx' priv',
    ram_build_descr e ctx priv = (exit_next, ctx', priv') /\
    whole_map_inv (entry_end e) ctx' priv' /\
    chunk_nb priv' = chunk_nb priv + 1 /\
    cur_chunk priv' = cur_chunk priv /\
    planned_raw_blocks priv'
    = planned_raw_blocks priv
      + (if Type_ e =? EfiConventionalMemory then NumberOfPages e else 0) /\
    plan_shape priv'
    = plan_shape priv
      ++ [(if Type_ e =? EfiConventionalMemory
           then CHUNK_TYPE_RAW else CHUNK_TYPE_DONT_CARE, NumberOfPages e)].
Proof.
  intros Hinv Hreg Hroom.
  destruct (region_ok_end e Hreg) as [Hlen Hend].
  pose proof Hreg as (Hps & Hpsm & Hnp & Hb).
  pose proof Hinv as (Hs & He & _).
  rewrite (ram_build_descr_whole_eq e ctx priv Hs He Hps).
  destruct (ram_add_chunk_whole ctx priv
              (if Type_ e =? EfiConventionalMemory
               then CHUNK_TYPE_RAW else CHUNK_TYPE_DONT_CARE)
              (entry_len e) (PhysicalStart e) Hinv Hroom)
    as (ctx' & priv' & Heq & Hinv' & Hnb' & Hcc' & Hraw' & Hshape').
  - destruct (Type_ e =? EfiConventionalMemory); [left | right]; reflexivity.
  - rewrite Hlen. unfold EFI_PAGE_SIZE. lia.
  - rewrite Hlen. apply Z.mod_mul. unfold EFI_PAGE_SIZE. lia.
  - rewrite Hlen. exact Hb.
  - exists ctx', priv'. rewrite Heq. cbv beta iota. cbn [EFI_ERROR].
    pose proof Hinv' as (_ & He' & _). rewrite He'.
    change (nonzero 0) with false. cbn [andb].
    assert (Hdiv : entry_len e / EFI_PAGE_SIZE = NumberOfPages e)
      by (rewrite Hlen; apply Z.div_mul; unfold EFI_PAGE_SIZE; lia).
    rewrite Hdiv in Hraw', Hshape'.
    split; [reflexivity |].
    split; [rewrite Hend, <- Hlen; exact Hinv' |].
    split; [exact Hnb' |]. split; [exact Hcc' |].
    split; [| exact Hshape'].
    rewrite Hraw'. destruct (Type_ e =? EfiConventionalMemory); reflexivity.
Qed.

(** One turn of the whole-map walk: the hole up to the descriptor, if
    any, and the descriptor. *)
Lemma ram_build_entry_whole e prev_end ctx priv :
  whole_map_inv prev_end ctx priv -> region_ok e ->
  prev_end <= PhysicalStart e ->
  chunk_nb priv + 2 <= MAX_MEMORY_REGION_NB ->
  exists ctx' priv',
    ram_build_entry e prev_end ctx priv = (exit_next, ctx', priv') /\
    whole_map_inv (entry_end e) ctx' priv' /\
    chunk_nb priv' <= chunk_nb priv + 2 /\
    cur_chunk priv' = cur_chunk priv /\
    planned_raw_blocks priv'
    = planned_raw_blocks priv
      + (if Type_ e =? EfiConventionalMemory then NumberOfPages e else 0) /\
    plan_shape priv' = plan_shape priv ++ whole_map_plan [e] prev_end.
Proof.
  intros Hinv Hreg Hle Hroom.
  destruct (region_ok_end e Hreg) as [Hlen Hend].
  pose proof Hreg as (Hps & Hpsm & Hnp & Hb).
  pose proof Hinv as (Hs & He & Hl & Hnb0 & Hpe & Hpem & Hbytes & Hraw0 & Hraw & Hcl & Hone).
  unfold ram_build_entry. rewrite Hs.
  cbn [whole_map_plan]. rewrite app_nil_r.
  destruct (0 >=? entry_end e) eqn:Hskip.
  { (* an empty descriptor at address 0 *)
    rewrite Z.geb_leb in Hskip. apply Z.leb_le in Hskip.
    assert (Hnp0 : NumberOfPages e = 0) by (unfold EFI_PAGE_SIZE in *; lia).
    assert (Hend0 : entry_end e = 0) by (unfold EFI_PAGE_SIZE in *; lia).
    assert (Hpe0 : prev_end = 0) by (unfold EFI_PAGE_SIZE in *; lia).
    exists ctx, priv. split; [reflexivity |].
    split; [rewrite Hend0, <- Hpe0; exact Hinv |].
    split; [lia |]. split; [reflexivity |].
    split; [rewrite Hnp0; destruct (Type_ e =? EfiConventionalMemory); lia |].
    replace (PhysicalStart e + NumberOfPages e * EFI_PAGE_SIZE <=? 0) with true
      by (symmetry; apply Z.leb_le; lia).
    rewrite app_nil_r. reflexivity. }
  rewrite Z.geb_leb in Hskip. apply Z.leb_gt in Hskip.
  replace (PhysicalStart e + NumberOfPages e * EFI_PAGE_SIZE <=? 0) with false
    by (symmetry; apply Z.leb_gt; lia).
  destruct (prev_end =? PhysicalStart e) eqn:Hgap; cbn [negb].
  { apply Z.eqb_eq in Hgap.
    replace (prev_end <? PhysicalStart e) with false
      by (symmetry; apply Z.ltb_ge; lia).
    rewrite Hgap in Hinv.
    destruct (ram_build_descr_whole e ctx priv Hinv Hreg ltac:(lia))
      as (ctx' & priv' & Heq & Hinv' & Hnb' & Hcc' & Hraw' & Hshape').
    exists ctx', priv'. split; [exact Heq |]. split; [exact Hinv' |].
    split; [lia |]. split; [exact Hcc' |]. split; [exact Hraw' | exact Hshape']. }
  apply Z.eqb_neq in Hgap.
  replace (prev_end <? PhysicalStart e) with true
    by (symmetry; apply Z.ltb_lt; lia).
  replace (prev_end >? PhysicalStart e) with false
    by (symmetry; rewrite Z.gtb_ltb; apply Z.ltb_ge; exact Hle).
  replace (0 >? prev_end) with false
    by (symmetry; rewrite Z.gtb_ltb; apply Z.ltb_ge; lia).
  rewrite He. change (nonzero 0) with false. cbn [andb]. cbv zeta.
  assert (Hhole : u64 (PhysicalStart e - prev_end) = PhysicalStart e - prev_end)
    by (apply u64_small; unfold is_u64, EFI_PAGE_SIZE in *; lia).
  rewrite Hhole.
  destruct (ram_add_chunk_whole ctx priv CHUNK_TYPE_DONT_CARE
              (PhysicalStart e - prev_end) prev_end Hinv ltac:(lia)
              (or_intror eq_refl))
    as (c1 & p1 & Heq1 & Hinv1 & Hnb1 & Hcc1 & Hraw1 & Hshape1).
  - lia.
  - rewrite Zminus_mod, Hpsm, Hpem. reflexivity.
  - unfold EFI_PAGE_SIZE in *. lia.
  - rewrite Heq1. cbv beta iota. cbn [EFI_ERROR].
    replace (prev_end + (PhysicalStart e - prev_end)) with (PhysicalStart e) in Hinv1
      by lia.
    pose proof Hinv1 as (_ & He1 & _). rewrite He1.
    change (nonzero 0) with false. cbn [andb].
    destruct (ram_build_descr_whole e c1 p1 Hinv1 Hreg ltac:(lia))
      as (ctx' & priv' & Heq & Hinv' & Hnb' & Hcc' & Hraw' & Hshape').
    exists ctx', priv'. split; [exact Heq |]. split; [exact Hinv' |].
    split; [lia |]. split; [congruence |].
    split.
    + rewrite Hraw', Hraw1.
      change (CHUNK_TYPE_DONT_CARE =? CHUNK_TYPE_RAW) with false.
      cbv iota. lia.
    + rewrite Hshape', Hshape1, <- app_assoc. reflexivity.
Qed.

Lemma conventional_pages_cons e l :
  conventional_pages (e :: l)
  = (if Type_ e =? EfiConventionalMemory then NumberOfPages e else 0)
    + conventional_pages l.
Proof.
  unfold conventional_pages. cbn [filter].
  destruct (Type_ e =? EfiConventionalMemory); reflexivity.
Qed.

Lemma conventional_pages_perm l l' :
  Permutation l l' -> conventional_pages l = conventional_pages l'.
Proof.
  induction 1 as [| x l l' _ IH | x y l | l l' l'' _ IH1 _ IH2].
  - reflexivity.
  - rewrite !conventional_pages_cons, IH. reflexivity.
  - rewrite !conventional_pages_cons. lia.
  - congruence.
Qed.

Lemma whole_map_plan_cons e rest prev_end :
  region_ok e ->
  whole_map_plan (e :: rest) prev_end
  = whole_map_plan [e] prev_end ++ whole_map_plan rest (entry_end e).
Proof.
  intros Hreg. destruct (region_ok_end e Hreg) as [_ Hend].
  cbn [whole_map_plan]. rewrite app_nil_r, Hend. reflexivity.
Qed.

(** The whole-map walk over descriptors in ascending order that do not
    overlap. *)
Lemma ram_build_loop_whole l :
  forall prev_end ctx priv,
  whole_map_inv prev_end ctx priv ->
  chunk_nb priv + 2 * Z.of_nat (List.length l) <= MAX_MEMORY_REGION_NB ->
  Forall region_ok l -> StronglySorted no_overlap l ->
  Forall (fun e => prev_end <= PhysicalStart e) l ->
  exists ctx' priv',
    ram_build_loop l prev_end ctx priv
      = (exit_next, prev_end_after l prev_end, ctx', priv') /\
    whole_map_inv (prev_end_after l prev_end) ctx' priv' /\
    cur_chunk priv' = cur_chunk priv /\
    planned_raw_blocks priv' = planned_raw_blocks priv + conventional_pages l /\
    plan_shape priv' = plan_shape priv ++ whole_map_plan l prev_end.
Proof.
  induction l as [| e rest IH]; intros prev_end ctx priv Hinv Hroom Hreg Hsort Hfrom.
  - exists ctx, priv. split; [reflexivity |]. split; [exact Hinv |].
    split; [reflexivity |].
    split; [unfold conventional_pages; cbn; lia |].
    cbn [whole_map_plan]. rewrite app_nil_r. reflexivity.
  - inversion Hreg as [| x xs Hreg_e Hreg_rest]; subst.
    inversion Hfrom as [| x xs Hfrom_e _]; subst.
    apply StronglySorted_inv in Hsort. destruct Hsort as [Hsort_rest Hafter].
    cbn [List.length] in Hroom.
    destruct (ram_build_entry_whole e prev_end ctx priv Hinv Hreg_e Hfrom_e
                ltac:(lia))
      as (c1 & p1 & Heq1 & Hinv1 & Hnb1 & Hcc1 & Hraw1 & Hshape1).
    destruct (IH (entry_end e) c1 p1 Hinv1 ltac:(lia) Hreg_rest Hsort_rest Hafter)
      as (ctx' & priv' & Heq & Hinv' & Hcc' & Hraw' & Hshape').
    exists ctx', priv'. cbn [ram_build_loop]. rewrite Heq1.
    split; [exact Heq |]. split; [exact Hinv' |].
    split; [congruence |].
    split; [rewrite Hraw', Hraw1, conventional_pages_cons; lia |].
    rewrite Hshape', Hshape1, (whole_map_plan_cons e rest prev_end Hreg_e), app_assoc.
    reflexivity.
Qed.

(** Where the walk ends: at the highest end of a descriptor. *)
Lemma prev_end_after_max l :
  forall prev_end,
  Forall region_ok l -> StronglySorted no_overlap l ->
  Forall (fun e => prev_end <= PhysicalStart e) l ->
  prev_end <= prev_end_after l prev_end /\
  Forall (fun e => entry_end e <= prev_end_after l prev_end) l /\
  (l <> [] -> Exists (fun e => entry_end e = prev_end_after l prev_end) l).
Proof.
  induction l as [| e rest IH]; intros prev_end Hreg Hsort Hfrom.
  - cbn. split; [lia |]. split; [constructor | intros H; contradiction].
  - inversion Hreg as [| x xs Hreg_e Hreg_rest]; subst.
    inversion Hfrom as [| x xs Hfrom_e _]; subst.
    apply StronglySorted_inv in Hsort. destruct Hsort as [Hsort_rest Hafter].
    destruct (region_ok_end e Hreg_e) as [_ Hend].
    destruct Hreg_e as (_ & _ & Hnp & _).
    destruct (IH (entry_end e) Hreg_rest Hsort_rest Hafter) as (Hle & Hall & Hex).
    change (prev_end_after (e :: rest) prev_end)
      with (prev_end_after rest (entry_end e)).
    split; [unfold EFI_PAGE_SIZE in *; lia |].
    split; [constructor; [exact Hle | exact Hall] |].
    intros _. destruct rest as [| e2 rest2].
    + apply Exists_cons_hd. reflexivity.
    + apply Exists_cons_tl. apply Hex. discriminate.
Qed.

Section WholeMap.

Variable strtoul16 : string -> Z * string.

Lemma ram_parse_argv_nil p : ram_parse_argv strtoul16 [] p = (true, set_end 0 p).
Proof. reflexivity. Qed.

(** [ram_open] without arguments on a well-formed map: the state it
    leaves. *)
Lemma ram_open_whole w ctx fw d ds :
  is_in_used (ram w) = false ->
  GetMemoryMap fw = (EFI_SUCCESS, (d, ds)) ->
  (List.length (d :: ds) <= 128)%nat ->
  Forall region_ok (d :: ds) ->
  StronglySorted no_overlap (sort_memory_map (d :: ds) (List.length (d :: ds))) ->
  Exists (fun e => 0 < entry_end e) (d :: ds) ->
  exists w' ctx' c2 p2 E,
    ram_open strtoul16 w ctx [] fw = (EFI_SUCCESS, w', ctx') /\
    ram w' = set_end E p2 /\
    ctx' = set_ctx_len (u64 (ctx_len c2 + sizeof_sparse_header)) c2 /\
    whole_map_inv E c2 p2 /\
    0 < E /\
    Forall (fun e => entry_end e <= E) (d :: ds) /\
    Exists (fun e => entry_end e = E) (d :: ds) /\
    chunk_nb p2 <= MAX_MEMORY_REGION_NB /\
    cur_chunk p2 = 0 /\
    planned_raw_blocks p2 = conventional_pages (d :: ds) /\
    plan_shape p2
    = whole_map_plan (sort_memory_map (d :: ds) (List.length (d :: ds))) 0.
Proof.
  intros Hflag Hmap Hlen Hreg Hsort Hex.
  pose proof (proj2 (sort_memory_map_sorts (d :: ds))) as Hperm.
  pose proof (sort_memory_map_length (List.length (d :: ds)) (d :: ds)) as Hslen.
  remember (sort_memory_map (d :: ds) (List.length (d :: ds))) as sorted eqn:Hsorted.
  assert (Hreg' : Forall region_ok sorted)
    by (eapply Permutation_Forall; [exact Hperm | exact Hreg]).
  assert (Hfrom : Forall (fun e => 0 <= PhysicalStart e) sorted).
  { eapply Forall_impl; [| exact Hreg']. intros e He. apply He. }
  remember (set_memmap sorted
              (ram_init_sheader (set_end 0 (set_is_in_used true zero_ram_priv))))
    as priv1 eqn:Hpriv1.
  remember (set_ctx_cur 0 (set_ctx_len 0 (set_ctx_private priv_ram ctx)))
    as c0 eqn:Hc0.
  assert (Hinv0 : whole_map_inv 0 c0 priv1).
  { subst priv1 c0. unfold whole_map_inv.
    split; [reflexivity |]. split; [reflexivity |].
    split; [apply repeat_length |]. split; [cbn; lia |].
    split; [lia |]. split; [reflexivity |].
    split; [reflexivity |]. split; [cbn; lia |]. split; [cbn; lia |].
    split; [reflexivity | lia]. }
  assert (Hnb1 : chunk_nb priv1 = 0) by (subst priv1; reflexivity).
  destruct (ram_build_loop_whole sorted 0 c0 priv1 Hinv0) as
    (c2 & p2 & Heq & Hinv2 & Hcc2 & Hraw2 & Hshape2); try assumption.
  { rewrite Hnb1, Hslen. unfold MAX_MEMORY_REGION_NB. lia. }
  destruct (prev_end_after_max sorted 0 Hreg' Hsort Hfrom) as (_ & Hall & Hlast).
  remember (prev_end_after sorted 0) as E eqn:HE.
  assert (Hall' : Forall (fun e => entry_end e <= E) (d :: ds)).
  { eapply Permutation_Forall; [apply Permutation_sym; exact Hperm | exact Hall]. }
  assert (Hlast' : Exists (fun e => entry_end e = E) (d :: ds)).
  { eapply Permutation_Exists; [apply Permutation_sym; exact Hperm |].
    apply Hlast. intros Hnil. rewrite Hnil in Hslen. discriminate Hslen. }
  assert (Hpos : 0 < E).
  { apply Exists_exists in Hex. destruct Hex as (e & Hin & He).
    rewrite Forall_forall in Hall'. specialize (Hall' e Hin). lia. }
  pose proof Hinv2 as (Hs2 & He2 & _ & Hnb2 & _ & _ & Hbytes2 & Hraw0 & _ & Hcl2 & Hone2).
  specialize (Hone2 Hpos).
  assert (Hraw1 : planned_raw_blocks priv1 = 0) by (subst priv1; reflexivity).
  assert (Hshape1 : plan_shape priv1 = []) by (subst priv1; reflexivity).
  assert (Hcc1 : cur_chunk priv1 = 0) by (subst priv1; reflexivity).
  assert (Hconv : conventional_pages sorted = conventional_pages (d :: ds))
    by (symmetry; apply conventional_pages_perm; exact Hperm).
  rewrite Hraw1, Hconv, Z.add_0_l in Hraw2.
  rewrite Hshape1 in Hshape2. cbn [app] in Hshape2.
  exists (set_ram (set_end E p2)
            (FreePool ptr_NULL {| ram := ram w; pool_log := pool_log w ++ [] |})),
         (set_ctx_len (u64 (ctx_len c2 + sizeof_sparse_header)) c2), c2, p2, E.
  split.
  - unfold ram_open. change (Z.of_nat (List.length (@nil string)) >? 2) with false.
    rewrite Hflag, ram_parse_argv_nil. cbn [negb].
    change (nonzero (start (set_end 0 (set_is_in_used true zero_ram_priv))
                     mod EFI_PAGE_SIZE)
            || nonzero (end_ (set_end 0 (set_is_in_used true zero_ram_priv))
                        mod EFI_PAGE_SIZE)) with false.
    rewrite Hmap. cbn [EFI_ERROR]. rewrite <- Hsorted, <- Hpriv1.
    unfold ram_build_chunks. rewrite <- Hc0.
    replace (firstn (List.length (d :: ds)) (memmap priv1)) with sorted
      by (subst priv1; cbn [memmap set_memmap]; symmetry; apply firstn_all2;
          rewrite Hslen; apply le_n).
    rewrite Heq, He2. change (nonzero 0) with false. cbn [andb negb].
    replace (nonzero (ctx_len c2)) with true
      by (symmetry; apply nonzero_true; rewrite Hcl2;
          unfold sizeof_chunk_header, EFI_PAGE_SIZE; lia).
    cbn [negb EFI_ERROR]. reflexivity.
  - split; [reflexivity |]. split; [reflexivity |]. split; [exact Hinv2 |].
    split; [exact Hpos |]. split; [exact Hall' |]. split; [exact Hlast' |].
    split; [| split; [congruence | split; [exact Hraw2 | exact Hshape2]]].
    pose proof (ram_build_loop_spec _ _ _ _ _ _ _ _ Heq) as (_ & Hg & _).
    unfold grows, MAX_MEMORY_REGION_NB in *. rewrite Hnb1, Hslen in Hg.
    cbn [List.length] in *. lia.
Qed.

(** X7: the dump of the whole map.  On a memory map of up to 128
    descriptors that are page-aligned, lie below 2^44 and, in ascending
    order, do not overlap, [ram_open] without arguments succeeds when a
    descriptor ends above address 0.  The window it records is
    [0, end), [end] being the highest end of a descriptor; the planned
    chunks stand for exactly [end] bytes, holes included; the blocks of
    the RAW chunks are the pages of conventional memory; and the length
    of the stream is that of the file header, the chunk headers and the
    conventional memory. *)
Theorem ram_open_whole_map w ctx fw d ds :
  is_in_used (ram w) = false ->
  GetMemoryMap fw = (EFI_SUCCESS, (d, ds)) ->
  (List.length (d :: ds) <= 128)%nat ->
  Forall region_ok (d :: ds) ->
  StronglySorted no_overlap (sort_memory_map (d :: ds) (List.length (d :: ds))) ->
  Exists (fun e => 0 < entry_end e) (d :: ds) ->
  exists w' ctx',
    ram_open strtoul16 w ctx [] fw = (EFI_SUCCESS, w', ctx') /\
    start (ram w') = 0 /\
    Forall (fun e => entry_end e <= end_ (ram w')) (d :: ds) /\
    Exists (fun e => entry_end e = end_ (ram w')) (d :: ds) /\
    planned_bytes (ram w') = end_ (ram w') /\
    planned_raw_blocks (ram w') = conventional_pages (d :: ds) /\
    ctx_len ctx' = sizeof_sparse_header + sizeof_chunk_header * chunk_nb (ram w')
                   + EFI_PAGE_SIZE * conventional_pages (d :: ds).
Proof.
  intros Hflag Hmap Hlen Hreg Hsort Hex.
  destruct (ram_open_whole w ctx fw d ds Hflag Hmap Hlen Hreg Hsort Hex)
    as (w' & ctx' & c2 & p2 & E & Hopen & Hram & Hctx & Hinv & Hpos & Hall & Hlast
        & Hnbmax & _ & Hraw & _).
  exists w', ctx'. split; [exact Hopen |]. rewrite Hram, Hctx.
  destruct Hinv as (Hs & _ & _ & Hnb & HE & _ & Hbytes & Hraw0 & Hrawle & Hcl & _).
  cbn [start end_ set_end chunk_nb ctx_len set_ctx_len].
  split; [exact Hs |]. split; [exact Hall |]. split; [exact Hlast |].
  split; [exact Hbytes |]. split; [exact Hraw |].
  rewrite Hcl, Hraw. rewrite Hraw in Hraw0, Hrawle.
  unfold sizeof_chunk_header, sizeof_sparse_header, EFI_PAGE_SIZE,
    MAX_MEMORY_REGION_NB in *.
  rewrite u64_small by (unfold is_u64; lia). lia.
Qed.

(** X15: the plan of the whole map.  Under the same conditions the
    chunks [ram_open] plans are, descriptor after descriptor in
    ascending order, a DONT_CARE chunk for the hole before the
    descriptor, if there is one, and the chunk of the descriptor's
    pages, RAW for conventional memory and DONT_CARE for any other
    type. *)
Theorem ram_open_whole_map_plan w ctx fw d ds :
  is_in_used (ram w) = false ->
  GetMemoryMap fw = (EFI_SUCCESS, (d, ds)) ->
  (List.length (d :: ds) <= 128)%nat ->
  Forall region_ok (d :: ds) ->
  StronglySorted no_overlap (sort_memory_map (d :: ds) (List.length (d :: ds))) ->
  Exists (fun e => 0 < entry_end e) (d :: ds) ->
  exists w' ctx',
    ram_open strtoul16 w ctx [] fw = (EFI_SUCCESS, w', ctx') /\
    plan_shape (ram w')
    = whole_map_plan (sort_memory_map (d :: ds) (List.length (d :: ds))) 0.
Proof.
  intros Hflag Hmap Hlen Hreg Hsort Hex.
  destruct (ram_open_whole w ctx fw d ds Hflag Hmap Hlen Hreg Hsort Hex)
    as (w' & ctx' & c2 & p2 & E & Hopen & Hram & _ & _ & _ & _ & _ & _ & _ & _ & Hshape).
  exists w', ctx'. split; [exact Hopen |]. rewrite Hram. exact Hshape.
Qed.

End WholeMap.

(** The two regions of four pages at 0 and at 0x8000 make a well-formed
    map. *)
Lemma two_regions_ok :
  Forall region_ok [conventional 0 4; conventional 0x8000 4] /\
  StronglySorted no_overlap
    (sort_memory_map [conventional 0 4; conventional 0x8000 4]
       (List.length [conventional 0 4; conventional 0x8000 4])) /\
  Exists (fun e => 0 < entry_end e) [conventional 0 4; conventional 0x8000 4].
Proof.
  split; [| split].
  - repeat (apply Forall_cons || apply Forall_nil);
      (unfold region_ok, conventional, EFI_PAGE_SIZE;
       cbn [PhysicalStart NumberOfPages];
       split; [lia | split; [reflexivity | split; lia]]).
  - replace (sort_memory_map [conventional 0 4; conventional 0x8000 4]
               (List.length [conventional 0 4; conventional 0x8000 4]))
      with [conventional 0 4; conventional 0x8000 4] by reflexivity.
    constructor.
    + constructor; constructor.
    + constructor; [| constructor].
      unfold no_overlap. vm_compute. intros H; discriminate H.
  - apply Exists_cons_hd. vm_compute. reflexivity.
Defined.

(** X7, on a run: the two regions of four pages at 0 and at 0x8000. *)
Lemma ram_open_whole_map_run :
  exists w' ctx',
    ram_open hex_strtoul world0 ctx0 [] fw_two_regions = (EFI_SUCCESS, w', ctx') /\
    start (ram w') = 0 /\
    Forall (fun e => entry_end e <= end_ (ram w'))
      [conventional 0 4; conventional 0x8000 4] /\
    Exists (fun e => entry_end e = end_ (ram w'))
      [conventional 0 4; conventional 0x8000 4] /\
    planned_bytes (ram w') = end_ (ram w') /\
    planned_raw_blocks (ram w')
    = conventional_pages [conventional 0 4; conventional 0x8000 4] /\
    ctx_len ctx' = sizeof_sparse_header + sizeof_chunk_header * chunk_nb (ram w')
                   + EFI_PAGE_SIZE
                     * conventional_pages [conventional 0 4; conventional 0x8000 4].
Proof.
  apply (ram_open_whole_map hex_strtoul world0 ctx0 fw_two_regions
           (conventional 0 4) [conventional 0x8000 4]).
  - reflexivity.
  - reflexivity.
  - cbn. lia.
  - exact (proj1 two_regions_ok).
  - exact (proj1 (proj2 two_regions_ok)).
  - exact (proj2 (proj2 two_regions_ok)).
Defined.

(** X15, on a run: the plan of the two regions is RAW(4), DONT_CARE(4),
    RAW(4). *)
Lemma ram_open_whole_map_plan_run :
  exists w' ctx',
    ram_open hex_strtoul world0 ctx0 [] fw_two_regions = (EFI_SUCCESS, w', ctx') /\
    plan_shape (ram w')
    = [(CHUNK_TYPE_RAW, 4); (CHUNK_TYPE_DONT_CARE, 4); (CHUNK_TYPE_RAW, 4)].
Proof.
  apply (ram_open_whole_map_plan hex_strtoul world0 ctx0 fw_two_regions
           (conventional 0 4) [conventional 0x8000 4]).
  - reflexivity.
  - reflexivity.
  - cbn. lia.
  - exact (proj1 two_regions_ok).
  - exact (proj1 (proj2 two_regions_ok)).
  - exact (proj2 (proj2 two_regions_ok)).
Defined.

(** ** The partition reader and the reads *)

(** X8, on a run: in a partition of 8 blocks of 512 bytes the range of
    0x400 bytes at 0x800 is accepted. *)
Lemma part_open_window_check_run :
  fst (fst (part_open hex_strtoul world0 ctx0 ["boot"%string; "800"%string; "400"%string]
              (firmware_with_partition
                 {| starting_lba := 8; ending_lba := 15; BlockSize := 512 |})))
    = EFI_SUCCESS <->
  0x800 < u64 (u64 (15 + 1 - 8) * 512) /\ 0 < 0x400 /\
  0x800 + 0x400 < u64 (u64 (15 + 1 - 8) * 512).
Proof.
  apply (part_open_window_check hex_strtoul world0 ctx0 "boot"%string "800"%string
           "400"%string
           (firmware_with_partition
              {| starting_lba := 8; ending_lba := 15; BlockSize := 512 |})
           {| starting_lba := 8; ending_lba := 15; BlockSize := 512 |}
           0x800 0x400 EmptyString EmptyString).
  - reflexivity.
  - reflexivity.
  - reflexivity.
  - reflexivity.
  - reflexivity.
  - unfold is_u64. lia.
  - unfold is_u64. lia.
Defined.

Section PartFacts.

Variable strtoul16 : string -> Z * string.

(** X9: what [part_open] frees.  The partition name is freed exactly
    once whenever it was converted; the private state is freed exactly
    once on every failure after its allocation and never on success;
    nothing else is freed, and the static state of the RAM reader is not
    touched. *)
Theorem part_open_pool w ctx argv fw :
  ram (snd (fst (part_open strtoul16 w ctx argv fw))) = ram w /\
  pool_log (snd (fst (part_open strtoul16 w ctx argv fw)))
  = (pool_log w
     ++ (if part_named argv fw then [ptr_partname] else [])
     ++ (if part_allocated argv fw
            && EFI_ERROR (fst (fst (part_open strtoul16 w ctx argv fw)))
         then [ptr_part_priv] else []))%list.
Proof.
  unfold part_named, part_allocated, part_open.
  destruct ((Z.of_nat (List.length argv) <? 1) || (Z.of_nat (List.length argv) >? 3)).
  { cbn. rewrite app_nil_r. split; reflexivity. }
  destruct (AllocatePool_ok fw).
  2: { cbn. rewrite app_nil_r. split; reflexivity. }
  destruct (stra_to_str_ok fw).
  2: { cbn. split; reflexivity. }
  destruct (gpt_get_partition_by_label fw) as [ret g].
  cbn [negb andb].
  destruct (EFI_ERROR ret) eqn:Herr.
  { cbn [fst snd]. rewrite EFI_ERROR_error_or_invalid. cbn.
    rewrite <- app_assoc. split; reflexivity. }
  match goal with |- context [if ?c then (error_or_invalid _, _, _) else _] =>
    destruct c end.
  { cbn [fst snd]. rewrite EFI_ERROR_error_or_invalid. cbn.
    rewrite <- app_assoc. split; reflexivity. }
  match goal with |- context [if ?c then (error_or_invalid _, _, _) else _] =>
    destruct c end.
  { cbn [fst snd]. rewrite EFI_ERROR_error_or_invalid. cbn.
    rewrite <- app_assoc. split; reflexivity. }
  cbn. rewrite ?app_nil_r. split; reflexivity.
Qed.

End PartFacts.

(** X10: a failed disk read can be retried.  When [part_read] has to
    refill its buffer and [ReadDisk] fails, [reader_read] returns that
    error, leaves the cursor and the world alone, and the next
    [reader_read] on the context does what it would have done in place
    of the failed one. *)
Theorem part_read_retry w ctx len fw fw' p :
  ctx_reader ctx = Some READER_part ->
  ctx_private ctx = priv_part p ->
  need_more_data p = true ->
  EFI_ERROR (ReadDisk fw) = true ->
  0 < len -> u64 (ctx_len ctx - ctx_cur ctx) <> 0 ->
  rr_status (reader_read w ctx len fw) = ReadDisk fw /\
  rr_world (reader_read w ctx len fw) = w /\
  ctx_cur (rr_ctx (reader_read w ctx len fw)) = ctx_cur ctx /\
  ctx_len (rr_ctx (reader_read w ctx len fw)) = ctx_len ctx /\
  reader_read w (rr_ctx (reader_read w ctx len fw)) len fw' = reader_read w ctx len fw'.
Proof.
  intros Hr Hp Hmore Herr Hlen Hleft.
  pose proof (u64_range (ctx_len ctx - ctx_cur ctx)) as Hrg. unfold is_u64 in Hrg.
  destruct ctx as [rd c l pv]. cbn in Hr, Hp, Hleft, Hrg. subst rd pv.
  destruct p as [g more bc bl off]. cbn in Hmore. subst more.
  remember (Z.min len (u64 (l - c))) as n eqn:Hn.
  assert (Hn0 : (n =? 0) = false) by (apply Z.eqb_neq; lia).
  assert (Hl0 : (len =? 0) = false) by (apply Z.eqb_neq; lia).
  remember {| ctx_reader := Some READER_part; ctx_cur := c; ctx_len := l;
              ctx_private :=
                priv_part {| gparti := g; need_more_data := true; buf_cur := bc;
                             buf_len := Z.min PART_READER_BUF_SIZE (u64 (l - c));
                             offset := off |} |} as ctx1 eqn:Hctx1.
  assert (Hfail :
    reader_read w
      {| ctx_reader := Some READER_part; ctx_cur := c; ctx_len := l;
         ctx_private :=
           priv_part {| gparti := g; need_more_data := true; buf_cur := bc;
                        buf_len := bl; offset := off |} |} len fw
    = {| rr_status := ReadDisk fw; rr_world := w; rr_ctx := ctx1;
         rr_buf := buf_none; rr_len := n |}).
  { unfold reader_read. cbn [ctx_reader ctx_len ctx_cur].
    rewrite Hl0, <- Hn, Hn0. cbn [reader_read_fn]. unfold part_read.
    cbn [ctx_private need_more_data ctx_len ctx_cur]. rewrite Herr. cbn [andb].
    cbn [rr_status]. rewrite Herr. rewrite Hctx1. reflexivity. }
  rewrite Hfail. cbn [rr_status rr_world rr_ctx].
  split; [reflexivity |]. split; [reflexivity |].
  split; [rewrite Hctx1; reflexivity |]. split; [rewrite Hctx1; reflexivity |].
  rewrite Hctx1. unfold reader_read. cbn [ctx_reader ctx_len ctx_cur].
  rewrite Hl0, <- Hn, Hn0. cbn [reader_read_fn]. unfold part_read.
  cbn [ctx_private need_more_data ctx_len ctx_cur andb].
  destruct (EFI_ERROR (ReadDisk fw')); reflexivity.
Qed.

(** X11: what a read never does.  [reader_read] never changes the
    length or the reader of the context, frees nothing, and leaves the
    in-use flag, the window, the chunk plan and the sparse header of the
    RAM reader as they are; a read that fails also leaves the cursor and
    the world as they are. *)
Theorem reader_read_keeps w ctx len fw :
  ctx_len (rr_ctx (reader_read w ctx len fw)) = ctx_len ctx /\
  ctx_reader (rr_ctx (reader_read w ctx len fw)) = ctx_reader ctx /\
  pool_log (rr_world (reader_read w ctx len fw)) = pool_log w /\
  is_in_used (ram (rr_world (reader_read w ctx len fw))) = is_in_used (ram w) /\
  start (ram (rr_world (reader_read w ctx len fw))) = start (ram w) /\
  end_ (ram (rr_world (reader_read w ctx len fw))) = end_ (ram w) /\
  chunk_nb (ram (rr_world (reader_read w ctx len fw))) = chunk_nb (ram w) /\
  chunks (ram (rr_world (reader_read w ctx len fw))) = chunks (ram w) /\
  sheader (ram (rr_world (reader_read w ctx len fw))) = sheader (ram w) /\
  (rr_status (reader_read w ctx len fw) <> EFI_SUCCESS ->
   rr_world (reader_read w ctx len fw) = w /\
   ctx_cur (rr_ctx (reader_read w ctx len fw)) = ctx_cur ctx).
Proof.
  unfold reader_read.
  destruct (ctx_reader ctx) as [r |] eqn:Hr;
    [| cbn; rewrite Hr; repeat split; reflexivity].
  destruct (len =? 0); [cbn; rewrite Hr; repeat split; reflexivity |].
  destruct (Z.min len (u64 (ctx_len ctx - ctx_cur ctx)) =? 0);
    [cbn; rewrite Hr; repeat split; try reflexivity; intros H; contradiction |].
  remember (Z.min len (u64 (ctx_len ctx - ctx_cur ctx))) as n eqn:Hn.
  assert (Hfn :
    ctx_len (rr_ctx (reader_read_fn r w ctx n fw)) = ctx_len ctx /\
    ctx_reader (rr_ctx (reader_read_fn r w ctx n fw)) = ctx_reader ctx /\
    ctx_cur (rr_ctx (reader_read_fn r w ctx n fw)) = ctx_cur ctx /\
    pool_log (rr_world (reader_read_fn r w ctx n fw)) = pool_log w /\
    is_in_used (ram (rr_world (reader_read_fn r w ctx n fw))) = is_in_used (ram w) /\
    start (ram (rr_world (reader_read_fn r w ctx n fw))) = start (ram w) /\
    end_ (ram (rr_world (reader_read_fn r w ctx n fw))) = end_ (ram w) /\
    chunk_nb (ram (rr_world (reader_read_fn r w ctx n fw))) = chunk_nb (ram w) /\
    chunks (ram (rr_world (reader_read_fn r w ctx n fw))) = chunks (ram w) /\
    sheader (ram (rr_world (reader_read_fn r w ctx n fw))) = sheader (ram w) /\
    (rr_status (reader_read_fn r w ctx n fw) <> EFI_SUCCESS ->
     rr_world (reader_read_fn r w ctx n fw) = w)).
  { assert (Hdone : forall res : read_result,
      ctx_len (rr_ctx res) = ctx_len ctx -> ctx_reader (rr_ctx res) = ctx_reader ctx ->
      ctx_cur (rr_ctx res) = ctx_cur ctx -> pool_log (rr_world res) = pool_log w ->
      is_in_used (ram (rr_world res)) = is_in_used (ram w) ->
      start (ram (rr_world res)) = start (ram w) ->
      end_ (ram (rr_world res)) = end_ (ram w) ->
      chunk_nb (ram (rr_world res)) = chunk_nb (ram w) ->
      chunks (ram (rr_world res)) = chunks (ram w) ->
      sheader (ram (rr_world res)) = sheader (ram w) ->
      (rr_status res = EFI_SUCCESS \/ rr_world res = w) ->
      ctx_len (rr_ctx res) = ctx_len ctx /\
      ctx_reader (rr_ctx res) = ctx_reader ctx /\
      ctx_cur (rr_ctx res) = ctx_cur ctx /\
      pool_log (rr_world res) = pool_log w /\
      is_in_used (ram (rr_world res)) = is_in_used (ram w) /\
      start (ram (rr_world res)) = start (ram w) /\
      end_ (ram (rr_world res)) = end_ (ram w) /\
      chunk_nb (ram (rr_world res)) = chunk_nb (ram w) /\
      chunks (ram (rr_world res)) = chunks (ram w) /\
      sheader (ram (rr_world res)) = sheader (ram w) /\
      (rr_status res <> EFI_SUCCESS -> rr_world res = w)).
    { intros res ? ? ? ? ? ? ? ? ? ? [Hs | Hw];
        repeat match goal with |- _ /\ _ => split end; try assumption.
      - intros Hne. contradiction.
      - intros _. exact Hw. }
    destruct r; cbn [reader_read_fn].
    - unfold ram_read.
      destruct (ctx_cur ctx =? 0).
      { destruct (n <? sizeof_sparse_header); apply Hdone;
          try reflexivity; [right | left]; reflexivity. }
      destruct (cur (ram w) =? cur_end (ram w)).
      + destruct ((cur_chunk (ram w) =? chunk_nb (ram w)) || (n <? sizeof_chunk_header)).
        { apply Hdone; try reflexivity. right; reflexivity. }
        destruct (negb (chunk_type (array_get (chunks (ram w)) (cur_chunk (ram w)))
                        =? CHUNK_TYPE_RAW));
          apply Hdone; try reflexivity; left; reflexivity.
      + apply Hdone; try reflexivity. left; reflexivity.
    - apply Hdone; try reflexivity. left; reflexivity.
    - unfold part_read. destruct (ctx_private ctx) as [| | p | |];
        try (apply Hdone; try reflexivity; right; reflexivity).
      destruct (need_more_data p && EFI_ERROR (ReadDisk fw));
        apply Hdone; try reflexivity; [right | left]; reflexivity.
    - apply Hdone; try reflexivity. left; reflexivity. }
  destruct Hfn as (H1 & H2 & H3 & H4 & H5 & H6 & H7 & H8 & H9 & H10 & H11).
  destruct (EFI_ERROR (rr_status (reader_read_fn r w ctx n fw))) eqn:Herr.
  - rewrite <- Hr.
    repeat match goal with |- _ /\ _ => split end; try assumption.
    intros Hs. split; [apply H11; exact Hs | exact H3].
  - cbn [rr_status rr_world rr_ctx rr_len ctx_len ctx_reader set_ctx_cur].
    rewrite <- Hr.
    repeat match goal with |- _ /\ _ => split end; try assumption.
    intros Hs. contradiction.
Qed.

(** X10, on a run: the first read of the stream [part:boot] fails with
    the disk, and is retried. *)
Lemma part_read_retry_run :
  rr_status (reader_read w_part ctx_part 4096 fw_disk_error) = ReadDisk fw_disk_error /\
  rr_world (reader_read w_part ctx_part 4096 fw_disk_error) = w_part /\
  ctx_cur (rr_ctx (reader_read w_part ctx_part 4096 fw_disk_error)) = ctx_cur ctx_part /\
  ctx_len (rr_ctx (reader_read w_part ctx_part 4096 fw_disk_error)) = ctx_len ctx_part /\
  reader_read w_part (rr_ctx (reader_read w_part ctx_part 4096 fw_disk_error)) 4096
    (firmware_with_partition gpt8)
  = reader_read w_part ctx_part 4096 (firmware_with_partition gpt8).
Proof.
  apply (part_read_retry w_part ctx_part 4096 fw_disk_error
           (firmware_with_partition gpt8)
           {| gparti := gpt8; need_more_data := true; buf_cur := 0; buf_len := 0;
              offset := 4096 |}).
  - vm_compute. reflexivity.
  - vm_compute. reflexivity.
  - reflexivity.
  - reflexivity.
  - lia.
  - vm_compute. discriminate.
Defined.

(** ** The search of [efivar_find] *)

(** The loop over answers that let the enumeration go on, up to the
    answer [last] that ends it with [ret]: it stops at a second variable
    of the name, if there is one. *)
Lemma efivar_find_loop_spec realloc_ok varname last rest ret vars :
  forall bufsize found,
  (forall old new, realloc_ok old new = true) ->
  Forall EfiVar.goes_on vars ->
  (forall size f,
     EfiVar.efivar_find_loop realloc_ok (last :: rest) varname size f
     = Some (EfiVar.find_break ret f)) ->
  EfiVar.efivar_find_loop realloc_ok (vars ++ last :: rest) varname bufsize found
  = Some (match (match found with Some g => [g] | None => [] end)
                ++ map EfiVar.gnv_guid (filter (EfiVar.names varname) vars) with
          | [] => EfiVar.find_break ret None
          | [g] => EfiVar.find_break ret (Some g)
          | g :: _ :: _ => EfiVar.find_break EFI_UNSUPPORTED (Some g)
          end).
Proof.
  intros bufsize found Hre Hvars Hlast. revert bufsize found.
  induction vars as [| r vars IH]; intros bufsize found.
  - cbn [app filter map]. rewrite Hlast. destruct found; reflexivity.
  - inversion Hvars as [| x xs Hr Hrest]; subst. specialize (IH Hrest).
    cbn [app EfiVar.efivar_find_loop filter]. unfold EfiVar.names at 1.
    destruct Hr as [Hr | Hr]; rewrite Hr.
    + destruct (String.eqb (EfiVar.gnv_name r) varname).
      * destruct found as [g0 |].
        -- cbn. reflexivity.
        -- rewrite IH. cbn. reflexivity.
      * apply IH.
    + rewrite Hre. apply IH.
Qed.

(** X12: [efivar_find] finds the variable by counting.  When the
    enumeration runs to its end ([EFI_NOT_FOUND]) over variables and
    buffer enlargements, none of which fails, [efivar_find] returns
    [EFI_NOT_FOUND] if no variable has the name, [EFI_SUCCESS] with its
    GUID if exactly one has, and [EFI_UNSUPPORTED] if two or more have;
    the name buffer is freed in each case. *)
Theorem efivar_find_counts fw varname vars last rest :
  EfiVar.AllocateZeroPool_ok fw = true ->
  (forall old new, EfiVar.ReallocatePool_ok fw old new = true) ->
  EfiVar.GetNextVariableName fw = (vars ++ last :: rest)%list ->
  Forall EfiVar.goes_on vars ->
  EfiVar.gnv_status last = EFI_NOT_FOUND ->
  EfiVar.efivar_find fw varname
  = Some (match map EfiVar.gnv_guid (filter (EfiVar.names varname) vars) with
          | [] => (EFI_NOT_FOUND, None, true)
          | [g] => (EFI_SUCCESS, Some g, true)
          | _ :: _ :: _ => (EFI_UNSUPPORTED, None, true)
          end).
Proof.
  intros Halloc Hre Hreplies Hvars Hlast. unfold EfiVar.efivar_find.
  rewrite Halloc, Hreplies. cbn [negb].
  rewrite (efivar_find_loop_spec _ varname last rest EFI_SUCCESS vars 64 None Hre Hvars).
  - cbn [app].
    destruct (map EfiVar.gnv_guid (filter (EfiVar.names varname) vars))
      as [| g [| g2 l]]; reflexivity.
  - intros size f. cbn [EfiVar.efivar_find_loop]. rewrite Hlast. reflexivity.
Qed.

(** X13: a failure of the enumeration is what [efivar_find] returns,
    also when the variable was found before it: over variables and
    buffer enlargements with at most one variable of the name, followed
    by an answer that fails, [efivar_find] returns the status of that
    answer, writes no GUID and frees the name buffer. *)
Theorem efivar_find_error fw varname vars last rest :
  EfiVar.AllocateZeroPool_ok fw = true ->
  (forall old new, EfiVar.ReallocatePool_ok fw old new = true) ->
  EfiVar.GetNextVariableName fw = (vars ++ last :: rest)%list ->
  Forall EfiVar.goes_on vars ->
  (List.length (filter (EfiVar.names varname) vars) <= 1)%nat ->
  EfiVar.fails last ->
  EfiVar.efivar_find fw varname = Some (EfiVar.gnv_status last, None, true).
Proof.
  intros Halloc Hre Hreplies Hvars Hone (H1 & H2 & H3). unfold EfiVar.efivar_find.
  rewrite Halloc, Hreplies. cbn [negb].
  rewrite (efivar_find_loop_spec _ varname last rest (EfiVar.gnv_status last) vars
             64 None Hre Hvars).
  - cbn [app].
    destruct (filter (EfiVar.names varname) vars) as [| r [| r2 l]];
      cbn [map List.length] in *; [| | lia];
      destruct (EfiVar.gnv_status last); try reflexivity; contradiction.
  - intros size f. cbn [EfiVar.efivar_find_loop].
    destruct (EfiVar.gnv_status last); try reflexivity; contradiction.
Qed.

(** X14: [efivar_find] writes the GUID exactly when it returns
    [EFI_SUCCESS], and a call that returns [EFI_SUCCESS] or
    [EFI_NOT_FOUND] has freed its name buffer. *)
Theorem efivar_find_guid fw varname :
  match EfiVar.efivar_find fw varname with
  | Some (ret, guid_p, freed) =>
      (guid_p <> None <-> ret = EFI_SUCCESS) /\
      (ret = EFI_SUCCESS \/ ret = EFI_NOT_FOUND -> freed = true)
  | None => True
  end.
Proof.
  unfold EfiVar.efivar_find.
  destruct (EfiVar.AllocateZeroPool_ok fw); cbn [negb].
  2: { split; [split; [intros H; contradiction | discriminate] |].
       intros [H | H]; discriminate. }
  destruct (EfiVar.efivar_find_loop (EfiVar.ReallocatePool_ok fw)
              (EfiVar.GetNextVariableName fw) varname 64 None) as [[ret found | ret] |] eqn:E;
    [| | exact I].
  - destruct (EFI_ERROR ret) eqn:Herr.
    + split; [| intros _; reflexivity].
      split; [intros H; contradiction | intros H; subst ret; discriminate].
    + destruct found; (split; [| intros _; reflexivity]); split;
        (reflexivity || discriminate || (intros H; contradiction)).
  - (* the [return] inside the loop is the one of the failed reallocation *)
    assert (Hret : ret = EFI_OUT_OF_RESOURCES).
    { clear -E. revert E. generalize (@None Z) at 1. generalize 64.
      induction (EfiVar.GetNextVariableName fw) as [| r l IH]; intros size f;
        cbn [EfiVar.efivar_find_loop]; [discriminate |].
      destruct (EfiVar.gnv_status r); try discriminate.
      - destruct (String.eqb (EfiVar.gnv_name r) varname);
          [destruct f; [discriminate | apply IH] | apply IH].
      - destruct (EfiVar.ReallocatePool_ok fw size (EfiVar.gnv_namesize r));
          [apply IH |]. intros H. injection H as H. symmetry. exact H. }
    subst ret. split; [split; [intros H; contradiction | discriminate] |].
    intros [H | H]; discriminate.
Qed.

(** X12, on a run: in the store with [Boot0001] and two variables named
    [db], [Boot0001] is found with its GUID. *)
Lemma efivar_find_counts_run :
  EfiVar.efivar_find
    (EfiVar.services (EfiVar.store ++ [EfiVar.answer EFI_NOT_FOUND])%list)
    "Boot0001"%string
  = Some (EFI_SUCCESS, Some 2, true).
Proof.
  apply (efivar_find_counts
           (EfiVar.services (EfiVar.store ++ [EfiVar.answer EFI_NOT_FOUND])%list)
           "Boot0001"%string EfiVar.store (EfiVar.answer EFI_NOT_FOUND) []).
  - reflexivity.
  - intros old new. reflexivity.
  - reflexivity.
  - unfold EfiVar.store, EfiVar.goes_on.
    repeat (apply Forall_cons || apply Forall_nil); cbn; tauto.
  - reflexivity.
Defined.

(** X13, on a run: the enumeration fails after the first [db]. *)
Lemma efivar_find_error_run :
  EfiVar.efivar_find
    (EfiVar.services
       [EfiVar.var "db" 1; EfiVar.too_small 128; EfiVar.answer EFI_DEVICE_ERROR;
        EfiVar.var "db" 3])
    "db"%string
  = Some (EFI_DEVICE_ERROR, None, true).
Proof.
  apply (efivar_find_error
           (EfiVar.services
              [EfiVar.var "db" 1; EfiVar.too_small 128; EfiVar.answer EFI_DEVICE_ERROR;
               EfiVar.var "db" 3])
           "db"%string [EfiVar.var "db" 1; EfiVar.too_small 128]
           (EfiVar.answer EFI_DEVICE_ERROR) [EfiVar.var "db" 3]).
  - reflexivity.
  - intros old new. reflexivity.
  - reflexivity.
  - unfold EfiVar.goes_on.
    repeat (apply Forall_cons || apply Forall_nil); cbn; tauto.
  - cbn. lia.
  - unfold EfiVar.fails. cbn. repeat split; discriminate.
Defined.

(** ** Reading a RAM stream to its end *)

Lemma sum_Z_app l1 l2 : sum_Z (l1 ++ l2) = sum_Z l1 + sum_Z l2.
Proof.
  unfold sum_Z. induction l1 as [| a l1 IH]; cbn; [reflexivity | rewrite IH; lia].
Qed.

Lemma stream_bytes_app l1 l2 :
  stream_bytes (l1 ++ l2) = stream_bytes l1 + stream_bytes l2.
Proof. unfold stream_bytes. rewrite map_app. apply sum_Z_app. Qed.

Lemma block_bytes_app l1 l2 :
  block_bytes (l1 ++ l2) = block_bytes l1 + block_bytes l2.
Proof. unfold block_bytes. rewrite map_app. apply sum_Z_app. Qed.

Lemma firstn_S_nth {A : Type} (d : A) :
  forall n l, (n < List.length l)%nat -> firstn (S n) l = firstn n l ++ [nth n l d].
Proof.
  induction n as [| n IH]; intros [| a l] Hlt; cbn [List.length] in Hlt; try lia.
  - reflexivity.
  - change (firstn (S (S n)) (a :: l)) with (a :: firstn (S n) l).
    rewrite IH by lia. reflexivity.
Qed.

Lemma nth_firstn_lt {A : Type} (d : A) :
  forall i j l, (i < j)%nat -> nth i (firstn j l) d = nth i l d.
Proof.
  induction i as [| i IH]; intros [| j] [| a l] Hlt; try lia; try reflexivity.
  cbn. apply IH. lia.
Qed.

Lemma Forall_firstn_of {A : Type} (P : A -> Prop) n l :
  Forall P l -> Forall P (firstn n l).
Proof.
  intros H. rewrite <- (firstn_skipn n l) in H. apply Forall_app in H. apply H.
Qed.

Lemma chunk_bytes_min c : 0 <= chunk_sz c -> sizeof_chunk_header <= chunk_bytes c.
Proof.
  intros H. unfold chunk_bytes, EFI_PAGE_SIZE.
  destruct (chunk_type c =? CHUNK_TYPE_RAW); lia.
Qed.

Lemma stream_bytes_nonneg l :
  Forall (fun c => 0 <= chunk_sz c < 2 ^ 32) l -> 0 <= stream_bytes l.
Proof.
  induction 1 as [| c l Hc _ IH]; [unfold stream_bytes; cbn; lia |].
  change (stream_bytes (c :: l)) with (chunk_bytes c + stream_bytes l).
  pose proof (chunk_bytes_min c ltac:(lia)). unfold sizeof_chunk_header in *. lia.
Qed.

(** The chunks sent are a prefix of the plan. *)
Lemma stream_bytes_sent l n :
  Forall (fun c => 0 <= chunk_sz c < 2 ^ 32) l ->
  stream_bytes l = stream_bytes (firstn n l) + stream_bytes (skipn n l) /\
  0 <= stream_bytes (firstn n l) /\ 0 <= stream_bytes (skipn n l).
Proof.
  intros H. rewrite <- (firstn_skipn n l) at 1. rewrite stream_bytes_app.
  rewrite <- (firstn_skipn n l) in H. apply Forall_app in H. destruct H as [H1 H2].
  split; [reflexivity |]. split; apply stream_bytes_nonneg; assumption.
Qed.

(** The chunk whose header is sent next. *)
Lemma sent_chunks_next priv :
  0 <= cur_chunk priv < chunk_nb priv ->
  chunk_nb priv <= Z.of_nat (List.length (chunks priv)) ->
  firstn (Z.to_nat (cur_chunk priv + 1)) (planned priv)
  = sent_chunks priv ++ [array_get (chunks priv) (cur_chunk priv)].
Proof.
  intros Hcc Hnb. unfold sent_chunks, array_get.
  replace (Z.to_nat (cur_chunk priv + 1)) with (S (Z.to_nat (cur_chunk priv))) by lia.
  rewrite (firstn_S_nth zero_chunk).
  - unfold planned. rewrite nth_firstn_lt by lia. reflexivity.
  - unfold planned. rewrite firstn_length_le by lia. lia.
Qed.

Lemma u64_add_sub a b : u64 (u64 (a + b) - a) = u64 b.
Proof.
  unfold u64. rewrite Zminus_mod, Z.mod_mod, <- Zminus_mod by lia.
  f_equal. lia.
Qed.

Lemma u64_sub_add a b n : u64 (b - u64 (a + n)) = u64 (u64 (b - a) - n).
Proof.
  unfold u64. rewrite (Zminus_mod b), Z.mod_mod, <- Zminus_mod by lia.
  rewrite (Zminus_mod ((b - a) mod 2 ^ 64)), Z.mod_mod, <- Zminus_mod by lia.
  f_equal. lia.
Qed.

Lemma u64_add_add s x y : u64 (u64 (s + x) + y) = u64 (s + (x + y)).
Proof. unfold u64. rewrite Z.add_mod_idemp_l by lia. f_equal. lia. Qed.

Lemma u64_add_left a b : u64 (a + u64 (b - a)) = u64 b.
Proof. unfold u64. rewrite Z.add_mod_idemp_r by lia. f_equal. lia. Qed.

Lemma chunk_sz_u32 l :
  Forall (fun c => 0 <= chunk_sz c < 2 ^ 20) l ->
  Forall (fun c => 0 <= chunk_sz c < 2 ^ 32) l.
Proof.
  intros H. eapply Forall_impl; [| exact H]. cbv beta. intros c Hc. lia.
Qed.

(** Chunks that stand for less than 4 GiB in all are each smaller than
    4 GiB. *)
Lemma block_bytes_small l :
  Forall (fun c => 0 <= chunk_sz c) l -> block_bytes l < 2 ^ 32 ->
  0 <= block_bytes l /\ Forall (fun c => 0 <= chunk_sz c < 2 ^ 20) l.
Proof.
  induction 1 as [| c l Hc _ IH]; intros Hsum.
  - split; [unfold block_bytes; cbn; lia | constructor].
  - change (block_bytes (c :: l)) with (chunk_sz c * EFI_PAGE_SIZE + block_bytes l)
      in *.
    unfold EFI_PAGE_SIZE in *.
    assert (Hl : block_bytes l < 2 ^ 32) by lia.
    destruct (IH Hl) as [H0 Hall].
    split; [lia |]. constructor; [lia | exact Hall].
Qed.

(** The first read of a RAM stream: the sparse header. *)
Lemma ram_stream_read_header w ctx len fw :
  ram_stream w ctx -> ctx_cur ctx = 0 ->
  sizeof_sparse_header <= len < 2 ^ 64 ->
  reader_read w ctx len fw
  = {| rr_status := EFI_SUCCESS;
       rr_world := set_ram (set_cur_end (start (ram w))
                              (set_cur (start (ram w)) (ram w))) w;
       rr_ctx := set_ctx_cur sizeof_sparse_header ctx;
       rr_buf := buf_sheader; rr_len := sizeof_sparse_header |}.
Proof.
  intros (Hr & Hcc & Hmax & Hnb & Hsz20 & Hlen & Hlt & Hst & Hpos) Hc0 Hbuf.
  pose proof (chunk_sz_u32 _ Hsz20) as Hsz.
  pose proof (stream_bytes_nonneg _ Hsz) as Hsb.
  unfold reader_read. rewrite Hr, Hc0.
  replace (len =? 0) with false
    by (symmetry; apply Z.eqb_neq; unfold sizeof_sparse_header in *; lia).
  rewrite Z.sub_0_r, u64_small by (unfold is_u64, sizeof_sparse_header in *; lia).
  replace (Z.min len (ctx_len ctx) =? 0) with false
    by (symmetry; apply Z.eqb_neq; unfold sizeof_sparse_header in *; lia).
  cbn [reader_read_fn]. unfold ram_read. rewrite Hc0.
  change (0 =? 0) with true. cbv iota.
  replace (Z.min len (ctx_len ctx) <? sizeof_sparse_header) with false
    by (symmetry; apply Z.ltb_ge; unfold sizeof_sparse_header in *; lia).
  cbn [rr_status EFI_ERROR rr_world rr_ctx rr_len rr_buf ctx_cur].
  rewrite Hc0. reflexivity.
Qed.

(** The read at a chunk boundary: the header of the next chunk. *)
Lemma ram_stream_read_chunk w ctx len fw :
  ram_stream w ctx -> ctx_cur ctx <> 0 -> ram_left (ram w) = 0 ->
  cur_chunk (ram w) < chunk_nb (ram w) ->
  sizeof_sparse_header <= len < 2 ^ 64 ->
  let chunk := array_get (chunks (ram w)) (cur_chunk (ram w)) in
  let priv := set_cur_end (u64 (cur (ram w) + chunk_sz chunk * EFI_PAGE_SIZE))
                (set_cur_chunk (cur_chunk (ram w) + 1) (ram w)) in
  reader_read w ctx len fw
  = {| rr_status := EFI_SUCCESS;
       rr_world := set_ram (if negb (chunk_type chunk =? CHUNK_TYPE_RAW)
                            then set_cur (cur_end priv) priv else priv) w;
       rr_ctx := set_ctx_cur (ctx_cur ctx + sizeof_chunk_header) ctx;
       rr_buf := buf_chunk (cur_chunk (ram w)); rr_len := sizeof_chunk_header |} /\
  0 <= chunk_sz chunk < 2 ^ 32 /\
  stream_bytes (firstn (Z.to_nat (cur_chunk (ram w) + 1)) (planned (ram w)))
  = stream_bytes (sent_chunks (ram w)) + chunk_bytes chunk /\
  block_bytes (firstn (Z.to_nat (cur_chunk (ram w) + 1)) (planned (ram w)))
  = block_bytes (sent_chunks (ram w)) + chunk_sz chunk * EFI_PAGE_SIZE /\
  ctx_cur ctx + chunk_bytes chunk <= ctx_len ctx.
Proof.
  intros (Hr & Hcc & Hmax & Hnb & Hsz20 & Hlen & Hlt & Hst & Hpos) Hc0 Hleft Hmore Hbuf.
  pose proof (chunk_sz_u32 _ Hsz20) as Hsz.
  cbv zeta.
  destruct Hpos as [[Hc _] | (Hcu & Hce & Hmin & Hcur & Hcend & _)]; [contradiction |].
  assert (Hnext : firstn (Z.to_nat (cur_chunk (ram w) + 1)) (planned (ram w))
                  = sent_chunks (ram w)
                    ++ [array_get (chunks (ram w)) (cur_chunk (ram w))])
    by (apply sent_chunks_next; lia).
  pose proof (stream_bytes_sent _ (Z.to_nat (cur_chunk (ram w) + 1)) Hsz)
    as (Hsplit & _ & Hrest).
  pose proof (Forall_firstn_of _ (Z.to_nat (cur_chunk (ram w) + 1)) _ Hsz) as Hin.
  rewrite Hnext in Hin, Hsplit. apply Forall_app in Hin. destruct Hin as [_ Hin].
  apply Forall_inv in Hin.
  pose proof (Forall_firstn_of _ (Z.to_nat (cur_chunk (ram w) + 1)) _ Hsz20) as Hin20.
  rewrite Hnext in Hin20. apply Forall_app in Hin20. destruct Hin20 as [_ Hin20].
  apply Forall_inv in Hin20.
  rewrite stream_bytes_app in Hsplit.
  change (stream_bytes [array_get (chunks (ram w)) (cur_chunk (ram w))])
    with (chunk_bytes (array_get (chunks (ram w)) (cur_chunk (ram w))) + 0) in Hsplit.
  pose proof (chunk_bytes_min _ (proj1 Hin)) as Hcb.
  assert (Heq : cur (ram w) = cur_end (ram w)).
  { unfold ram_left in Hleft. apply (proj1 (u64_sub_zero _ _ Hcu Hce)) in Hleft.
    exact Hleft. }
  assert (Hfit : ctx_cur ctx + chunk_bytes (array_get (chunks (ram w)) (cur_chunk (ram w)))
                 <= ctx_len ctx) by lia.
  split; [| split; [exact Hin | split; [| split; [| exact Hfit]]]].
  - unfold reader_read. rewrite Hr.
    replace (len =? 0) with false
      by (symmetry; apply Z.eqb_neq; unfold sizeof_sparse_header in *; lia).
    rewrite (u64_small (ctx_len ctx - ctx_cur ctx))
      by (unfold is_u64, sizeof_sparse_header, sizeof_chunk_header in *; lia).
    remember (Z.min len (ctx_len ctx - ctx_cur ctx)) as n eqn:Hn.
    assert (Hn12 : sizeof_chunk_header <= n)
      by (unfold sizeof_sparse_header, sizeof_chunk_header in *; lia).
    replace (n =? 0) with false
      by (symmetry; apply Z.eqb_neq; unfold sizeof_chunk_header in *; lia).
    cbn [reader_read_fn]. unfold ram_read.
    replace (ctx_cur ctx =? 0) with false by (symmetry; apply Z.eqb_neq; exact Hc0).
    replace (cur (ram w) =? cur_end (ram w)) with true
      by (symmetry; apply Z.eqb_eq; exact Heq).
    replace (cur_chunk (ram w) =? chunk_nb (ram w)) with false
      by (symmetry; apply Z.eqb_neq; lia).
    replace (n <? sizeof_chunk_header) with false
      by (symmetry; apply Z.ltb_ge; exact Hn12).
    cbn [orb]. cbv zeta.
    rewrite (u64_small (cur_chunk (ram w) + 1))
      by (unfold is_u64, MAX_MEMORY_REGION_NB in *; lia).
    cbn [cur set_cur_chunk].
    rewrite (u32_small (chunk_sz (array_get (chunks (ram w)) (cur_chunk (ram w)))
                        * EFI_PAGE_SIZE))
      by (unfold is_u32, EFI_PAGE_SIZE; lia).
    destruct (negb (chunk_type (array_get (chunks (ram w)) (cur_chunk (ram w)))
                    =? CHUNK_TYPE_RAW));
      cbn [rr_status EFI_ERROR rr_world rr_ctx rr_len rr_buf ctx_cur];
      rewrite (u64_small (ctx_cur ctx + sizeof_chunk_header))
        by (unfold is_u64, sizeof_sparse_header, sizeof_chunk_header in *; lia);
      reflexivity.
  - rewrite Hnext, stream_bytes_app.
    change (stream_bytes [array_get (chunks (ram w)) (cur_chunk (ram w))])
      with (chunk_bytes (array_get (chunks (ram w)) (cur_chunk (ram w))) + 0).
    lia.
  - rewrite Hnext, block_bytes_app.
    change (block_bytes [array_get (chunks (ram w)) (cur_chunk (ram w))])
      with (chunk_sz (array_get (chunks (ram w)) (cur_chunk (ram w))) * EFI_PAGE_SIZE + 0).
    lia.
Qed.

(** The read inside a RAW chunk: what is left of it, or as much as fits. *)
Lemma ram_stream_read_payload w ctx len fw :
  ram_stream w ctx -> ctx_cur ctx <> 0 -> ram_left (ram w) <> 0 ->
  sizeof_sparse_header <= len < 2 ^ 64 ->
  reader_read w ctx len fw
  = {| rr_status := EFI_SUCCESS;
       rr_world := set_ram (set_cur (u64 (cur (ram w)
                                           + Z.min len (ram_left (ram w)))) (ram w)) w;
       rr_ctx := set_ctx_cur (ctx_cur ctx + Z.min len (ram_left (ram w))) ctx;
       rr_buf := buf_phys (cur (ram w));
       rr_len := Z.min len (ram_left (ram w)) |} /\
  0 < ram_left (ram w) < 2 ^ 64 /\
  ctx_cur ctx + ram_left (ram w) <= ctx_len ctx.
Proof.
  intros (Hr & Hcc & Hmax & Hnb & Hsz20 & Hlen & Hlt & Hst & Hpos) Hc0 Hleft Hbuf.
  pose proof (chunk_sz_u32 _ Hsz20) as Hsz.
  destruct Hpos as [[Hc _] | (Hcu & Hce & Hmin & Hcur & Hcend & _)]; [contradiction |].
  pose proof (stream_bytes_sent _ (Z.to_nat (cur_chunk (ram w))) Hsz)
    as (Hsplit & _ & Hrest).
  fold (sent_chunks (ram w)) in Hsplit.
  pose proof (u64_range (cur_end (ram w) - cur (ram w))) as Hrg.
  fold (ram_left (ram w)) in Hrg. unfold is_u64 in Hrg.
  assert (Hne : cur (ram w) <> cur_end (ram w)).
  { intros Heq. apply Hleft. unfold ram_left.
    apply (proj2 (u64_sub_zero _ _ Hcu Hce)). exact Heq. }
  split; [| split; lia].
  unfold reader_read. rewrite Hr.
  replace (len =? 0) with false
    by (symmetry; apply Z.eqb_neq; unfold sizeof_sparse_header in *; lia).
  rewrite (u64_small (ctx_len ctx - ctx_cur ctx))
    by (unfold is_u64, sizeof_sparse_header in *; lia).
  replace (Z.min len (ctx_len ctx - ctx_cur ctx) =? 0) with false
    by (symmetry; apply Z.eqb_neq; unfold sizeof_sparse_header in *; lia).
  cbn [reader_read_fn]. unfold ram_read.
  replace (ctx_cur ctx =? 0) with false by (symmetry; apply Z.eqb_neq; exact Hc0).
  replace (cur (ram w) =? cur_end (ram w)) with false
    by (symmetry; apply Z.eqb_neq; exact Hne).
  fold (ram_left (ram w)).
  replace (Z.min (Z.min len (ctx_len ctx - ctx_cur ctx)) (ram_left (ram w)))
    with (Z.min len (ram_left (ram w))) by lia.
  cbn [rr_status EFI_ERROR rr_world rr_ctx rr_len rr_buf ctx_cur].
  rewrite (u64_small (ctx_cur ctx + _))
    by (unfold is_u64, sizeof_sparse_header in *; lia).
  reflexivity.
Qed.

(** The read after the last chunk: nothing, with success. *)
Lemma ram_stream_read_end w ctx len fw :
  ram_stream w ctx -> ctx_cur ctx <> 0 -> ram_left (ram w) = 0 ->
  cur_chunk (ram w) = chunk_nb (ram w) ->
  sizeof_sparse_header <= len < 2 ^ 64 ->
  ctx_cur ctx = ctx_len ctx /\
  reader_read w ctx len fw
  = {| rr_status := EFI_SUCCESS; rr_world := w; rr_ctx := ctx;
       rr_buf := buf_none; rr_len := 0 |}.
Proof.
  intros (Hr & Hcc & Hmax & Hnb & Hsz20 & Hlen & Hlt & Hst & Hpos) Hc0 Hleft Hlast Hbuf.
  pose proof (chunk_sz_u32 _ Hsz20) as Hsz.
  destruct Hpos as [[Hc _] | (Hcu & Hce & Hmin & Hcur & Hcend & _)]; [contradiction |].
  assert (Hall : sent_chunks (ram w) = planned (ram w)).
  { unfold sent_chunks. apply firstn_all2. rewrite Hlast. unfold planned.
    apply firstn_le_length. }
  assert (Hdone : ctx_cur ctx = ctx_len ctx) by (rewrite Hcur, Hall, Hleft, Hlen; lia).
  split; [exact Hdone |].
  unfold reader_read. rewrite Hr.
  replace (len =? 0) with false
    by (symmetry; apply Z.eqb_neq; unfold sizeof_sparse_header in *; lia).
  rewrite Hdone, Z.sub_diag. change (u64 0) with 0.
  replace (Z.min len 0 =? 0) with true
    by (symmetry; apply Z.eqb_eq; unfold sizeof_sparse_header in *; lia).
  reflexivity.
Qed.

(** What a read does to a RAM stream in good order. *)
Lemma ram_stream_read_spec w ctx len fw :
  ram_stream w ctx -> sizeof_sparse_header <= len < 2 ^ 64 ->
  let r := reader_read w ctx len fw in
  rr_status r = EFI_SUCCESS /\
  ram_stream (rr_world r) (rr_ctx r) /\
  0 <= rr_len r <= len /\
  ctx_cur (rr_ctx r) = ctx_cur ctx + rr_len r /\
  ctx_cur (rr_ctx r) <= ctx_len ctx /\
  ctx_len (rr_ctx r) = ctx_len ctx /\
  (rr_len r = 0 <-> ctx_cur ctx = ctx_len ctx) /\
  (forall a, rr_buf r = buf_phys a ->
     a = cur (ram w) /\ rr_len r <= ram_left (ram w) /\
     u64 (a + ram_left (ram w))
     = u64 (start (ram w) + block_bytes (sent_chunks (ram w)))).
Proof.
  intros Hinv Hbuf. cbv zeta.
  pose proof Hinv as (Hr & Hcc & Hmax & Hnb & Hsz20 & Hlen & Hlt & Hst & Hpos).
  pose proof (chunk_sz_u32 _ Hsz20) as Hsz.
  pose proof (stream_bytes_nonneg _ Hsz) as Hsb.
  destruct (Z.eq_dec (ctx_cur ctx) 0) as [Hc0 | Hc0].
  - (* the file header *)
    rewrite (ram_stream_read_header w ctx len fw Hinv Hc0 Hbuf).
    cbn [rr_status rr_world rr_ctx rr_len rr_buf ctx_cur set_ctx_cur].
    assert (Hcc0 : cur_chunk (ram w) = 0).
    { destruct Hpos as [[_ H] | (_ & _ & Hmin & _)]; [exact H |].
      unfold sizeof_sparse_header in Hmin. lia. }
    unfold sizeof_sparse_header in *.
    split; [reflexivity |]. split; [| split; [lia | split; [lia | split; [lia | split; [reflexivity |]]]]].
    + unfold ram_stream, sent_chunks, ram_left, planned, sizeof_sparse_header.
      cbn [ram set_ram ctx_reader set_ctx_cur ctx_len ctx_cur cur_chunk chunk_nb chunks
           start cur cur_end set_cur_end set_cur].
      fold (planned (ram w)). rewrite Hcc0.
      split; [exact Hr |]. split; [lia |]. split; [exact Hmax |]. split; [exact Hnb |].
      split; [exact Hsz20 |]. split; [exact Hlen |]. split; [exact Hlt |].
      split; [exact Hst |]. right.
      rewrite Z.sub_diag. change (u64 0) with 0.
      change (firstn (Z.to_nat 0) (planned (ram w))) with (@nil chunk_header).
      change (stream_bytes []) with 0. change (block_bytes []) with 0.
      split; [exact Hst |]. split; [exact Hst |]. split; [lia |].
      split; [reflexivity |].
      split; [rewrite Z.add_0_r; symmetry; apply u64_small; exact Hst |].
      intros H; contradiction.
    + split; [split; intros H; lia | intros a H; discriminate H].
  - destruct Hpos as [[Hc _] | (Hcu & Hce & Hmin & Hcur & Hcend & Hin)];
      [contradiction |].
    destruct (Z.eq_dec (ram_left (ram w)) 0) as [Hleft | Hleft].
    + destruct (Z.eq_dec (cur_chunk (ram w)) (chunk_nb (ram w))) as [Hlast | Hmore].
      * (* the stream is exhausted *)
        destruct (ram_stream_read_end w ctx len fw Hinv Hc0 Hleft Hlast Hbuf)
          as [Hdone Heq].
        rewrite Heq. cbn [rr_status rr_world rr_ctx rr_len rr_buf].
        unfold sizeof_sparse_header in *.
        split; [reflexivity |]. split; [exact Hinv |]. split; [lia |].
        split; [lia |]. split; [lia |]. split; [reflexivity |].
        split; [split; intros _; [exact Hdone | reflexivity] |].
        intros a H; discriminate H.
      * (* a chunk header *)
        destruct (ram_stream_read_chunk w ctx len fw Hinv Hc0 Hleft ltac:(lia) Hbuf)
          as (Heq & Hchunk & Hsent & Hblk & Hfit).
        cbv zeta in Heq. rewrite Heq. clear Heq.
        cbn [rr_status rr_world rr_ctx rr_len rr_buf ctx_cur set_ctx_cur].
        remember (array_get (chunks (ram w)) (cur_chunk (ram w))) as chunk eqn:Hchunk_def.
        pose proof (chunk_bytes_min chunk (proj1 Hchunk)) as Hcb.
        assert (Heqc : cur (ram w) = cur_end (ram w)).
        { unfold ram_left in Hleft.
          apply (proj1 (u64_sub_zero _ _ Hcu Hce)) in Hleft. exact Hleft. }
        unfold sizeof_sparse_header, sizeof_chunk_header in *.
        split; [reflexivity |].
        split; [| split; [lia | split; [lia | split; [lia | split; [reflexivity |]]]]].
        -- unfold ram_stream.
           assert (Hstate : forall p,
             cur_chunk p = cur_chunk (ram w) + 1 -> chunk_nb p = chunk_nb (ram w) ->
             chunks p = chunks (ram w) -> start p = start (ram w) ->
             cur_end p = u64 (cur (ram w) + chunk_sz chunk * EFI_PAGE_SIZE) ->
             (chunk_type chunk = CHUNK_TYPE_RAW /\ cur p = cur (ram w) \/
              chunk_type chunk <> CHUNK_TYPE_RAW /\ cur p = cur_end p) ->
             ctx_reader ctx = Some READER_ram /\
             0 <= cur_chunk p <= chunk_nb p /\
             chunk_nb p <= MAX_MEMORY_REGION_NB /\
             chunk_nb p <= Z.of_nat (List.length (chunks p)) /\
             Forall (fun c => 0 <= chunk_sz c < 2 ^ 20) (planned p) /\
             ctx_len ctx = 28 + stream_bytes (planned p) /\
             ctx_len ctx < 2 ^ 64 /\
             is_u64 (start p) /\
             ((ctx_cur ctx + 12 = 0 /\ cur_chunk p = 0) \/
              (is_u64 (cur p) /\ is_u64 (cur_end p) /\
               28 <= ctx_cur ctx + 12 /\
               ctx_cur ctx + 12 = 28 + stream_bytes (sent_chunks p) - ram_left p /\
               cur_end p = u64 (start p + block_bytes (sent_chunks p)) /\
               (ram_left p <> 0 ->
                1 <= cur_chunk p /\
                chunk_type (array_get (chunks p) (cur_chunk p - 1)) = CHUNK_TYPE_RAW /\
                ram_left p <= chunk_sz (array_get (chunks p) (cur_chunk p - 1))
                              * EFI_PAGE_SIZE)))).
           { intros p Hp1 Hp2 Hp3 Hp4 Hp5 Hp6.
             assert (Hpl : planned p = planned (ram w))
               by (unfold planned; rewrite Hp2, Hp3; reflexivity).
             assert (Hsentp : sent_chunks p
                      = firstn (Z.to_nat (cur_chunk (ram w) + 1)) (planned (ram w)))
               by (unfold sent_chunks; rewrite Hp1, Hpl; reflexivity).
             assert (Hpay : u64 (chunk_sz chunk * EFI_PAGE_SIZE)
                            = chunk_sz chunk * EFI_PAGE_SIZE)
               by (apply u64_small; unfold is_u64, EFI_PAGE_SIZE; lia).
             assert (Hleftp : ram_left p
                      = if chunk_type chunk =? CHUNK_TYPE_RAW
                        then chunk_sz chunk * EFI_PAGE_SIZE else 0).
             { unfold ram_left. destruct Hp6 as [[Ht Hc] | [Ht Hc]].
               - rewrite Hp5, Hc, u64_add_sub, Hpay, Ht. reflexivity.
               - rewrite Hc, Z.sub_diag.
                 replace (chunk_type chunk =? CHUNK_TYPE_RAW) with false
                   by (symmetry; apply Z.eqb_neq; exact Ht).
                 reflexivity. }
             rewrite Hp1, Hp2, Hp3, Hp4, Hpl, Hsentp, Hsent, Hblk, Hleftp.
             split; [exact Hr |]. split; [lia |]. split; [exact Hmax |].
             split; [exact Hnb |]. split; [exact Hsz20 |]. split; [exact Hlen |].
             split; [exact Hlt |]. split; [exact Hst |]. right.
             split; [destruct Hp6 as [[_ Hc] | [_ Hc]]; rewrite Hc;
                     [exact Hcu | rewrite Hp5; apply u64_range] |].
             split; [rewrite Hp5; apply u64_range |].
             split; [lia |].
             split; [unfold chunk_bytes, sizeof_chunk_header;
                     destruct (chunk_type chunk =? CHUNK_TYPE_RAW); lia |].
             split; [rewrite Hp5, Heqc, Hcend, u64_add_add; reflexivity |].
             replace (cur_chunk (ram w) + 1 - 1) with (cur_chunk (ram w)) by lia.
             rewrite <- Hchunk_def.
             destruct (chunk_type chunk =? CHUNK_TYPE_RAW) eqn:Hraw.
             - intros _. apply Z.eqb_eq in Hraw. split; [lia |]. split; [exact Hraw | lia].
             - intros H; contradiction. }
           destruct (chunk_type chunk =? CHUNK_TYPE_RAW) eqn:Hraw; cbn [negb];
             cbn [ram set_ram ctx_reader set_ctx_cur ctx_len ctx_cur];
             apply Hstate; try reflexivity.
           ++ left. apply Z.eqb_eq in Hraw. split; [exact Hraw | reflexivity].
           ++ right. apply Z.eqb_neq in Hraw. split; [exact Hraw | reflexivity].
        -- split; [split; intros H; lia | intros a H; discriminate H].
    + (* payload *)
      destruct (ram_stream_read_payload w ctx len fw Hinv Hc0 Hleft Hbuf)
        as (Heq & Hrem & Hfit).
      rewrite Heq. clear Heq.
      cbn [rr_status rr_world rr_ctx rr_len rr_buf ctx_cur set_ctx_cur].
      destruct (Hin Hleft) as (Hone & Htype & Hle).
      remember (Z.min len (ram_left (ram w))) as n eqn:Hn.
      unfold sizeof_sparse_header in *.
      assert (Hleft' : u64 (cur_end (ram w) - u64 (cur (ram w) + n))
                       = ram_left (ram w) - n).
      { rewrite u64_sub_add. fold (ram_left (ram w)).
        apply u64_small. unfold is_u64. lia. }
      split; [reflexivity |].
      split; [| split; [lia | split; [lia | split; [lia | split; [reflexivity |]]]]].
      * unfold ram_stream, sizeof_sparse_header.
        assert (Hpl : planned (set_cur (u64 (cur (ram w) + n)) (ram w))
                      = planned (ram w)) by reflexivity.
        assert (Hsentp : sent_chunks (set_cur (u64 (cur (ram w) + n)) (ram w))
                         = sent_chunks (ram w)) by reflexivity.
        assert (Hleftp : ram_left (set_cur (u64 (cur (ram w) + n)) (ram w))
                         = ram_left (ram w) - n) by exact Hleft'.
        cbn [ram set_ram ctx_reader set_ctx_cur ctx_len ctx_cur].
        rewrite Hpl, Hsentp, Hleftp.
        cbn [cur_chunk chunk_nb chunks start cur cur_end set_cur].
        split; [exact Hr |]. split; [lia |]. split; [exact Hmax |].
        split; [exact Hnb |]. split; [exact Hsz20 |]. split; [exact Hlen |].
        split; [exact Hlt |]. split; [exact Hst |]. right.
        split; [apply u64_range |]. split; [exact Hce |]. split; [lia |].
        split; [lia |]. split; [exact Hcend |].
        intros _. split; [exact Hone |]. split; [exact Htype | lia].
      * split; [split; intros H; lia |].
        intros a H. injection H as H. subst a.
        split; [reflexivity |]. split; [lia |].
        unfold ram_left. rewrite u64_add_left, <- Hcend.
        apply u64_small. exact Hce.
Qed.

(** X17: a RAM stream in good order is read without failure.  Every
    [reader_read] that offers room for the file header (28 bytes or
    more) succeeds and leaves the stream in good order; it advances the
    cursor by the bytes it returns, never past the length of the stream,
    and returns no byte only once the stream is exhausted.  Payload is
    returned from [cur], at most what is left of the current chunk, whose
    range ends at [start] plus the blocks of the chunks announced so
    far. *)
Theorem ram_stream_read w ctx len fw :
  ram_stream w ctx -> sizeof_sparse_header <= len < 2 ^ 64 ->
  let r := reader_read w ctx len fw in
  rr_status r = EFI_SUCCESS /\
  ram_stream (rr_world r) (rr_ctx r) /\
  0 <= rr_len r <= len /\
  ctx_cur (rr_ctx r) = ctx_cur ctx + rr_len r /\
  ctx_cur (rr_ctx r) <= ctx_len ctx /\
  ctx_len (rr_ctx r) = ctx_len ctx /\
  (rr_len r = 0 <-> ctx_cur ctx = ctx_len ctx) /\
  (forall a, rr_buf r = buf_phys a ->
     a = cur (ram w) /\ rr_len r <= ram_left (ram w) /\
     u64 (a + ram_left (ram w))
     = u64 (start (ram w) + block_bytes (sent_chunks (ram w)))).
Proof. exact (ram_stream_read_spec w ctx len fw). Qed.


Lemma sum_Z_cons x l : sum_Z (x :: l) = x + sum_Z l.
Proof. reflexivity. Qed.

Lemma stream_bytes_count l :
  stream_bytes l
  = sizeof_chunk_header * Z.of_nat (List.length l)
    + EFI_PAGE_SIZE
      * sum_Z (map chunk_sz (filter (fun c => chunk_type c =? CHUNK_TYPE_RAW) l)).
Proof.
  induction l as [| c l IH]; [reflexivity |].
  change (stream_bytes (c :: l)) with (chunk_bytes c + stream_bytes l).
  rewrite IH. unfold chunk_bytes. cbn [filter List.length].
  destruct (chunk_type c =? CHUNK_TYPE_RAW).
  - change (sum_Z (map chunk_sz (c :: ?l))) with (chunk_sz c + sum_Z (map chunk_sz l)).
    cbn [map]. unfold sum_Z at 2. cbn [fold_right].
    fold (sum_Z (map chunk_sz
                   (filter (fun c0 => chunk_type c0 =? CHUNK_TYPE_RAW) l))).
    unfold sizeof_chunk_header, EFI_PAGE_SIZE. lia.
  - unfold sizeof_chunk_header, EFI_PAGE_SIZE. lia.
Qed.

Section StreamFacts.

Variable strtoul16 : string -> Z * string.

(** The stream of the whole map as [reader_open] leaves it. *)
Lemma reader_open_ram_stream_spec w ctx fw d ds :
  is_in_used (ram w) = false ->
  GetMemoryMap fw = (EFI_SUCCESS, (d, ds)) ->
  (List.length (d :: ds) <= 128)%nat ->
  Forall region_ok (d :: ds) ->
  StronglySorted no_overlap (sort_memory_map (d :: ds) (List.length (d :: ds))) ->
  Exists (fun e => 0 < entry_end e) (d :: ds) ->
  Forall (fun e => entry_end e < 2 ^ 32) (d :: ds) ->
  exists w' ctx',
    reader_open strtoul16 w ctx "ram"%string fw = (EFI_SUCCESS, w', ctx') /\
    ram_stream w' ctx' /\ ctx_cur ctx' = 0.
Proof.
  intros Hflag Hmap Hlen Hreg Hsort Hex Hlow.
  destruct (ram_open_whole strtoul16 w (set_ctx_reader (Some READER_ram) ctx) fw d ds
              Hflag Hmap Hlen Hreg Hsort Hex)
    as (w' & ctx' & c2 & p2 & E & Hopen & Hram & Hctx & Hinv & Hpos & _ & Hlast
        & Hnbmax & Hcc & Hraw & _).
  assert (HE32 : E < 2 ^ 32).
  { apply Exists_exists in Hlast. destruct Hlast as (e & Hin & He).
    rewrite Forall_forall in Hlow. specialize (Hlow e Hin). lia. }
  exists w', ctx'.
  split; [exact Hopen |].
  pose proof (ram_open_success strtoul16 _ _ _ _ _ _ Hopen)
    as (Hreader & Hcur & _ & _ & _ & _).
  destruct (ram_open_plan_ok strtoul16 _ _ _ _ _ _ Hopen) as (c & Hplan & _).
  destruct Hplan as (_ & _ & _ & _ & _ & _ & _ & _ & Hwire).
  destruct Hinv as (Hs & _ & Hlen256 & Hnb0 & HE & _ & Hbytes & Hraw0 & Hrawle & Hcl & _).
  split; [| exact Hcur].
  assert (Hpl : planned (ram w') = planned p2) by (rewrite Hram; reflexivity).
  assert (Hlenpl : Z.of_nat (List.length (planned p2)) = chunk_nb p2).
  { unfold planned. rewrite firstn_length_le; [lia |].
    rewrite Hlen256. unfold MAX_MEMORY_REGION_NB in *. lia. }
  unfold ram_stream. rewrite Hpl, Hreader, Hcur.
  rewrite Hram.
  cbn [cur_chunk chunk_nb chunks start set_end ctx_reader set_ctx_reader].
  rewrite Hcc, Hs, Hlen256.
  split; [reflexivity |]. split; [lia |]. split; [exact Hnbmax |].
  split; [unfold MAX_MEMORY_REGION_NB in *; lia |].
  split.
  { apply block_bytes_small.
    - rewrite <- Hpl. eapply Forall_impl; [| exact Hwire].
      intros ch (_ & Hch & _). apply Hch.
    - change (block_bytes (planned p2)) with (planned_bytes p2). lia. }
  assert (Hctxlen : ctx_len ctx' = sizeof_sparse_header + stream_bytes (planned p2)).
  { rewrite Hctx. cbn [ctx_len set_ctx_len].
    rewrite stream_bytes_count, Hlenpl. fold (planned_raw_blocks p2).
    rewrite Hcl.
    unfold sizeof_chunk_header, sizeof_sparse_header, EFI_PAGE_SIZE,
      MAX_MEMORY_REGION_NB in *.
    rewrite u64_small by (unfold is_u64; lia). lia. }
  split; [exact Hctxlen |].
  split.
  { rewrite Hctx. cbn [ctx_len set_ctx_len]. apply u64_range. }
  split; [apply is_u64_0 |].
  left. split; reflexivity.
Qed.

(** X16: the stream of the whole map opens in good order.  On a memory
    map of up to 128 descriptors that are page-aligned, lie below 4 GiB
    and, in ascending order, do not overlap, with a descriptor that ends
    above address 0, [reader_open] of [ram] succeeds and leaves a RAM
    stream in good order at its start: every chunk is smaller than
    4 GiB, the length of the stream is that of the file header, the
    chunk headers and the blocks of the RAW chunks, and nothing was
    read. *)
Theorem reader_open_ram_stream w ctx fw d ds :
  is_in_used (ram w) = false ->
  GetMemoryMap fw = (EFI_SUCCESS, (d, ds)) ->
  (List.length (d :: ds) <= 128)%nat ->
  Forall region_ok (d :: ds) ->
  StronglySorted no_overlap (sort_memory_map (d :: ds) (List.length (d :: ds))) ->
  Exists (fun e => 0 < entry_end e) (d :: ds) ->
  Forall (fun e => entry_end e < 2 ^ 32) (d :: ds) ->
  exists w' ctx',
    reader_open strtoul16 w ctx "ram"%string fw = (EFI_SUCCESS, w', ctx') /\
    ram_stream w' ctx' /\ ctx_cur ctx' = 0.
Proof. exact (reader_open_ram_stream_spec w ctx fw d ds). Qed.


End StreamFacts.

(** X18: a RAM stream in good order is read to its end.  With a buffer
    of 28 bytes or more every read of the consumer's loop succeeds, the
    reads never return more than the bytes the stream has left, and they
    return all of them once as many reads were made as bytes were
    left. *)
Theorem ram_stream_drain fw len :
  sizeof_sparse_header <= len < 2 ^ 64 ->
  forall fuel w ctx,
  ram_stream w ctx ->
  Forall (fun r => fst (fst r) = EFI_SUCCESS) (reads fuel w ctx len fw) /\
  0 <= sum_Z (map snd (reads fuel w ctx len fw)) <= ctx_len ctx - ctx_cur ctx /\
  (ctx_len ctx - ctx_cur ctx <= Z.of_nat fuel ->
   sum_Z (map snd (reads fuel w ctx len fw)) = ctx_len ctx - ctx_cur ctx).
Proof.
  intros Hbuf. induction fuel as [| k IH]; intros w ctx Hinv;
    pose proof (ram_stream_read_spec w ctx len fw Hinv Hbuf) as Hread;
    cbv zeta in Hread;
    destruct Hread as (Hs & Hinv' & Hn & Hcur & Hle & Hlen & Hzero & _).
  - cbn [reads map]. change (sum_Z []) with 0.
    split; [constructor |]. split; [lia | intros H; lia].
  - cbn [reads map snd]. rewrite sum_Z_cons.
    destruct (IH _ _ Hinv') as (Hall & Hsum & Hfull).
    rewrite Hlen, Hcur in Hsum, Hfull.
    split; [constructor; [exact Hs | exact Hall] |].
    split; [lia | intros Hfuel].
    destruct (Z.eq_dec (rr_len (reader_read w ctx len fw)) 0) as [H0 | H0].
    + pose proof (proj1 Hzero H0) as Hdone. lia.
    + rewrite Hfull; lia.
Qed.

Lemma two_regions_low :
  Forall (fun e => entry_end e < 2 ^ 32) [conventional 0 4; conventional 0x8000 4].
Proof.
  repeat (apply Forall_cons || apply Forall_nil); vm_compute; reflexivity.
Defined.

(** The stream of the two regions is in good order when it opens. *)
Lemma ram_stream_opened : ram_stream w_ram_stream ctx_ram_stream.
Proof.
  destruct (reader_open_ram_stream_spec hex_strtoul world0 ctx0 fw_two_regions
              (conventional 0 4) [conventional 0x8000 4] eq_refl eq_refl
              ltac:(cbn; lia) (proj1 two_regions_ok) (proj1 (proj2 two_regions_ok))
              (proj2 (proj2 two_regions_ok)) two_regions_low)
    as (w' & ctx' & Hopen & Hstream & _).
  unfold w_ram_stream, ctx_ram_stream. rewrite Hopen. exact Hstream.
Defined.

Lemma buffer_8192 : sizeof_sparse_header <= 8192 < 2 ^ 64.
Proof. unfold sizeof_sparse_header. lia. Defined.

(** X16, on a run: the two regions of four pages at 0 and at 0x8000. *)
Lemma reader_open_ram_stream_run :
  exists w' ctx',
    reader_open hex_strtoul world0 ctx0 "ram"%string fw_two_regions
      = (EFI_SUCCESS, w', ctx') /\
    ram_stream w' ctx' /\ ctx_cur ctx' = 0.
Proof.
  apply (reader_open_ram_stream hex_strtoul world0 ctx0 fw_two_regions
           (conventional 0 4) [conventional 0x8000 4]).
  - reflexivity.
  - reflexivity.
  - cbn. lia.
  - exact (proj1 two_regions_ok).
  - exact (proj1 (proj2 two_regions_ok)).
  - exact (proj2 (proj2 two_regions_ok)).
  - exact two_regions_low.
Defined.

(** X17, on a run: the first read of that stream, with room for 8192
    bytes, succeeds and leaves the stream in good order. *)
Lemma ram_stream_read_run :
  rr_status (reader_read w_ram_stream ctx_ram_stream 8192 fw_two_regions) = EFI_SUCCESS /\
  ram_stream (rr_world (reader_read w_ram_stream ctx_ram_stream 8192 fw_two_regions))
             (rr_ctx (reader_read w_ram_stream ctx_ram_stream 8192 fw_two_regions)).
Proof.
  pose proof (ram_stream_read w_ram_stream ctx_ram_stream 8192 fw_two_regions
                ram_stream_opened buffer_8192) as H.
  cbv zeta in H. exact (conj (proj1 H) (proj1 (proj2 H))).
Defined.

(** X18, on a run: sixteen reads of 8192 bytes of that stream. *)
Lemma ram_stream_drain_run :
  Forall (fun r => fst (fst r) = EFI_SUCCESS)
    (reads 16 w_ram_stream ctx_ram_stream 8192 fw_two_regions) /\
  0 <= sum_Z (map snd (reads 16 w_ram_stream ctx_ram_stream 8192 fw_two_regions))
    <= ctx_len ctx_ram_stream - ctx_cur ctx_ram_stream /\
  (ctx_len ctx_ram_stream - ctx_cur ctx_ram_stream <= Z.of_nat 16 ->
   sum_Z (map snd (reads 16 w_ram_stream ctx_ram_stream 8192 fw_two_regions))
   = ctx_len ctx_ram_stream - ctx_cur ctx_ram_stream).
Proof.
  exact (ram_stream_drain fw_two_regions 8192 buffer_8192 16 w_ram_stream
           ctx_ram_stream ram_stream_opened).
Defined.

(** ** The ACPI table and EFI variable streams *)

(** X19: the ACPI table and EFI variable streams return the buffer in
    consecutive slices.  With the cursor inside the buffer, the reads of
    the consumer's loop, each with room for [len > 0] bytes, all succeed;
    each returns the bytes at the cursor, as many as fit and are left,
    and moves the cursor past them; once the buffer is exhausted they
    return nothing.  In total [fuel] reads return [fuel * len] bytes, or
    all that was left if that is less. *)
Theorem private_stream_reads fw len :
  0 < len ->
  forall fuel w ctx,
  ctx_reader ctx = Some READER_acpi \/ ctx_reader ctx = Some READER_efivar ->
  0 <= ctx_cur ctx <= ctx_len ctx -> ctx_len ctx < 2 ^ 64 ->
  reads fuel w ctx len fw = slices fuel (ctx_cur ctx) (ctx_len ctx) len /\
  sum_Z (map snd (reads fuel w ctx len fw))
  = Z.min (ctx_len ctx - ctx_cur ctx) (Z.of_nat fuel * len).
Proof.
  intros Hlen. induction fuel as [| k IH]; intros w ctx Hr Hcur Hmax.
  - cbn [reads slices map]. change (sum_Z []) with 0. split; [reflexivity | lia].
  - assert (Hk : 0 <= Z.of_nat k * len) by (apply Z.mul_nonneg_nonneg; lia).
    replace (Z.of_nat (S k) * len) with (Z.of_nat k * len + len) by lia.
    assert (Hav : u64 (ctx_len ctx - ctx_cur ctx) = ctx_len ctx - ctx_cur ctx)
      by (apply u64_small; unfold is_u64; lia).
    destruct (Z.eq_dec (ctx_cur ctx) (ctx_len ctx)) as [Hdone | Hmore].
    + assert (Hread : reader_read w ctx len fw
                      = {| rr_status := EFI_SUCCESS; rr_world := w; rr_ctx := ctx;
                           rr_buf := buf_none; rr_len := 0 |}).
      { unfold reader_read.
        destruct Hr as [Hr | Hr]; rewrite Hr;
          (replace (len =? 0) with false by (symmetry; apply Z.eqb_neq; lia));
          rewrite Hav;
          (replace (Z.min len (ctx_len ctx - ctx_cur ctx) =? 0) with true
             by (symmetry; apply Z.eqb_eq; lia));
          reflexivity. }
      cbn [reads slices]. rewrite Hread. cbn [rr_status rr_buf rr_len rr_world rr_ctx].
      replace (ctx_cur ctx =? ctx_len ctx) with true
        by (symmetry; apply Z.eqb_eq; exact Hdone).
      destruct (IH w ctx Hr Hcur Hmax) as [IH1 IH2].
      rewrite IH1. split; [reflexivity |].
      rewrite <- IH1. cbn [map snd]. rewrite sum_Z_cons, IH2. lia.
    + remember (Z.min len (ctx_len ctx - ctx_cur ctx)) as n eqn:Hn.
      assert (Hread : reader_read w ctx len fw
                      = {| rr_status := EFI_SUCCESS; rr_world := w;
                           rr_ctx := set_ctx_cur (ctx_cur ctx + n) ctx;
                           rr_buf := buf_private (ctx_cur ctx); rr_len := n |}).
      { unfold reader_read.
        destruct Hr as [Hr | Hr]; rewrite Hr;
          (replace (len =? 0) with false by (symmetry; apply Z.eqb_neq; lia));
          rewrite Hav, <- Hn;
          (replace (n =? 0) with false by (symmetry; apply Z.eqb_neq; lia));
          cbn [reader_read_fn read_from_private rr_status EFI_ERROR rr_world rr_ctx
               rr_buf rr_len];
          rewrite (u64_small (ctx_cur ctx + n)) by (unfold is_u64; lia);
          reflexivity. }
      cbn [reads slices]. rewrite Hread. cbn [rr_status rr_buf rr_len rr_world rr_ctx].
      replace (ctx_cur ctx =? ctx_len ctx) with false
        by (symmetry; apply Z.eqb_neq; exact Hmore).
      rewrite <- Hn.
      destruct (IH w (set_ctx_cur (ctx_cur ctx + n) ctx)) as [IH1 IH2];
        [exact Hr | cbn [ctx_cur ctx_len set_ctx_cur]; lia | exact Hmax |].
      cbn [ctx_cur ctx_len set_ctx_cur] in IH1, IH2.
      rewrite IH1. split; [reflexivity |].
      rewrite <- IH1. cbn [map snd]. rewrite sum_Z_cons, IH2. lia.
Qed.

(** X19, on a run: four reads of 48 bytes of an ACPI table of 100
    bytes. *)
Lemma private_stream_reads_run :
  reads 4 world0 ctx_acpi 48 fw_acpi
  = slices 4 (ctx_cur ctx_acpi) (ctx_len ctx_acpi) 48 /\
  sum_Z (map snd (reads 4 world0 ctx_acpi 48 fw_acpi))
  = Z.min (ctx_len ctx_acpi - ctx_cur ctx_acpi) (Z.of_nat 4 * 48).
Proof.
  apply (private_stream_reads fw_acpi 48 ltac:(lia) 4 world0 ctx_acpi).
  - left. vm_compute. reflexivity.
  - vm_compute. split; intros H; discriminate H.
  - vm_compute. reflexivity.
Defined.

(** ** What the readers depend on, free and return *)

Section CleanFacts.

Variable strtoul16 : string -> Z * string.

(** X20: a RAM stream carries nothing over from the one before it.
    Called with the in-use flag clear and at most two arguments,
    [ram_open] returns a status, a context and a static state that
    depend on the arguments and the firmware only, not on what the
    previous stream left in the static state. *)
Theorem ram_open_fresh w1 w2 ctx argv fw :
  is_in_used (ram w1) = false -> is_in_used (ram w2) = false ->
  (List.length argv <= 2)%nat ->
  fst (fst (ram_open strtoul16 w1 ctx argv fw))
  = fst (fst (ram_open strtoul16 w2 ctx argv fw)) /\
  snd (ram_open strtoul16 w1 ctx argv fw) = snd (ram_open strtoul16 w2 ctx argv fw) /\
  ram (snd (fst (ram_open strtoul16 w1 ctx argv fw)))
  = ram (snd (fst (ram_open strtoul16 w2 ctx argv fw))).
Proof.
  intros H1 H2 Hargc. unfold ram_open. rewrite H1, H2.
  replace (Z.of_nat (List.length argv) >? 2) with false
    by (symmetry; rewrite Z.gtb_ltb; apply Z.ltb_ge; lia).
  destruct (ram_parse_argv strtoul16 argv (set_is_in_used true zero_ram_priv))
    as [parsed priv].
  destruct (negb parsed); [cbn; tauto |].
  destruct (nonzero (start priv mod EFI_PAGE_SIZE)
            || nonzero (end_ priv mod EFI_PAGE_SIZE)); [cbn; tauto |].
  destruct (GetMemoryMap fw) as [ret [d ds]].
  destruct (EFI_ERROR ret); [cbn; tauto |].
  match goal with |- context [ram_build_chunks ?c ?p ?n] =>
    destruct (ram_build_chunks c p n) as [[[ret2 c2] p2] freed] end.
  destruct (EFI_ERROR ret2); cbn; tauto.
Qed.

(** The search of [efivar_find] returns when the enumeration ends; it
    ends by [break] when no [ReallocatePool] fails. *)
Lemma efivar_find_loop_ending realloc_ok l varname :
  forall bufsize found,
  exists e,
    EfiVar.efivar_find_loop realloc_ok (l ++ [EfiVar.answer EFI_NOT_FOUND])
      varname bufsize found = Some e /\
    ((forall a b, realloc_ok a b = true) ->
     exists ret f, e = EfiVar.find_break ret f).
Proof.
  induction l as [| r l IH]; intros bufsize found.
  - cbn. eexists. split; [reflexivity |]. intros _. eauto.
  - cbn [app EfiVar.efivar_find_loop].
    destruct (EfiVar.gnv_status r) eqn:Hs;
      try (eexists; split; [reflexivity |]; intros _; eauto; fail).
    + destruct (String.eqb (EfiVar.gnv_name r) varname); [| apply IH].
      destruct found as [g |]; [| apply IH].
      eexists. split; [reflexivity |]. intros _. eauto.
    + destruct (realloc_ok bufsize (EfiVar.gnv_namesize r)) eqn:Hre; [apply IH |].
      eexists. split; [reflexivity |]. intros H. rewrite H in Hre. discriminate Hre.
Qed.

Lemma efivar_find_returns vs varname :
  EfiVar.efivar_find (ending vs) varname <> None.
Proof.
  unfold EfiVar.efivar_find. cbn [ending EfiVar.AllocateZeroPool_ok
    EfiVar.ReallocatePool_ok EfiVar.GetNextVariableName].
  destruct (negb (EfiVar.AllocateZeroPool_ok vs)); [discriminate |].
  destruct (efivar_find_loop_ending (EfiVar.ReallocatePool_ok vs)
              (EfiVar.GetNextVariableName vs) varname 64 None) as (e & He & _).
  rewrite He. destruct e as [ret f | ret]; [| discriminate].
  destruct (EFI_ERROR ret); [discriminate |]. destruct f; discriminate.
Qed.

(** The call of [efivar_find]: its name buffer is freed at most once,
    only if it was allocated, and always when the allocation and every
    [ReallocatePool] succeed. *)
Lemma efivar_find_call_spec w varname fw :
  exists (ret : EFI_STATUS) (freed : bool),
    efivar_find_call w varname fw
    = (ret, if freed then FreePool ptr_name w else w) /\
    (freed = true -> EfiVar.AllocateZeroPool_ok (variable_services fw) = true) /\
    (EfiVar.AllocateZeroPool_ok (variable_services fw) = true ->
     (forall a b, EfiVar.ReallocatePool_ok (variable_services fw) a b = true) ->
     freed = true).
Proof.
  unfold efivar_find_call, EfiVar.efivar_find.
  cbn [ending EfiVar.AllocateZeroPool_ok EfiVar.ReallocatePool_ok
       EfiVar.GetNextVariableName].
  destruct (EfiVar.AllocateZeroPool_ok (variable_services fw)) eqn:Ha; cbn [negb].
  - destruct (efivar_find_loop_ending (EfiVar.ReallocatePool_ok (variable_services fw))
                (EfiVar.GetNextVariableName (variable_services fw)) varname 64 None)
      as (e & He & Hbreak).
    rewrite He. destruct e as [ret f | ret].
    + destruct (EFI_ERROR ret);
        [exists ret, true
        | destruct f; [exists EFI_SUCCESS, true | exists EFI_NOT_FOUND, true]];
        (split; [reflexivity |]; split; intros; reflexivity).
    + exists ret, false. split; [reflexivity |]. split; [discriminate |].
      intros _ Hre. destruct (Hbreak Hre) as (r & f & H). discriminate H.
  - exists EFI_OUT_OF_RESOURCES, false. split; [reflexivity |].
    split; [discriminate |]. intros H. discriminate H.
Qed.

(** X21: what [efivar_open] frees.  It frees the name buffer of
    [efivar_find] and the converted variable name, in that order, each at
    most once, and nothing else; the static state of the RAM reader is
    not touched.  The converted name is freed exactly when it was
    converted, on success and on every failure after the conversion.
    The name buffer is freed only when the variable is searched for (one
    argument, the name converted) and the buffer was allocated, and
    always then, unless a [ReallocatePool] fails. *)
Theorem efivar_open_pool w ctx argv fw :
  ram (snd (fst (efivar_open w ctx argv fw))) = ram w /\
  exists name_freed : bool,
    pool_log (snd (fst (efivar_open w ctx argv fw)))
    = (pool_log w ++ (if name_freed then [ptr_name] else [])
                  ++ (if efivar_named argv fw then [ptr_varname] else []))%list /\
    (name_freed = true ->
       efivar_named argv fw = true /\ List.length argv = 1%nat /\
       EfiVar.AllocateZeroPool_ok (variable_services fw) = true) /\
    (efivar_named argv fw = true -> List.length argv = 1%nat ->
     EfiVar.AllocateZeroPool_ok (variable_services fw) = true ->
     (forall a b, EfiVar.ReallocatePool_ok (variable_services fw) a b = true) ->
     name_freed = true).
Proof.
  unfold efivar_named, efivar_open.
  destruct (negb (Z.of_nat (List.length argv) =? 1)
            && negb (Z.of_nat (List.length argv) =? 2)).
  { cbn. split; [reflexivity |]. exists false. rewrite app_nil_r.
    split; [reflexivity |]. split; intros H; discriminate H. }
  destruct ((Z.of_nat (List.length argv) =? 2) && EFI_ERROR (stra_to_guid fw)).
  { cbn. split; [reflexivity |]. exists false. rewrite app_nil_r.
    split; [reflexivity |]. split; intros H; discriminate H. }
  destruct (stra_to_str_ok fw).
  2: { cbn. split; [reflexivity |]. exists false. rewrite app_nil_r.
       split; [reflexivity |]. split; intros H; discriminate H. }
  cbn [negb andb]. cbv zeta.
  destruct (Z.of_nat (List.length argv) =? 1) eqn:Hargc.
  - apply Z.eqb_eq in Hargc.
    destruct (efivar_find_call_spec w (nth 0 argv EmptyString) fw)
      as (ret & freed & Hcall & Hfreed & Hall).
    rewrite Hcall.
    assert (Hlog : forall (st : EFI_STATUS) (c : reader_ctx),
              ram (snd (fst (st, FreePool ptr_varname
                                   (if freed then FreePool ptr_name w else w), c)))
              = ram w /\
              pool_log (snd (fst (st, FreePool ptr_varname
                                        (if freed then FreePool ptr_name w else w), c)))
              = (pool_log w ++ (if freed then [ptr_name] else []) ++ [ptr_varname])%list).
    { intros st c. destruct freed; cbn; [rewrite <- app_assoc |]; split; reflexivity. }
    assert (Hrest : (freed = true ->
                       true = true /\ List.length argv = 1%nat /\
                       EfiVar.AllocateZeroPool_ok (variable_services fw) = true) /\
                    (true = true -> List.length argv = 1%nat ->
                     EfiVar.AllocateZeroPool_ok (variable_services fw) = true ->
                     (forall a b,
                        EfiVar.ReallocatePool_ok (variable_services fw) a b = true) ->
                     freed = true)).
    { split.
      - intros Hf. split; [reflexivity |]. split; [lia | exact (Hfreed Hf)].
      - intros _ _. exact Hall. }
    destruct (EFI_ERROR ret).
    + split; [apply Hlog |]. exists freed. split; [apply Hlog | exact Hrest].
    + destruct (get_efi_variable fw) as [ret2 size].
      destruct (EFI_ERROR ret2);
        (split; [apply Hlog |]; exists freed; split; [apply Hlog | exact Hrest]).
  - apply Z.eqb_neq in Hargc. cbn [EFI_ERROR].
    destruct (get_efi_variable fw) as [ret2 size].
    destruct (EFI_ERROR ret2); cbn;
      (split; [reflexivity |]; exists false; split; [reflexivity |];
       split; [intros H; discriminate H | intros _ H; lia]).
Qed.

End CleanFacts.

(** X21, on a run: the stream [efivar:Boot0001] is opened with the name
    buffer of the search freed, then the converted name; so is the
    failure of [efivar:db], a name two variables have. *)
Lemma efivar_open_pool_run :
  (fst (fst (efivar_open world0 ctx0 ["Boot0001"%string] fw_vars)) = EFI_SUCCESS /\
   pool_log (snd (fst (efivar_open world0 ctx0 ["Boot0001"%string] fw_vars)))
   = [ptr_name; ptr_varname]) /\
  (fst (fst (efivar_open world0 ctx0 ["db"%string] fw_vars)) = EFI_UNSUPPORTED /\
   pool_log (snd (fst (efivar_open world0 ctx0 ["db"%string] fw_vars)))
   = [ptr_name; ptr_varname]).
Proof.
  split; (split; [reflexivity |]).
  - destruct (efivar_open_pool world0 ctx0 ["Boot0001"%string] fw_vars)
      as (_ & freed & Hlog & _ & Hall).
    rewrite Hlog, (Hall eq_refl eq_refl eq_refl (fun _ _ => eq_refl)). reflexivity.
  - destruct (efivar_open_pool world0 ctx0 ["db"%string] fw_vars)
      as (_ & freed & Hlog & _ & Hall).
    rewrite Hlog, (Hall eq_refl eq_refl eq_refl (fun _ _ => eq_refl)). reflexivity.
Defined.

Lemma w_ram_closed_eq : reader_close w_ram_stream ctx_ram_stream = Some w_ram_closed.
Proof. reflexivity. Qed.

(** X20, on a run: [ram_open] on the state a closed stream left behind
    does what it does on the initial state. *)
Lemma ram_open_fresh_run :
  fst (fst (ram_open hex_strtoul world0 ctx0 ["0"%string; "2000"%string] fw_two_regions))
  = fst (fst (ram_open hex_strtoul w_ram_closed ctx0 ["0"%string; "2000"%string]
                fw_two_regions)) /\
  snd (ram_open hex_strtoul world0 ctx0 ["0"%string; "2000"%string] fw_two_regions)
  = snd (ram_open hex_strtoul w_ram_closed ctx0 ["0"%string; "2000"%string]
           fw_two_regions) /\
  ram (snd (fst (ram_open hex_strtoul world0 ctx0 ["0"%string; "2000"%string]
                   fw_two_regions)))
  = ram (snd (fst (ram_open hex_strtoul w_ram_closed ctx0 ["0"%string; "2000"%string]
                     fw_two_regions))).
Proof.
  apply (ram_open_fresh hex_strtoul world0 w_ram_closed ctx0
           ["0"%string; "2000"%string] fw_two_regions).
  - reflexivity.
  - vm_compute. reflexivity.
  - cbn. lia.
Defined.

(** X22: the statuses of a read.  [reader_read] returns [EFI_SUCCESS],
    [EFI_INVALID_PARAMETER] or, on a partition stream, the error of
    [ReadDisk], and nothing else; on an ACPI table or EFI variable
    stream every read that offers room succeeds, and so does every such
    read of a partition stream while [ReadDisk] succeeds. *)
Theorem reader_read_statuses w ctx len fw :
  (rr_status (reader_read w ctx len fw) = EFI_SUCCESS \/
   rr_status (reader_read w ctx len fw) = EFI_INVALID_PARAMETER \/
   (rr_status (reader_read w ctx len fw) = ReadDisk fw /\
    EFI_ERROR (ReadDisk fw) = true /\ ctx_reader ctx = Some READER_part)) /\
  (ctx_reader ctx = Some READER_acpi \/ ctx_reader ctx = Some READER_efivar ->
   len <> 0 -> rr_status (reader_read w ctx len fw) = EFI_SUCCESS) /\
  (ctx_reader ctx = Some READER_part ->
   (exists p, ctx_private ctx = priv_part p) -> ReadDisk fw = EFI_SUCCESS ->
   len <> 0 -> rr_status (reader_read w ctx len fw) = EFI_SUCCESS).
Proof.
  unfold reader_read.
  destruct (ctx_reader ctx) as [r |] eqn:Hr.
  2: { cbn. split; [tauto |]. split; [intros [H | H]; discriminate H |].
       intros H; discriminate H. }
  destruct (len =? 0) eqn:Hz.
  { apply Z.eqb_eq in Hz. cbn. split; [tauto |].
    split; [intros _ H; contradiction | intros _ _ _ H; contradiction]. }
  destruct (Z.min len (u64 (ctx_len ctx - ctx_cur ctx)) =? 0).
  { cbn. split; [tauto |]. split; [intros _ _; reflexivity | intros _ _ _ _; reflexivity]. }
  remember (Z.min len (u64 (ctx_len ctx - ctx_cur ctx))) as n eqn:Hn.
  destruct (EFI_ERROR (rr_status (reader_read_fn r w ctx n fw))) eqn:Herr.
  2: { cbn. split; [tauto |].
       split; [intros _ _; reflexivity | intros _ _ _ _; reflexivity]. }
  destruct r; cbn [reader_read_fn] in *.
  - split; [| split; [intros [H | H]; discriminate H | intros H; discriminate H]].
    right. left. revert Herr. unfold ram_read.
    destruct (ctx_cur ctx =? 0);
      [destruct (n <? sizeof_sparse_header); cbn; (reflexivity || discriminate) |].
    destruct (cur (ram w) =? cur_end (ram w)); [| cbn; discriminate].
    destruct ((cur_chunk (ram w) =? chunk_nb (ram w)) || (n <? sizeof_chunk_header));
      cbn; (reflexivity || discriminate).
  - cbn in Herr. discriminate Herr.
  - revert Herr. unfold part_read.
    destruct (ctx_private ctx) as [| | p | |] eqn:Hp;
      try (cbn; intros _; split; [tauto |];
           split; [intros [H | H]; discriminate H |];
           intros _ [q Hq] _ _; discriminate Hq).
    destruct (need_more_data p && EFI_ERROR (ReadDisk fw)) eqn:Hio;
      [| cbn; discriminate].
    apply andb_true_iff in Hio. destruct Hio as [_ Hio].
    cbn. intros _.
    split; [right; right; split; [reflexivity |]; split; [exact Hio | reflexivity] |].
    split; [intros [H | H]; discriminate H |].
    intros _ _ Hdisk _. rewrite Hdisk in Hio. discriminate Hio.
  - cbn in Herr. discriminate Herr.
Qed.

Section RangeFacts.

Variable strtoul16 : string -> Z * string.

(** X23: how [part_open] records an offset and a length.  After it
    succeeds with both, [ctx.cur] is the offset and [ctx.len] is the
    length argument itself, not the end of the range: the stream has
    [length - offset] bytes to read, taken in 64 bits.  The first read,
    with a disk that works, refills the buffer with that many bytes or
    with [PART_READER_BUF_SIZE], whichever is less, and returns its
    first bytes. *)
Theorem part_open_range w ctx label a b fw off len ra rb w' ctx' n fwr :
  ctx_reader ctx = Some READER_part ->
  strtoul16 a = (off, ra) -> strtoul16 b = (len, rb) ->
  is_u64 off -> is_u64 len ->
  part_open strtoul16 w ctx [label; a; b] fw = (EFI_SUCCESS, w', ctx') ->
  ReadDisk fwr = EFI_SUCCESS -> 0 < n -> off <> len ->
  ctx_cur ctx' = off /\ ctx_len ctx' = len /\
  rr_status (reader_read w' ctx' n fwr) = EFI_SUCCESS /\
  rr_buf (reader_read w' ctx' n fwr) = buf_part 0 /\
  rr_len (reader_read w' ctx' n fwr)
  = Z.min n (Z.min PART_READER_BUF_SIZE (u64 (len - off))) /\
  exists p, ctx_private (rr_ctx (reader_read w' ctx' n fwr)) = priv_part p /\
            buf_len p = Z.min PART_READER_BUF_SIZE (u64 (len - off)).
Proof.
  intros Hr Ha Hb Hoff Hlen Hopen Hdisk Hn Hne.
  revert Hopen. unfold part_open. cbn [List.length nth].
  change (Z.of_nat 3 <? 1) with false. change (Z.of_nat 3 >? 3) with false.
  change (Z.of_nat 3 >? 1) with true. change (Z.of_nat 3 =? 3) with true.
  cbn [orb andb].
  destruct (negb (AllocatePool_ok fw)); [discriminate |].
  destruct (negb (stra_to_str_ok fw)); [discriminate |].
  destruct (gpt_get_partition_by_label fw) as [ret g].
  destruct (EFI_ERROR ret); [cbn; destruct ret; discriminate |].
  rewrite Ha, Hb. cbn [fst].
  cbn [set_ctx_len set_ctx_cur set_ctx_private ctx_cur ctx_len].
  rewrite (u64_small off Hoff), (u64_small len Hlen).
  match goal with |- context [if ?c then (error_or_invalid _, _, _) else _] =>
    destruct c; [cbn; destruct ret; discriminate |] end.
  match goal with |- context [if ?c then (error_or_invalid _, _, _) else _] =>
    destruct c; [cbn; destruct ret; discriminate |] end.
  intros H. injection H as Hw Hctx.
  assert (Hf : ctx_reader ctx' = Some READER_part /\ ctx_cur ctx' = off /\
               ctx_len ctx' = len /\
               ctx_private ctx'
               = priv_part {| gparti := g; need_more_data := true; buf_cur := 0;
                              buf_len := 0;
                              offset := u64 (starting_lba g * BlockSize g) |})
    by (rewrite <- Hctx; cbn; rewrite Hr; repeat split; reflexivity).
  destruct Hf as (Hr' & Hcur' & Hlen' & Hpriv'). clear Hctx Hw.
  split; [exact Hcur' |]. split; [exact Hlen' |].
  pose proof (u64_range (len - off)) as Hrg. unfold is_u64 in Hrg.
  assert (Hleft : u64 (len - off) <> 0).
  { intros H0. apply (proj1 (u64_sub_zero _ _ Hoff Hlen)) in H0. contradiction. }
  unfold reader_read. rewrite Hr', Hcur', Hlen'.
  replace (n =? 0) with false by (symmetry; apply Z.eqb_neq; lia).
  replace (Z.min n (u64 (len - off)) =? 0) with false
    by (symmetry; apply Z.eqb_neq; lia).
  cbn [reader_read_fn]. unfold part_read. rewrite Hpriv', Hcur', Hlen'.
  cbn [need_more_data]. rewrite Hdisk.
  cbn [EFI_ERROR andb set_buf buf_cur buf_len need_more_data rr_status rr_world
       rr_ctx rr_buf rr_len].
  rewrite Z.sub_0_r.
  rewrite (u64_small (Z.min PART_READER_BUF_SIZE (u64 (len - off))))
    by (unfold is_u64, PART_READER_BUF_SIZE; lia).
  split; [reflexivity |]. split; [reflexivity |].
  split; [unfold PART_READER_BUF_SIZE; lia |].
  eexists. split; [reflexivity |]. reflexivity.
Qed.

End RangeFacts.

(** X23, on a run: in a partition of 8 blocks of 512 bytes the stream
    opened at offset 0x800 with length 0x400 returns the 4096 bytes its
    first read has room for. *)
Lemma part_open_range_run :
  let r := part_open hex_strtoul world0
             (set_ctx_reader (Some READER_part) ctx0)
             ["boot"%string; "800"%string; "400"%string]
             (firmware_with_partition gpt8) in
  ctx_cur (snd r) = 0x800 /\ ctx_len (snd r) = 0x400 /\
  rr_status (reader_read (snd (fst r)) (snd r) 4096 (firmware_with_partition gpt8))
  = EFI_SUCCESS /\
  rr_buf (reader_read (snd (fst r)) (snd r) 4096 (firmware_with_partition gpt8))
  = buf_part 0 /\
  rr_len (reader_read (snd (fst r)) (snd r) 4096 (firmware_with_partition gpt8))
  = Z.min 4096 (Z.min PART_READER_BUF_SIZE (u64 (0x400 - 0x800))) /\
  exists p,
    ctx_private (rr_ctx (reader_read (snd (fst r)) (snd r) 4096
                           (firmware_with_partition gpt8))) = priv_part p /\
    buf_len p = Z.min PART_READER_BUF_SIZE (u64 (0x400 - 0x800)).
Proof.
  apply (part_open_range hex_strtoul world0 (set_ctx_reader (Some READER_part) ctx0)
           "boot"%string "800"%string "400"%string (firmware_with_partition gpt8)
           0x800 0x400 EmptyString EmptyString).
  - reflexivity.
  - reflexivity.
  - reflexivity.
  - unfold is_u64. lia.
  - unfold is_u64. lia.
  - vm_compute. reflexivity.
  - reflexivity.
  - lia.
  - lia.
Defined.
